(** * Backtester: a shallow embedding of [src/backtester.py]

    The engine works on pandas frames of IEEE doubles.  Here a double is an
    exact rational extended with the three special values the code can
    produce or test for (NaN, +inf, -inf); rounding, overflow and signed
    zeros are not modelled.  Frames are row-major: an ordered list of
    (date, row) pairs over an ordered list of ticker columns. *)

From Stdlib Require Import ZArith QArith Qminmax String List Bool Lia Lqa.
From Stdlib Require Import Permutation Sorted.
Import ListNotations.

Set Implicit Arguments.

(** ** Numbers *)

Inductive fl : Type :=
| NaN  : fl
| PInf : fl
| NInf : fl
| Fin  : Q -> fl.

Definition isna (x : fl) : bool :=
  match x with NaN => true | _ => false end.

Definition notna (x : fl) : bool := negb (isna x).

(** Same value: both NaN, the same infinity, or equal rationals. *)
Definition feq (a b : fl) : Prop :=
  match a, b with
  | NaN, NaN => True
  | PInf, PInf => True
  | NInf, NInf => True
  | Fin p, Fin q => p == q
  | _, _ => False
  end.

Definition fneg (a : fl) : fl :=
  match a with
  | NaN => NaN
  | PInf => NInf
  | NInf => PInf
  | Fin q => Fin (- q)
  end.

Definition fadd (a b : fl) : fl :=
  match a, b with
  | NaN, _ | _, NaN => NaN
  | PInf, NInf | NInf, PInf => NaN
  | PInf, _ | _, PInf => PInf
  | NInf, _ | _, NInf => NInf
  | Fin p, Fin q => Fin (p + q)
  end.

Definition fsub (a b : fl) : fl := fadd a (fneg b).

(** The infinity with the sign of [c], NaN for [Eq] (0 * inf, 0 / 0). *)
Definition signed_inf (c : comparison) : fl :=
  match c with Gt => PInf | Lt => NInf | Eq => NaN end.

Definition fmul (a b : fl) : fl :=
  match a, b with
  | NaN, _ | _, NaN => NaN
  | PInf, PInf | NInf, NInf => PInf
  | PInf, NInf | NInf, PInf => NInf
  | PInf, Fin q | Fin q, PInf => signed_inf (q ?= 0)
  | NInf, Fin q | Fin q, NInf => signed_inf (CompOpp (q ?= 0))
  | Fin p, Fin q => Fin (p * q)
  end.

Definition fdiv (a b : fl) : fl :=
  match a, b with
  | NaN, _ | _, NaN => NaN
  | PInf, PInf | PInf, NInf | NInf, PInf | NInf, NInf => NaN
  | PInf, Fin q => if Qlt_le_dec q 0 then NInf else PInf
  | NInf, Fin q => if Qlt_le_dec q 0 then PInf else NInf
  | Fin _, PInf | Fin _, NInf => Fin 0
  | Fin p, Fin q =>
      if Qeq_bool q 0 then signed_inf (p ?= 0) else Fin (p / q)
  end.

(** Comparisons are false as soon as one side is NaN. *)
Definition flt (a b : fl) : bool :=
  match a, b with
  | NaN, _ | _, NaN => false
  | PInf, _ => false
  | _, NInf => false
  | NInf, _ => true
  | _, PInf => true
  | Fin p, Fin q => negb (Qle_bool q p)
  end.

Definition fle (a b : fl) : bool :=
  match a, b with
  | NaN, _ | _, NaN => false
  | NInf, _ => true
  | _, PInf => true
  | PInf, _ => false
  | _, NInf => false
  | Fin p, Fin q => Qle_bool p q
  end.

Definition fzero : fl := Fin 0.
Definition fone : fl := Fin 1.

(** [Series.fillna(0)] on one cell. *)
Definition fillna0 (x : fl) : fl := if isna x then fzero else x.

Definition fsum (l : list fl) : fl := fold_left fadd l fzero.

Definition of_nat (n : nat) : fl := Fin (inject_Z (Z.of_nat n)).

(** [Series.mean()]: NaN cells are skipped, an empty selection gives NaN. *)
Definition mean (l : list fl) : fl :=
  let v := filter notna l in
  match v with
  | [] => NaN
  | _ => fdiv (fsum v) (of_nat (length v))
  end.

(** [Series.min()], again skipping NaN. *)
Definition fmin2 (a b : fl) : fl := if flt b a then b else a.

Definition series_min (l : list fl) : fl :=
  match filter notna l with
  | [] => NaN
  | x :: v => fold_left fmin2 v x
  end.

(** [Series.cumprod()] and [Series.cummax()]: a NaN cell stays NaN in the
    result and is left out of the running value. *)
Fixpoint accum (op : fl -> fl -> fl) (acc : option fl) (l : list fl) : list fl :=
  match l with
  | [] => []
  | x :: l' =>
      if isna x then NaN :: accum op acc l'
      else
        let a := match acc with None => x | Some a0 => op a0 x end in
        a :: accum op (Some a) l'
  end.

Definition fmax2 (a b : fl) : fl := if flt a b then b else a.

Definition cumprod (l : list fl) : list fl := accum fmul None l.
Definition cummax (l : list fl) : list fl := accum fmax2 None l.

(** ** Dates *)

Record Date : Type := mkDate { year : Z; month : Z; day : Z }.

Definition date_cmp (a b : Date) : comparison :=
  match (year a ?= year b)%Z with
  | Eq => match (month a ?= month b)%Z with
          | Eq => (day a ?= day b)%Z
          | c => c
          end
  | c => c
  end.

Definition date_leb (a b : Date) : bool :=
  match date_cmp a b with Gt => false | _ => true end.

Definition date_ltb (a b : Date) : bool :=
  match date_cmp a b with Lt => true | _ => false end.

Definition date_eqb (a b : Date) : bool :=
  match date_cmp a b with Eq => true | _ => false end.

Definition date_le (a b : Date) : Prop := date_leb a b = true.
Definition date_lt (a b : Date) : Prop := date_ltb a b = true.

(** ** Frames *)

Definition ticker := string.

Record DataFrame : Type := mkFrame {
  columns : list ticker;
  rows : list (Date * list fl)
}.

Definition index (df : DataFrame) : list Date := map fst (rows df).

Fixpoint index_of (t : ticker) (cols : list ticker) : option nat :=
  match cols with
  | [] => None
  | c :: cols' =>
      if String.eqb c t then Some O
      else option_map S (index_of t cols')
  end.

Definition row_at (rs : list (Date * list fl)) (d : Date) : option (list fl) :=
  option_map snd (find (fun r => date_eqb (fst r) d) rs).

(** [df.loc[d, t]]; [None] when the label is absent. *)
Definition cell (df : DataFrame) (d : Date) (t : ticker) : option fl :=
  match row_at (rows df) d, index_of t (columns df) with
  | Some r, Some j => nth_error r j
  | _, _ => None
  end.

(** *** [sort_index] *)

Fixpoint insert_row (r : Date * list fl) (rs : list (Date * list fl))
  : list (Date * list fl) :=
  match rs with
  | [] => [r]
  | r' :: rs' =>
      if date_ltb (fst r') (fst r) then r' :: insert_row r rs'
      else r :: rs
  end.

Definition sort_rows (rs : list (Date * list fl)) : list (Date * list fl) :=
  fold_right insert_row [] rs.

Definition sort_index (df : DataFrame) : DataFrame :=
  mkFrame (columns df) (sort_rows (rows df)).

(** *** [ffill] *)

Fixpoint fill_row (prev r : list fl) : list fl :=
  match r with
  | [] => []
  | x :: r' => (if isna x then hd NaN prev else x) :: fill_row (tl prev) r'
  end.

Fixpoint ffill_rows (prev : list fl) (rs : list (Date * list fl))
  : list (Date * list fl) :=
  match rs with
  | [] => []
  | (d, r) :: rs' =>
      let r' := fill_row prev r in
      (d, r') :: ffill_rows r' rs'
  end.

Definition ffill (df : DataFrame) : DataFrame :=
  mkFrame (columns df) (ffill_rows [] (rows df)).

(** *** [dropna(axis=1, how='all')] *)

Definition col_has_value (rs : list (Date * list fl)) (j : nat) : bool :=
  existsb (fun r => notna (nth j (snd r) NaN)) rs.

Definition keep_mask (df : DataFrame) : list bool :=
  map (col_has_value (rows df)) (seq 0 (length (columns df))).

Fixpoint select (A : Type) (mask : list bool) (l : list A) : list A :=
  match mask, l with
  | b :: mask', x :: l' => if b then x :: select mask' l' else select mask' l'
  | _, _ => []
  end.

Definition dropna_cols (df : DataFrame) : DataFrame :=
  let m := keep_mask df in
  mkFrame (select m (columns df))
          (map (fun r => (fst r, select m (snd r))) (rows df)).

(** ** [Backtester.__init__] *)

Record Backtester : Type := mkBacktester {
  prices : DataFrame;
  dates : list Date
}.

Definition init (price_df : DataFrame) : Backtester :=
  let p := dropna_cols (ffill (sort_index price_df)) in
  mkBacktester p (index p).

(** ** Dictionaries

    A Python [dict] as an insertion-ordered association list: [dict_set]
    overwrites the value of a key already present and appends a new key. *)

Section Dict.
Variables (K V : Type) (keqb : K -> K -> bool).

Fixpoint dict_get (m : list (K * V)) (k : K) : option V :=
  match m with
  | [] => None
  | (k', v) :: m' => if keqb k' k then Some v else dict_get m' k
  end.

Fixpoint dict_set (m : list (K * V)) (k : K) (v : V) : list (K * V) :=
  match m with
  | [] => [(k, v)]
  | (k', v') :: m' =>
      if keqb k' k then (k', v) :: m' else (k', v') :: dict_set m' k v
  end.

Definition dict_keys (m : list (K * V)) : list K := map fst m.

Definition dict_get_default (m : list (K * V)) (k : K) (dflt : V) : V :=
  match dict_get m k with Some v => v | None => dflt end.

Definition dict_mem (m : list (K * V)) (k : K) : bool :=
  match dict_get m k with Some _ => true | None => false end.
End Dict.

(** ** Returns: [price.pct_change().fillna(0)] *)

Fixpoint zip_with (A B C : Type) (f : A -> B -> C) (l : list A) (l' : list B)
  : list C :=
  match l, l' with
  | x :: t, y :: t' => f x y :: zip_with f t t'
  | _, _ => []
  end.

Definition pct (cur prev : fl) : fl := fsub (fdiv cur prev) fone.

Fixpoint pct_rows (prev : option (list fl)) (rs : list (Date * list fl))
  : list (Date * list fl) :=
  match rs with
  | [] => []
  | (d, r) :: rs' =>
      let r' := match prev with
                | None => map (fun _ => NaN) r
                | Some p => zip_with pct r p
                end in
      (d, r') :: pct_rows (Some r) rs'
  end.

Definition pct_change (df : DataFrame) : DataFrame :=
  mkFrame (columns df) (pct_rows None (rows df)).

Definition fillna_zero (df : DataFrame) : DataFrame :=
  mkFrame (columns df) (map (fun r => (fst r, map fillna0 (snd r))) (rows df)).

Definition daily_returns (price : DataFrame) : DataFrame :=
  fillna_zero (pct_change price).

(** ** Rebalance schedule: [price.resample(rule).first().index]

    The labels of a month or quarter resampling are the last calendar days
    of the periods, one for every period from the first row's to the last
    row's. *)

Inductive Freq : Type := Monthly | Quarterly.

Definition is_leap (y : Z) : bool :=
  (((y mod 4 =? 0) && negb (y mod 100 =? 0)) || (y mod 400 =? 0))%Z.

Definition days_in_month (y m : Z) : Z :=
  (if m =? 2 then (if is_leap y then 29 else 28)
   else if (m =? 4) || (m =? 6) || (m =? 9) || (m =? 11) then 30
   else 31)%Z.

Definition months_per (f : Freq) : Z :=
  match f with Monthly => 1 | Quarterly => 3 end.

Definition month_number (d : Date) : Z := (year d * 12 + (month d - 1))%Z.

Definition period_of (f : Freq) (d : Date) : Z :=
  (month_number d / months_per f)%Z.

Definition period_end (f : Freq) (p : Z) : Date :=
  let mi := (p * months_per f + (months_per f - 1))%Z in
  let y := (mi / 12)%Z in
  let m := (mi mod 12 + 1)%Z in
  mkDate y m (days_in_month y m).

Definition resample_index (f : Freq) (idx : list Date) : list Date :=
  match idx with
  | [] => []
  | d0 :: _ =>
      let p0 := period_of f d0 in
      let p1 := period_of f (last idx d0) in
      map (fun k => period_end f (p0 + Z.of_nat k)%Z)
          (seq 0 (Z.to_nat (p1 - p0 + 1)))
  end.

(** [Index.get_indexer([d], method="pad")]: position of the last label that
    is <= d, or -1. *)
Fixpoint pad_from (i best : Z) (idx : list Date) (d : Date) : Z :=
  match idx with
  | [] => best
  | x :: idx' => pad_from (i + 1)%Z (if date_leb x d then i else best) idx' d
  end.

Definition pad_indexer (idx : list Date) (d : Date) : Z := pad_from 0%Z (-1)%Z idx d.

Definition effective_date (idx : list Date) (d : Date) : option Date :=
  if existsb (date_eqb d) idx then Some d
  else
    let prior_idx := pad_indexer idx d in
    if (prior_idx =? -1)%Z then None
    else nth_error idx (Z.to_nat prior_idx).

(** ** Selection *)

Definition ScoreTuple : Type := (fl * fl * fl)%type.

(** [{t: valuation_scores.get(t, (nan, None, None))[0] for t in columns}] *)
Definition score_of (valuation_scores : list (ticker * ScoreTuple)) (t : ticker) : fl :=
  match dict_get String.eqb valuation_scores t with
  | Some (s, _, _) => s
  | None => NaN
  end.

Definition build_scores (valuation_scores : list (ticker * ScoreTuple))
  (cols : list ticker) : list (ticker * fl) :=
  fold_left (fun m t => dict_set String.eqb m t (score_of valuation_scores t)) cols [].

(** [price.loc[d]]; the callers only pass labels of the index. *)
Definition loc_row (df : DataFrame) (d : Date) : list fl :=
  match row_at (rows df) d with Some r => r | None => [] end.

(** [price.loc[d].dropna().index.tolist()] *)
Definition avail (df : DataFrame) (d : Date) : list ticker :=
  map fst (filter (fun p => notna (snd p)) (combine (columns df) (loc_row df d))).

Definition has_score (scores : list (ticker * fl)) (a : ticker) : bool :=
  match dict_get String.eqb scores a with
  | Some s => notna s
  | None => false
  end.

Definition score_key (scores : list (ticker * fl)) (x : ticker) : fl :=
  dict_get_default String.eqb scores x NaN.

(** [sorted(l, key=...)]: stable, and only [<] on the keys is used. *)
Fixpoint insert_by (key : ticker -> fl) (x : ticker) (l : list ticker) : list ticker :=
  match l with
  | [] => [x]
  | y :: l' => if flt (key y) (key x) then y :: insert_by key x l' else x :: l
  end.

Definition sorted_by (key : ticker -> fl) (l : list ticker) : list ticker :=
  fold_right (insert_by key) [] l.

(** [l[:n]] for a Python int [n]. *)
Definition slice_to (A : Type) (l : list A) (n : Z) : list A :=
  if (n <? 0)%Z then firstn (Z.to_nat (Z.of_nat (length l) + n)) l
  else firstn (Z.to_nat n) l.

Definition ranked (price : DataFrame) (scores : list (ticker * fl)) (d_eff : Date)
  : list ticker :=
  sorted_by (score_key scores) (filter (has_score scores) (avail price d_eff)).

Definition selection (price : DataFrame) (scores : list (ticker * fl))
  (top_n : Z) (d_eff : Date) : list ticker :=
  slice_to (ranked price scores d_eff) top_n.

Definition rebalance_step (price : DataFrame) (scores : list (ticker * fl))
  (top_n : Z) (holdings_map : list (Date * list ticker)) (d : Date)
  : list (Date * list ticker) :=
  match effective_date (index price) d with
  | None => holdings_map
  | Some d_eff =>
      dict_set date_eqb holdings_map d_eff (selection price scores top_n d_eff)
  end.

Definition build_holdings_map (price : DataFrame) (scores : list (ticker * fl))
  (top_n : Z) (rebal_dates : list Date) : list (Date * list ticker) :=
  fold_left (rebalance_step price scores top_n) rebal_dates [].

(** ** Forward fill of the holdings *)

Definition max_date (l : list Date) : option Date :=
  match l with
  | [] => None
  | x :: l' => Some (fold_left (fun m y => if date_ltb m y then y else m) l' x)
  end.

Definition holdings_step (holdings_map : list (Date * list ticker))
  (current : list ticker) (dt : Date) : list ticker :=
  let valid_reb := filter (fun r => date_leb r dt) (dict_keys holdings_map) in
  match max_date valid_reb with
  | Some last_reb_date => dict_get_default date_eqb holdings_map last_reb_date current
  | None => current
  end.

Fixpoint project_holdings (holdings_map : list (Date * list ticker))
  (current : list ticker) (idx : list Date) : list (Date * list ticker) :=
  match idx with
  | [] => []
  | dt :: idx' =>
      let current' := holdings_step holdings_map current dt in
      (dt, current') :: project_holdings holdings_map current' idx'
  end.

(** [holdings_series.loc[dt]] *)
Definition holdings_at (hs : list (Date * list ticker)) (dt : Date) : list ticker :=
  dict_get_default date_eqb hs dt [].

(** ** Portfolio and benchmark returns *)

(** [returns.loc[dt, t]]; the tickers asked for are columns of the frame. *)
Definition ret_at (returns : DataFrame) (dt : Date) (t : ticker) : fl :=
  match cell returns dt t with Some v => v | None => NaN end.

Definition day_port_ret (returns : DataFrame) (hs : list (Date * list ticker))
  (dt : Date) : fl :=
  match holdings_at hs dt with
  | [] => fzero
  | sel => mean (map (ret_at returns dt) sel)
  end.

Definition port_returns (returns : DataFrame) (hs : list (Date * list ticker))
  (idx : list Date) : list fl :=
  map fillna0 (map (day_port_ret returns hs) idx).

(** [returns.mean(axis=1)] *)
Definition bench_returns (returns : DataFrame) : list fl :=
  map (fun r => mean (snd r)) (rows returns).

Definition cumulative (rets : list fl) : list fl :=
  cumprod (map (fadd fone) rets).

Definition drawdown_of (cum : list fl) : list fl :=
  zip_with (fun c m => fdiv (fsub c m) m) cum (cummax cum).

(** ** The per-day table *)

Record Report : Type := mkReport {
  report_index : list Date;
  portfolio_return : list fl;
  benchmark_return : list fl;
  cum_portfolio : list fl;
  cum_benchmark : list fl;
  holdings : list (Date * list ticker);
  portfolio_drawdown : list fl;
  benchmark_drawdown : list fl
}.

Definition holdings_map_of (price : DataFrame)
  (valuation_scores : list (ticker * ScoreTuple)) (top_n : Z) (rebalance : Freq)
  : list (Date * list ticker) :=
  build_holdings_map price (build_scores valuation_scores (columns price)) top_n
    (resample_index rebalance (index price)).

Definition holdings_series (price : DataFrame)
  (valuation_scores : list (ticker * ScoreTuple)) (top_n : Z) (rebalance : Freq)
  : list (Date * list ticker) :=
  project_holdings (holdings_map_of price valuation_scores top_n rebalance) []
    (index price).

Definition run_frame (self : Backtester)
  (valuation_scores : list (ticker * ScoreTuple)) (top_n : Z) (rebalance : Freq)
  : Report :=
  let price := prices self in
  let returns := daily_returns price in
  let hs := holdings_series price valuation_scores top_n rebalance in
  let port_ret := port_returns returns hs (index price) in
  let bench_ret := bench_returns returns in
  let cum_port := cumulative port_ret in
  let cum_bench := cumulative bench_ret in
  mkReport (index price) port_ret bench_ret cum_port cum_bench hs
           (drawdown_of cum_port) (drawdown_of cum_bench).

(** ** Summary statistics

    The square root, the sample standard deviation and the real power come
    from numpy and pandas; they are parameters of the model. *)

Record Stats : Type := mkStats {
  annual_return : option fl;
  annual_vol : option fl;
  sharpe : option fl;
  max_drawdown : option fl;
  final_cum_return : option fl
}.

(** [float(x) if pd.notna(x) else None] *)
Definition nullable (x : fl) : option fl := if notna x then Some x else None.

Section StatsEngine.
Variable np_sqrt : fl -> fl.
Variable series_std : list fl -> fl.
Variable fpow : fl -> fl -> fl.

Definition ann_factor : fl := Fin 252.

Definition ann_return_of (cum_port : list fl) : fl :=
  match cum_port with
  | [] => NaN
  | x :: _ =>
      fsub (fpow (last cum_port x) (fdiv ann_factor (of_nat (length cum_port)))) fone
  end.

Definition ann_vol_of (port_ret : list fl) : fl :=
  fmul (series_std port_ret) (np_sqrt ann_factor).

Definition sharpe_of (port_ret : list fl) (risk_free_annual : fl) : fl :=
  if flt fzero (series_std port_ret) then
    fdiv (fsub (fmul (mean port_ret) ann_factor) risk_free_annual)
         (fmul (series_std port_ret) (np_sqrt ann_factor))
  else NaN.

Definition stats_of (port_ret cum_port drawdown : list fl)
  (risk_free_annual : fl) : Stats :=
  mkStats (nullable (ann_return_of cum_port))
          (nullable (ann_vol_of port_ret))
          (nullable (sharpe_of port_ret risk_free_annual))
          (nullable (series_min drawdown))
          (match cum_port with
           | [] => None
           | x :: _ => Some (last cum_port x)
           end).

Definition run_strategy (self : Backtester)
  (valuation_scores : list (ticker * ScoreTuple)) (top_n : Z)
  (rebalance : Freq) (risk_free_annual : fl) : Report * Stats :=
  let df := run_frame self valuation_scores top_n rebalance in
  (df, stats_of (portfolio_return df) (cum_portfolio df)
                (portfolio_drawdown df) risk_free_annual).
End StatsEngine.

(** ** Notions used by the statements *)

(** Rows in date order. *)
Definition row_le (a b : Date * list fl) : Prop := date_le (fst a) (fst b).

(** Number of columns kept by a mask before position [j]. *)
Definition kept_before (m : list bool) (j : nat) : nat :=
  length (filter (fun b : bool => b) (firstn j m)).

(** A frame as pandas builds it from a pivot or a concat: distinct dates,
    distinct column labels, one cell per column in every row. *)
Definition well_formed (df : DataFrame) : Prop :=
  NoDup (index df) /\ NoDup (columns df) /\
  Forall (fun r => length (snd r) = length (columns df)) (rows df).

(** ** Sample inputs *)

Definition sample_raw : DataFrame :=
  mkFrame ["A"; "B"; "C"]%string
    [ (mkDate 2020 1 3, [NaN; Fin 2; NaN]);
      (mkDate 2020 1 2, [Fin 5; NaN; NaN]);
      (mkDate 2020 1 6, [NaN; NaN; NaN]) ].

(** What resolving a boundary [d] against the index must give: the latest
    label at or before [d], or nothing when every label is later. *)
Definition resolved (idx : list Date) (d : Date) (res : option Date) : Prop :=
  match res with
  | Some e =>
      In e idx /\ date_le e d /\
      forall x, In x idx -> date_le x d -> date_le x e
  | None => forall x, In x idx -> date_lt d x
  end.

(** Candidate [c] resolves to the label [e]. *)
Definition resolves_to (idx : list Date) (e c : Date) : bool :=
  match effective_date idx c with
  | Some x => date_eqb x e
  | None => false
  end.

(** "The first trading day of its calendar period that is present in the
    index". *)
Definition first_trading_day_of_period (f : Freq) (idx : list Date) (c : Date) : Prop :=
  In c idx /\
  forall x, In x idx -> period_of f x = period_of f c -> date_le c x.

(** A date of the Gregorian calendar. *)
Definition valid_date (d : Date) : Prop :=
  (1 <= month d <= 12 /\ 1 <= day d <= days_in_month (year d) (month d))%Z.

(** Same value, as a test. *)
Definition feqb (a b : fl) : bool :=
  match a, b with
  | NaN, NaN => true
  | PInf, PInf => true
  | NInf, NInf => true
  | Fin p, Fin q => Qeq_bool p q
  | _, _ => false
  end.

(** Ascending by key. *)
Definition key_le (key : ticker -> fl) (a b : ticker) : Prop :=
  fle (key a) (key b) = true.

Definition sample_scores : list (ticker * ScoreTuple) :=
  [ ("B", (Fin (1 # 10), Fin 3, NaN));
    ("A", (Fin (1 # 10), Fin 7, Fin 6));
    ("C", (Fin (-1 # 2), NaN, NaN)) ]%string.

(** The latest key at or before [dt]. *)
Definition latest_le (keys : list Date) (dt : Date) : option Date :=
  max_date (filter (fun r => date_leb r dt) keys).

(** The holdings a date must get from the map of rebalance dates. *)
Definition holdings_spec (holdings_map : list (Date * list ticker)) (dt : Date)
  : list ticker :=
  match latest_le (dict_keys holdings_map) dt with
  | Some r => dict_get_default date_eqb holdings_map r []
  | None => []
  end.

(** The arithmetic mean of a list of numbers: their sum over their count. *)
Definition arith_mean (l : list fl) : fl := fdiv (fsum l) (of_nat (length l)).

Definition finite (x : fl) : bool :=
  match x with Fin _ => true | _ => false end.

(** Ticker "A" doubles while "B" is flat. *)
Definition two_ticker_table : DataFrame :=
  mkFrame ["A"; "B"]%string
    [ (mkDate 2020 1 2, [Fin 1; Fin 1]);
      (mkDate 2020 1 3, [Fin 2; Fin 1]) ].

Definition both_held : list (Date * list ticker) :=
  [ (mkDate 2020 1 2, []); (mkDate 2020 1 3, ["A"; "B"]%string) ].

(** A return series whose first value is a zero. *)
Definition starts_at_zero (rets : list fl) : Prop :=
  match rets with
  | [] => True
  | r :: _ => exists q, r = Fin q /\ q == 0
  end.

Definition all_nan (rets : list fl) : Prop := Forall (fun x => x = NaN) rets.

(** A price that falls to zero and comes back. *)
Definition zero_price_raw : DataFrame :=
  mkFrame ["A"]%string
    [ (mkDate 2020 1 31, [Fin 1]);
      (mkDate 2020 2 3, [Fin 0]);
      (mkDate 2020 2 4, [Fin 1]) ].

(** The same scores as [sample_scores], inserted in another order. *)
Definition sample_scores_reordered : list (ticker * ScoreTuple) :=
  [ ("C", (Fin (-1 # 2), NaN, NaN));
    ("A", (Fin (1 # 10), Fin 7, Fin 6));
    ("B", (Fin (1 # 10), Fin 3, NaN)) ]%string.

(** Stand-ins for the numpy and pandas functions, to run the statistics on
    the samples: a sample deviation that is always undefined, and identity
    for the square root and the power. *)
Definition sample_sqrt (x : fl) : fl := x.
Definition sample_std (l : list fl) : fl := NaN.
Definition sample_pow (x y : fl) : fl := x.

(** [e] is the last trading day of its calendar period. *)
Definition last_trading_day_of_period (f : Freq) (idx : list Date) (e : Date) : Prop :=
  In e idx /\
  forall y, In y idx -> period_of f y = period_of f e -> date_le y e.

(** A value that is the number 1, and a value that is the number 0. *)
Definition is_one (x : fl) : Prop := exists q, x = Fin q /\ q == 1.
Definition is_zero (x : fl) : Prop := exists q, x = Fin q /\ q == 0.

(** * Valuation: [src/valuation.py]

    Plain Python floats: a division by zero raises [ZeroDivisionError]
    ([None] here) instead of giving an infinity; [x ** i] for a positive
    integer [i] is the exact power (no overflow in this model). *)

Definition py_div (a b : fl) : option fl :=
  match b with
  | Fin q => if Qeq_bool q 0 then None else Some (fdiv a b)
  | _ => Some (fdiv a b)
  end.

Fixpoint fpow_nat (x : fl) (n : nat) : fl :=
  match n with
  | O => fone
  | S n' => fmul x (fpow_nat x n')
  end.

(** [sum(cf/df for cf, df in zip(cashflows, discount_factors))] *)
Fixpoint sum_quotients (acc : fl) (l : list (fl * fl)) : option fl :=
  match l with
  | [] => Some acc
  | (cf, df) :: l' =>
      match py_div cf df with
      | None => None
      | Some q => sum_quotients (fadd acc q) l'
      end
  end.

(** [range(1, n + 1)] for a Python int [n]. *)
Definition range_from_one (n : Z) : list nat := seq 1 (Z.to_nat n).

Definition dcf_simple (current_cashflow growth_rate discount_rate : fl)
  (years : Z) (terminal_growth : fl) : option fl :=
  let cashflows :=
    map (fun i => fmul current_cashflow (fpow_nat (fadd fone growth_rate) i))
        (range_from_one years) in
  match rev cashflows with
  | [] => None
  | last_cf :: _ =>
      match (if flt terminal_growth discount_rate
             then py_div (fmul last_cf (fadd fone terminal_growth))
                         (fsub discount_rate terminal_growth)
             else Some last_cf) with
      | None => None
      | Some terminal =>
          let discount_factors :=
            map (fun i => fpow_nat (fadd fone discount_rate) i)
                (range_from_one (years + 1)) in
          sum_quotients fzero (combine (cashflows ++ [terminal]) discount_factors)
      end
  end.

Definition comparables_pe (current_eps peer_pe : fl) : fl := fmul current_eps peer_pe.

(** Truth value of a float: false for zero only. *)
Definition truthy (x : fl) : bool :=
  match x with Fin q => negb (Qeq_bool q 0) | _ => true end.

(** The body of the loop of [score_valuations] for one ticker with a usable
    price; [peer_pe] is [peer_map.get(t, nan)]. *)
Definition score_one (price discount_rate terminal_growth : fl) (proj_years : Z)
  (peer_pe : fl) : option ScoreTuple :=
  let proxy_fcf := fdiv price (Fin 20) in
  match dcf_simple proxy_fcf (Fin (1 # 20)) discount_rate proj_years terminal_growth with
  | None => None
  | Some dcf_val =>
      let current_eps := fdiv price (Fin 20) in
      let comparable_est := if notna peer_pe then fmul current_eps peer_pe else NaN in
      let estimates := filter notna [dcf_val; comparable_est] in
      let avg_est := match estimates with [] => dcf_val | _ => arith_mean estimates end in
      let score := if truthy price then fdiv (fsub price avg_est) price else NaN in
      Some (score, dcf_val, comparable_est)
  end.

Definition peer_pe_of (peer_map : list (ticker * fl)) (t : ticker) : fl :=
  dict_get_default String.eqb peer_map t NaN.

(** [score_valuations], with the parsed peer map as an input. *)
Fixpoint score_loop (latest_prices : list (ticker * fl))
  (discount_rate terminal_growth : fl) (proj_years : Z)
  (peer_map : list (ticker * fl)) (tickers : list ticker)
  (out : list (ticker * ScoreTuple)) : option (list (ticker * ScoreTuple)) :=
  match tickers with
  | [] => Some out
  | t :: rest =>
      match dict_get String.eqb latest_prices t with
      | None => score_loop latest_prices discount_rate terminal_growth proj_years
                           peer_map rest out
      | Some price =>
          if isna price
          then score_loop latest_prices discount_rate terminal_growth proj_years
                          peer_map rest out
          else
            match score_one price discount_rate terminal_growth proj_years
                            (peer_pe_of peer_map t) with
            | None => None
            | Some tup =>
                score_loop latest_prices discount_rate terminal_growth proj_years
                           peer_map rest (dict_set String.eqb out t tup)
            end
      end
  end.

Definition score_valuations (tickers : list ticker) (latest_prices : list (ticker * fl))
  (discount_rate terminal_growth : fl) (proj_years : Z)
  (peer_map : list (ticker * fl)) : option (list (ticker * ScoreTuple)) :=
  score_loop latest_prices discount_rate terminal_growth proj_years peer_map tickers [].

Definition sample_latest_prices : list (ticker * fl) :=
  [ ("A", Fin 100); ("B", Fin 40); ("C", NaN); ("D", Fin 0) ]%string.

Definition sample_peer_map : list (ticker * fl) := [ ("A", Fin 25) ]%string.

(** The latest price of a ticker when it can be used: present and not NaN. *)
Definition usable_price (latest_prices : list (ticker * fl)) (t : ticker) : option fl :=
  match dict_get String.eqb latest_prices t with
  | Some p => if isna p then None else Some p
  | None => None
  end.

(** A table with a column for each sample ticker with a price. *)
Definition priced_raw : DataFrame :=
  mkFrame ["A"; "B"; "D"]%string
    [ (mkDate 2020 1 30, [Fin 90; Fin 41; Fin 1]);
      (mkDate 2020 1 31, [Fin 100; Fin 40; Fin 0]) ].

(** The same computation on rationals, for finite arguments and
    [years = n + 1]. *)
Fixpoint qpow (q : Q) (n : nat) : Q :=
  match n with
  | O => 1
  | S n' => q * qpow q n'
  end.

Definition wsum (acc : Q) (l : list (Q * Q)) : Q :=
  fold_left (fun s xd => s + fst xd / snd xd) l acc.

Definition dcf_terminal (c g d tg : Q) (n : nat) : Q :=
  if negb (Qle_bool d tg)
  then c * qpow (1 + g) (S n) * (1 + tg) / (d + - tg)
  else c * qpow (1 + g) (S n).

Definition dcf_q (c g d tg : Q) (n : nat) : Q :=
  wsum 0 (combine (map (fun i => c * qpow (1 + g) i) (seq 1 (S n))
                     ++ [dcf_terminal c g d tg n])
                  (map (qpow (1 + d)) (seq 1 (S (S n))))).

(** ** The calling script: [app.py]

    The two calls the script makes once the table is loaded. *)

(** [Series.to_dict()]: a later duplicate label overwrites an earlier one. *)
Definition to_dict (pairs : list (ticker * fl)) : list (ticker * fl) :=
  fold_left (fun m kv => dict_set String.eqb m (fst kv) (snd kv)) pairs [].

(** [price_df.iloc[-1].to_dict()]; [iloc[-1]] raises on a frame without
    rows. *)
Definition latest_prices (price_df : DataFrame) : option (list (ticker * fl)) :=
  match rev (rows price_df) with
  | [] => None
  | r :: _ => Some (to_dict (combine (columns price_df) (snd r)))
  end.

(** The scoring call: the rates are entered in percent, the prices are those
    of the last row of the table as loaded. *)
Definition app_scores (price_df : DataFrame) (discount_rate terminal_growth : fl)
  (projection_years : Z) (peer_map : list (ticker * fl))
  : option (list (ticker * ScoreTuple)) :=
  match latest_prices price_df with
  | None => None
  | Some latest =>
      score_valuations (columns price_df) latest
        (fdiv discount_rate (Fin 100)) (fdiv terminal_growth (Fin 100))
        projection_years peer_map
  end.

(** The backtest call: [Backtester(price_df).run_strategy(...)], with
    [risk_free] entered in percent. *)
Definition app_backtest (np_sqrt : fl -> fl) (series_std : list fl -> fl)
  (fpow : fl -> fl -> fl) (price_df : DataFrame)
  (valuation_scores : list (ticker * ScoreTuple)) (top_n : Z) (rebal_freq : Freq)
  (risk_free : fl) : Report * Stats :=
  run_strategy np_sqrt series_std fpow (init price_df) valuation_scores top_n
    rebal_freq (fdiv risk_free (Fin 100)).

(** A table in which the quotes of one ticker stop before the last row. *)
Definition stale_raw : DataFrame :=
  mkFrame ["A"; "B"]%string
    [ (mkDate 2020 1 30, [Fin 10; Fin 20]);
      (mkDate 2020 1 31, [Fin 11; NaN]);
      (mkDate 2020 2 3, [Fin 12; NaN]) ].
(** ** Tables of positive quotes *)





(** * Properties *)

Unset Implicit Arguments.

(** ** Order on dates *)

Lemma date_cmp_eq (a b : Date) : date_cmp a b = Eq <-> a = b.
Proof.
  destruct a as [y m d], b as [y' m' d']; unfold date_cmp; simpl.
  destruct (Z.compare_spec y y'); [subst | split; [discriminate | intros [= ]; lia] ..].
  destruct (Z.compare_spec m m'); [subst | split; [discriminate | intros [= ]; lia] ..].
  destruct (Z.compare_spec d d'); [subst | split; [discriminate | intros [= ]; lia] ..].
  split; reflexivity.
Qed.

Lemma date_eqb_eq (a b : Date) : date_eqb a b = true <-> a = b.
Proof.
  unfold date_eqb. rewrite <- date_cmp_eq.
  destruct (date_cmp a b); split; congruence.
Qed.

Lemma date_eqb_refl (a : Date) : date_eqb a a = true.
Proof. apply date_eqb_eq; reflexivity. Qed.

Lemma date_eqb_neq (a b : Date) : date_eqb a b = false <-> a <> b.
Proof.
  rewrite <- date_eqb_eq. destruct (date_eqb a b); split; congruence.
Qed.

(** Dates compare like their (year, month, day) triples, lexicographically. *)
Lemma date_cmp_lt (a b : Date) :
  date_cmp a b = Lt <->
  (year a < year b \/ (year a = year b /\ (month a < month b \/
     (month a = month b /\ day a < day b))))%Z.
Proof.
  unfold date_cmp.
  destruct (Z.compare_spec (year a) (year b));
    destruct (Z.compare_spec (month a) (month b));
    destruct (Z.compare_spec (day a) (day b));
    split; intros; try discriminate; try reflexivity; lia.
Qed.

Lemma date_cmp_gt (a b : Date) : date_cmp a b = Gt <-> date_cmp b a = Lt.
Proof.
  rewrite date_cmp_lt. unfold date_cmp.
  destruct (Z.compare_spec (year a) (year b));
    destruct (Z.compare_spec (month a) (month b));
    destruct (Z.compare_spec (day a) (day b));
    split; intros; try discriminate; try reflexivity; lia.
Qed.

Lemma date_ltb_lt (a b : Date) : date_ltb a b = true <-> date_cmp a b = Lt.
Proof. unfold date_ltb; destruct (date_cmp a b); split; congruence. Qed.

Lemma date_leb_nlt (a b : Date) : date_leb a b = negb (date_ltb b a).
Proof.
  unfold date_leb, date_ltb.
  destruct (date_cmp a b) eqn:E.
  - apply date_cmp_eq in E; subst.
    assert (H : date_cmp b b = Eq) by (apply date_cmp_eq; reflexivity).
    rewrite H; reflexivity.
  - destruct (date_cmp b a) eqn:E'; try reflexivity.
    apply date_cmp_lt in E, E'. lia.
  - apply date_cmp_gt in E. rewrite E; reflexivity.
Qed.

Lemma date_le_refl (a : Date) : date_le a a.
Proof.
  unfold date_le, date_leb.
  assert (H : date_cmp a a = Eq) by (apply date_cmp_eq; reflexivity).
  rewrite H; reflexivity.
Qed.

Lemma date_le_lt_or_eq (a b : Date) : date_le a b <-> date_lt a b \/ a = b.
Proof.
  unfold date_le, date_lt, date_leb, date_ltb.
  destruct (date_cmp a b) eqn:E.
  - apply date_cmp_eq in E. tauto.
  - tauto.
  - split; [discriminate|]. intros [H | H]; [discriminate|].
    apply date_cmp_eq in H. congruence.
Qed.

Lemma date_lt_trans (a b c : Date) : date_lt a b -> date_lt b c -> date_lt a c.
Proof.
  unfold date_lt. rewrite !date_ltb_lt, !date_cmp_lt. lia.
Qed.

Lemma date_lt_irrefl (a : Date) : ~ date_lt a a.
Proof. unfold date_lt. rewrite date_ltb_lt, date_cmp_lt. lia. Qed.

Lemma date_le_trans (a b c : Date) : date_le a b -> date_le b c -> date_le a c.
Proof.
  rewrite !date_le_lt_or_eq.
  intros [H | ->] [H' | ->]; eauto using date_lt_trans.
Qed.

Lemma date_lt_le_trans (a b c : Date) : date_lt a b -> date_le b c -> date_lt a c.
Proof.
  rewrite date_le_lt_or_eq. intros H [H' | <-]; eauto using date_lt_trans.
Qed.

Lemma date_le_lt_trans (a b c : Date) : date_le a b -> date_lt b c -> date_lt a c.
Proof.
  rewrite date_le_lt_or_eq. intros [H | ->] H'; eauto using date_lt_trans.
Qed.

Lemma date_lt_le (a b : Date) : date_lt a b -> date_le a b.
Proof. rewrite date_le_lt_or_eq; tauto. Qed.

Lemma date_le_antisym (a b : Date) : date_le a b -> date_le b a -> a = b.
Proof.
  rewrite !date_le_lt_or_eq. intros [H | H] [H' | H']; auto.
  exfalso. eapply date_lt_irrefl, date_lt_trans; eauto.
Qed.

Lemma date_le_total (a b : Date) : date_le a b \/ date_lt b a.
Proof.
  unfold date_le, date_lt. rewrite date_leb_nlt.
  destruct (date_ltb b a); simpl; auto.
Qed.

Lemma date_leb_false (a b : Date) : date_leb a b = false <-> date_lt b a.
Proof.
  unfold date_lt. rewrite date_leb_nlt.
  destruct (date_ltb b a); simpl; split; congruence.
Qed.

Lemma date_ltb_false (a b : Date) : date_ltb a b = false <-> date_le b a.
Proof.
  unfold date_le. rewrite date_leb_nlt.
  destruct (date_ltb a b); simpl; split; congruence.
Qed.

(** ** Rows and labels *)

Lemma row_at_In (rs : list (Date * list fl)) (d : Date) (r : list fl) :
  row_at rs d = Some r -> In (d, r) rs.
Proof.
  unfold row_at. destruct (find _ rs) as [[d' r']|] eqn:E; [|discriminate].
  simpl. intros [= <-]. apply find_some in E. destruct E as [E1 E2].
  simpl in E2. apply date_eqb_eq in E2. subst. exact E1.
Qed.

Lemma In_row_at (rs : list (Date * list fl)) (d : Date) (r : list fl) :
  NoDup (map fst rs) -> In (d, r) rs -> row_at rs d = Some r.
Proof.
  unfold row_at. induction rs as [|[d0 r0] rs IH]; simpl; [tauto|].
  intros ND [H | H].
  - inversion H; subst. rewrite date_eqb_refl. reflexivity.
  - inversion ND as [|? ? Hn ND']; subst.
    destruct (date_eqb d0 d) eqn:E.
    + apply date_eqb_eq in E. subst. exfalso. apply Hn.
      change d with (fst (d, r)). apply in_map. exact H.
    + apply IH; assumption.
Qed.

Lemma row_at_None (rs : list (Date * list fl)) (d : Date) :
  row_at rs d = None <-> ~ In d (map fst rs).
Proof.
  unfold row_at. induction rs as [|[d0 r0] rs IH]; simpl; [tauto|].
  destruct (date_eqb d0 d) eqn:E; simpl.
  - apply date_eqb_eq in E. split; [discriminate | tauto].
  - apply date_eqb_neq in E. rewrite IH. tauto.
Qed.

Lemma In_index_row (rs : list (Date * list fl)) (d : Date) :
  In d (map fst rs) -> exists r, In (d, r) rs.
Proof.
  rewrite in_map_iff. intros [[d' r] [E H]]. simpl in E. subst. eauto.
Qed.

(** *** [sort_index] sorts and keeps every row *)

Lemma insert_row_perm (r : Date * list fl) (rs : list (Date * list fl)) :
  Permutation (insert_row r rs) (r :: rs).
Proof.
  induction rs as [|r' rs IH]; simpl; [reflexivity|].
  destruct (date_ltb (fst r') (fst r)).
  - rewrite IH. apply perm_swap.
  - reflexivity.
Qed.

Lemma sort_rows_perm (rs : list (Date * list fl)) : Permutation (sort_rows rs) rs.
Proof.
  induction rs as [|r rs IH]; simpl; [reflexivity|].
  rewrite insert_row_perm. apply perm_skip, IH.
Qed.

Lemma insert_row_sorted (r : Date * list fl) (rs : list (Date * list fl)) :
  StronglySorted row_le rs -> StronglySorted row_le (insert_row r rs).
Proof.
  induction 1 as [|r' rs S IH F]; simpl.
  - repeat constructor.
  - destruct (date_ltb (fst r') (fst r)) eqn:E.
    + constructor; [exact IH|].
      eapply Permutation_Forall; [symmetry; apply insert_row_perm|].
      constructor; [|exact F].
      apply date_lt_le. exact E.
    + apply date_ltb_false in E.
      constructor; [constructor; assumption|].
      constructor; [exact E|].
      eapply Forall_impl; [|exact F].
      intros a Ha. unfold row_le in *. eapply date_le_trans; eauto.
Qed.

Lemma sort_rows_sorted (rs : list (Date * list fl)) :
  StronglySorted row_le (sort_rows rs).
Proof.
  induction rs as [|r rs IH]; simpl; [constructor|].
  apply insert_row_sorted, IH.
Qed.

(** *** [ffill] *)

Lemma fill_row_length (prev r : list fl) : length (fill_row prev r) = length r.
Proof.
  revert prev. induction r as [|x r IH]; intros prev; simpl; [reflexivity|].
  rewrite IH. reflexivity.
Qed.

Lemma nth_tl (A : Type) (l : list A) (j : nat) (a : A) : nth j (tl l) a = nth (S j) l a.
Proof. destruct l; simpl; [destruct j|]; reflexivity. Qed.

Lemma fill_row_nth (prev r : list fl) (j : nat) :
  (j < length r)%nat ->
  nth j (fill_row prev r) NaN =
  if isna (nth j r NaN) then nth j prev NaN else nth j r NaN.
Proof.
  revert prev j. induction r as [|x r IH]; intros prev j Hj; simpl in *; [lia|].
  destruct j as [|j].
  - destruct prev; reflexivity.
  - rewrite IH by lia. rewrite nth_tl. reflexivity.
Qed.

Lemma fill_row_notna (prev r : list fl) (j : nat) :
  (length prev <= length r)%nat ->
  notna (nth j (fill_row prev r) NaN) = true <->
  notna (nth j r NaN) = true \/ notna (nth j prev NaN) = true.
Proof.
  intros L. destruct (Nat.lt_ge_cases j (length r)) as [Hj | Hj].
  - rewrite fill_row_nth by exact Hj. unfold notna.
    destruct (isna (nth j r NaN)) eqn:E; simpl; rewrite ?E; simpl; intuition congruence.
  - rewrite !nth_overflow; rewrite ?fill_row_length; try lia.
    simpl. intuition congruence.
Qed.

Lemma ffill_rows_index (prev : list fl) (rs : list (Date * list fl)) :
  map fst (ffill_rows prev rs) = map fst rs.
Proof.
  revert prev. induction rs as [|[d r] rs IH]; intros prev; simpl; [reflexivity|].
  rewrite IH. reflexivity.
Qed.

Lemma ffill_rows_length (n : nat) (prev : list fl) (rs : list (Date * list fl)) :
  Forall (fun r => length (snd r) = n) rs ->
  Forall (fun r => length (snd r) = n) (ffill_rows prev rs).
Proof.
  intros F. revert prev. induction F as [|[d r] rs H F IH]; intros prev; simpl.
  - constructor.
  - constructor; [simpl; rewrite fill_row_length; exact H | apply IH].
Qed.

(** A filled cell holds a value exactly when the ticker was observed on that
    date or an earlier one (or the carried row already had a value). *)
Lemma ffill_rows_notna (n : nat) (rs : list (Date * list fl)) :
  StronglySorted row_le rs ->
  NoDup (map fst rs) ->
  Forall (fun r => length (snd r) = n) rs ->
  forall (prev : list fl) (d : Date) (r : list fl) (j : nat),
    (length prev <= n)%nat ->
    In (d, r) (ffill_rows prev rs) ->
    (notna (nth j r NaN) = true <->
     notna (nth j prev NaN) = true \/
     exists d' r', In (d', r') rs /\ date_le d' d /\ notna (nth j r' NaN) = true).
Proof.
  induction 1 as [|[d0 r0] rs S IH F0]; intros ND F prev d r j L HIn.
  - destruct HIn.
  - simpl in ND. apply NoDup_cons_iff in ND. destruct ND as [Hn ND'].
    pose proof (Forall_inv F) as Hl. pose proof (Forall_inv_tail F) as F'.
    simpl in Hl.
    simpl in HIn. destruct HIn as [HIn | HIn].
    + inversion HIn; subst. rewrite fill_row_notna by lia.
      split.
      * intros [H | H]; [right | left; exact H].
        exists d, r0. split; [left; reflexivity|]. split; [apply date_le_refl | exact H].
      * intros [H | (d' & r' & [H1 | H1] & H2 & H3)]; [right; exact H | |].
        -- inversion H1; subst. left; exact H3.
        -- exfalso. apply Hn.
           rewrite Forall_forall in F0. specialize (F0 _ H1). unfold row_le in F0. simpl in F0.
           assert (d' = d) by (apply date_le_antisym; assumption). subst.
           change d with (fst (d, r')). apply in_map; exact H1.
    + assert (Hd : date_le d0 d).
      { assert (Hd : In d (map fst rs)).
        { rewrite <- (ffill_rows_index (fill_row prev r0)).
          change d with (fst (d, r)). apply in_map; exact HIn. }
        apply In_index_row in Hd. destruct Hd as [r1 Hr1].
        rewrite Forall_forall in F0. exact (F0 _ Hr1). }
      rewrite (IH ND' F' (fill_row prev r0) d r j) by (rewrite ?fill_row_length; auto; lia).
      rewrite fill_row_notna by lia.
      split.
      * intros [[H | H] | (d' & r' & H1 & H2 & H3)].
        -- right. exists d0, r0. split; [left; reflexivity|]. split; assumption.
        -- left; exact H.
        -- right. exists d', r'. split; [right; exact H1|]. split; assumption.
      * intros [H | (d' & r' & [H1 | H1] & H2 & H3)].
        -- left; right; exact H.
        -- inversion H1; subst. left; left; exact H3.
        -- right. exists d', r'. split; [exact H1|]. split; assumption.
Qed.

(** *** Column labels and positions *)

Lemma index_of_nth_error (t : ticker) (cols : list ticker) (j : nat) :
  index_of t cols = Some j -> nth_error cols j = Some t.
Proof.
  revert j. induction cols as [|c cols IH]; intros j; simpl; [discriminate|].
  destruct (String.eqb_spec c t) as [-> | N].
  - intros [= <-]. reflexivity.
  - destruct (index_of t cols) as [k|]; simpl; [|discriminate].
    intros [= <-]. simpl. apply IH. reflexivity.
Qed.

Lemma index_of_In (t : ticker) (cols : list ticker) :
  In t cols <-> exists j, index_of t cols = Some j.
Proof.
  split.
  - induction cols as [|c cols IH]; simpl; [tauto|].
    destruct (String.eqb_spec c t) as [-> | N]; [eauto|].
    intros [H | H]; [congruence|].
    destruct (IH H) as [j Hj]. rewrite Hj. simpl. eauto.
  - intros [j Hj]. eapply nth_error_In, index_of_nth_error, Hj.
Qed.

Lemma index_of_lt (t : ticker) (cols : list ticker) (j : nat) :
  index_of t cols = Some j -> (j < length cols)%nat.
Proof.
  intros H. apply index_of_nth_error in H.
  apply nth_error_Some. congruence.
Qed.

Lemma nth_error_index_of (t : ticker) (cols : list ticker) (j : nat) :
  NoDup cols -> nth_error cols j = Some t -> index_of t cols = Some j.
Proof.
  intros ND. revert j. induction ND as [|c cols Hn ND IH]; intros j.
  - destruct j; discriminate.
  - destruct j as [|j]; simpl.
    + intros [= ->]. rewrite String.eqb_refl. reflexivity.
    + intros H. destruct (String.eqb_spec c t) as [-> | N].
      * exfalso. apply Hn. eapply nth_error_In, H.
      * rewrite (IH _ H). reflexivity.
Qed.

(** *** [dropna(axis=1, how='all')] *)

Lemma select_nth_error (A : Type) (m : list bool) (row : list A) (j : nat) :
  nth j m false = true ->
  nth_error (select m row) (kept_before m j) = nth_error row j.
Proof.
  unfold kept_before. revert row j.
  induction m as [|b m IH]; intros row j H.
  - destruct j; discriminate.
  - destruct row as [|x row].
    + simpl. destruct j, (length _); reflexivity.
    + destruct j as [|j]; simpl in *.
      * subst. reflexivity.
      * destruct b; simpl; apply IH; exact H.
Qed.

Lemma select_index_of (m : list bool) (cols : list ticker) (t : ticker) (j : nat) :
  index_of t cols = Some j ->
  nth j m false = true ->
  index_of t (select m cols) = Some (kept_before m j).
Proof.
  unfold kept_before. revert m j.
  induction cols as [|c cols IH]; intros m j; simpl; [discriminate|].
  destruct m as [|b m]; [destruct j; discriminate|].
  destruct (String.eqb_spec c t) as [-> | N].
  - intros [= <-] H. simpl in H. subst. simpl. rewrite String.eqb_refl. reflexivity.
  - destruct (index_of t cols) as [k|] eqn:E; simpl; [|discriminate].
    intros [= <-] H. simpl in H.
    destruct b; simpl.
    + destruct (String.eqb_spec c t); [contradiction|].
      rewrite (IH m k eq_refl H). reflexivity.
    + apply IH; auto.
Qed.

Lemma select_In (A : Type) (m : list bool) (l : list A) (x : A) :
  In x (select m l) <-> exists j, nth_error l j = Some x /\ nth j m false = true.
Proof.
  revert l. induction m as [|b m IH]; intros l.
  - simpl. split; [tauto|]. intros [j [_ H]]. destruct j; discriminate.
  - destruct l as [|y l]; simpl.
    + split; [tauto|]. intros [j [H _]]. destruct j; discriminate.
    + destruct b; simpl; rewrite IH; split.
      * intros [<- | [j H]]; [exists O; auto | exists (S j); exact H].
      * intros [[|j] [H1 H2]]; [left; simpl in H1; congruence | right; eauto].
      * intros [j H]. exists (S j); exact H.
      * intros [[|j] [H1 H2]]; [discriminate | eauto].
Qed.

Lemma keep_mask_nth (df : DataFrame) (j : nat) :
  nth j (keep_mask df) false = true <->
  (j < length (columns df))%nat /\ col_has_value (rows df) j = true.
Proof.
  unfold keep_mask.
  destruct (Nat.lt_ge_cases j (length (columns df))) as [Hj | Hj].
  - rewrite (nth_indep _ false (col_has_value (rows df) O))
      by (rewrite length_map, length_seq; exact Hj).
    rewrite map_nth, seq_nth by exact Hj. simpl. tauto.
  - rewrite nth_overflow by (rewrite length_map, length_seq; exact Hj).
    split; [discriminate | lia].
Qed.

Lemma col_has_value_iff (rs : list (Date * list fl)) (j : nat) :
  col_has_value rs j = true <->
  exists d r, In (d, r) rs /\ notna (nth j r NaN) = true.
Proof.
  unfold col_has_value. rewrite existsb_exists. split.
  - intros [[d r] [H1 H2]]. eauto.
  - intros (d & r & H1 & H2). exists (d, r). auto.
Qed.

Lemma dropna_cols_row_at (df : DataFrame) (d : Date) :
  row_at (rows (dropna_cols df)) d =
  option_map (select (keep_mask df)) (row_at (rows df) d).
Proof.
  unfold dropna_cols, row_at. simpl.
  induction (rows df) as [|[d0 r0] rs IH]; simpl; [reflexivity|].
  destruct (date_eqb d0 d); simpl; [reflexivity | exact IH].
Qed.

Lemma nth_error_notna (r : list fl) (j : nat) :
  notna (nth j r NaN) = true -> nth_error r j = Some (nth j r NaN).
Proof.
  intros H. destruct (nth_error r j) as [v|] eqn:E.
  - rewrite (nth_error_nth _ _ _ E). reflexivity.
  - rewrite (nth_error_None r j) in E. rewrite nth_overflow in H by exact E. discriminate.
Qed.

Lemma cell_dropna (df : DataFrame) (t : ticker) (j : nat) (d : Date) (r : list fl) :
  index_of t (columns df) = Some j ->
  nth j (keep_mask df) false = true ->
  row_at (rows df) d = Some r ->
  cell (dropna_cols df) d t = nth_error r j.
Proof.
  intros Hj Hm Hr. unfold cell.
  rewrite dropna_cols_row_at, Hr. simpl.
  rewrite (select_index_of _ _ _ _ Hj Hm).
  apply select_nth_error, Hm.
Qed.

Lemma sorted_nodup_strict (rs : list (Date * list fl)) :
  StronglySorted row_le rs -> NoDup (map fst rs) ->
  StronglySorted date_lt (map fst rs).
Proof.
  induction 1 as [|r rs S IH F]; simpl; intros ND; [constructor|].
  apply NoDup_cons_iff in ND. destruct ND as [Hn ND].
  constructor; [apply IH, ND|].
  rewrite Forall_forall in *. intros d Hd.
  destruct (In_index_row _ _ Hd) as [r' Hr'].
  specialize (F _ Hr'). unfold row_le in F. simpl in F.
  apply date_le_lt_or_eq in F. destruct F as [F | F]; [exact F|].
  congruence.
Qed.

(** ** The price table built by [__init__] *)

Section PriceTable.
Variable raw : DataFrame.
Hypothesis WF : well_formed raw.

Let n := length (columns raw).
Let S := sort_rows (rows raw).
Let F := ffill_rows [] S.
Let filled := ffill (sort_index raw).
Let table := prices (init raw).

Lemma sorted_rows_In (x : Date * list fl) : In x S <-> In x (rows raw).
Proof.
  split; apply Permutation_in; [|symmetry]; apply sort_rows_perm.
Qed.

Lemma sorted_rows_nodup : NoDup (map fst S).
Proof.
  eapply Permutation_NoDup; [|exact (proj1 WF)].
  symmetry. apply Permutation_map, sort_rows_perm.
Qed.

Lemma sorted_rows_length : Forall (fun r => length (snd r) = n) S.
Proof.
  eapply Permutation_Forall; [symmetry; apply sort_rows_perm|].
  exact (proj2 (proj2 WF)).
Qed.

Lemma filled_rows_nodup : NoDup (map fst F).
Proof. unfold F. rewrite ffill_rows_index. apply sorted_rows_nodup. Qed.

Lemma filled_index_In (d : Date) : In d (map fst F) <-> In d (index raw).
Proof.
  unfold F. rewrite ffill_rows_index. unfold index.
  split; apply Permutation_in; [|symmetry]; apply Permutation_map, sort_rows_perm.
Qed.

Lemma table_index : index table = map fst F.
Proof.
  unfold table, init, index, dropna_cols; simpl.
  rewrite map_map. reflexivity.
Qed.

Lemma table_sorted : StronglySorted date_lt (index table).
Proof.
  rewrite table_index. unfold F. rewrite ffill_rows_index.
  apply sorted_nodup_strict; [apply sort_rows_sorted | apply sorted_rows_nodup].
Qed.

(** A cell of the filled rows holds a value exactly when the raw column
    has one on that date or before. *)
Lemma filled_notna (d : Date) (r : list fl) (j : nat) :
  In (d, r) F ->
  (notna (nth j r NaN) = true <->
   exists d' r', In (d', r') (rows raw) /\ date_le d' d /\
                 notna (nth j r' NaN) = true).
Proof.
  intros HIn.
  rewrite (ffill_rows_notna n S (sort_rows_sorted (rows raw)) sorted_rows_nodup
             sorted_rows_length [] d r j (Nat.le_0_l n) HIn).
  split.
  - intros [H | (d' & r' & H1 & H2)]; [destruct j; discriminate|].
    exists d', r'. split; [apply sorted_rows_In; exact H1 | exact H2].
  - intros (d' & r' & H1 & H2). right.
    exists d', r'. split; [apply sorted_rows_In; exact H1 | exact H2].
Qed.

Lemma filled_row_length (d : Date) (r : list fl) : In (d, r) F -> length r = n.
Proof.
  intros H. pose proof (ffill_rows_length n [] S sorted_rows_length) as L.
  rewrite Forall_forall in L. exact (L _ H).
Qed.

Lemma raw_cell (d : Date) (t : ticker) (v : fl) :
  cell raw d t = Some v <->
  exists r j, In (d, r) (rows raw) /\ index_of t (columns raw) = Some j /\
              nth_error r j = Some v.
Proof.
  unfold cell. split.
  - destruct (row_at (rows raw) d) as [r|] eqn:E; [|discriminate].
    destruct (index_of t (columns raw)) as [j|] eqn:E'; [|discriminate].
    intros H. exists r, j. split; [apply row_at_In; exact E | auto].
  - intros (r & j & H1 & H2 & H3).
    rewrite (In_row_at _ _ _ (proj1 WF) H1), H2. exact H3.
Qed.

Lemma table_cell (d : Date) (r : list fl) (t : ticker) (j : nat) :
  In (d, r) F ->
  index_of t (columns raw) = Some j ->
  nth j (keep_mask filled) false = true ->
  cell table d t = Some (nth j r NaN).
Proof.
  intros HIn Hj Hm. unfold table, init; simpl.
  rewrite (cell_dropna (ffill (sort_index raw)) t j d r Hj Hm)
    by (apply In_row_at; [apply filled_rows_nodup | exact HIn]).
  apply nth_error_nth'. rewrite (filled_row_length _ _ HIn).
  eapply index_of_lt, Hj.
Qed.

Lemma observed_filled (t : ticker) (d d' : Date) (v : fl) :
  In d (index raw) -> date_le d' d ->
  cell raw d' t = Some v -> notna v = true ->
  exists w, cell table d t = Some w /\ notna w = true.
Proof.
  intros Hd Hle Hc Hv.
  apply raw_cell in Hc. destruct Hc as (r' & j & H1 & H2 & H3).
  apply filled_index_In, In_index_row in Hd. destruct Hd as [r Hr].
  assert (Hn : notna (nth j r NaN) = true).
  { apply (filled_notna _ _ j Hr). exists d', r'.
    rewrite (nth_error_nth _ _ _ H3). auto. }
  exists (nth j r NaN). split; [|exact Hn].
  apply table_cell; auto.
  apply keep_mask_nth. split; [eapply index_of_lt, H2|].
  apply col_has_value_iff. exists d, r. auto.
Qed.

Lemma table_columns (t : ticker) :
  In t (columns table) <->
  exists j, index_of t (columns raw) = Some j /\
            nth j (keep_mask filled) false = true.
Proof.
  unfold table, init; simpl. rewrite select_In. split.
  - intros [j [H1 H2]]. exists j. split; [|exact H2].
    apply nth_error_index_of; [exact (proj1 (proj2 WF)) | exact H1].
  - intros [j [H1 H2]]. exists j. split; [|exact H2].
    apply index_of_nth_error, H1.
Qed.

Lemma leading_nan_kept (t : ticker) (d : Date) :
  In t (columns table) -> In d (index raw) ->
  (forall d' v, date_le d' d -> cell raw d' t = Some v -> isna v = true) ->
  cell table d t = Some NaN.
Proof.
  intros Ht Hd Hall.
  apply table_columns in Ht. destruct Ht as (j & Hj & Hm).
  apply filled_index_In, In_index_row in Hd. destruct Hd as [r Hr].
  rewrite (table_cell _ _ _ _ Hr Hj Hm).
  destruct (notna (nth j r NaN)) eqn:E.
  - apply (filled_notna _ _ j Hr) in E. destruct E as (d' & r' & H1 & H2 & H3).
    assert (Hc : cell raw d' t = Some (nth j r' NaN)).
    { apply raw_cell. exists r', j. auto using nth_error_notna. }
    specialize (Hall _ _ H2 Hc). unfold notna in H3. rewrite Hall in H3. discriminate.
  - destruct (nth j r NaN); try discriminate. reflexivity.
Qed.

Lemma empty_columns_dropped (t : ticker) :
  In t (columns table) <->
  In t (columns raw) /\
  exists d v, cell filled d t = Some v /\ notna v = true.
Proof.
  rewrite table_columns. split.
  - intros (j & Hj & Hm). split; [apply index_of_In; eauto|].
    apply keep_mask_nth in Hm. destruct Hm as [_ Hm].
    apply col_has_value_iff in Hm. destruct Hm as (d & r & H1 & H2).
    exists d, (nth j r NaN). split; [|exact H2].
    unfold cell. simpl.
    change (ffill_rows [] (sort_rows (rows raw))) with F.
    rewrite (In_row_at _ _ _ filled_rows_nodup H1), Hj.
    apply nth_error_notna, H2.
  - intros [Ht (d & v & Hc & Hv)]. unfold cell in Hc. simpl in Hc.
    destruct (row_at (ffill_rows [] (sort_rows (rows raw))) d) as [r|] eqn:E;
      [|discriminate].
    destruct (index_of t (columns raw)) as [j|] eqn:E'; [|discriminate].
    exists j. split; [reflexivity|].
    apply keep_mask_nth. split; [eapply index_of_lt, E'|].
    apply col_has_value_iff. exists d, r. split; [apply row_at_In, E|].
    rewrite (nth_error_nth _ _ _ Hc). exact Hv.
Qed.
End PriceTable.

Ltac nodup_dates :=
  repeat (constructor; [simpl; intuition discriminate|]); constructor.

Lemma sample_raw_well_formed : well_formed sample_raw.
Proof.
  unfold well_formed, sample_raw, index; simpl.
  split; [nodup_dates|]. split; [nodup_dates|].
  repeat constructor.
Defined.

(** C6. After construction (sort by date, forward fill per ticker, drop the
    all-NaN columns) the index is strictly ascending; a ticker observed on
    some date at or before [d] has a non-null entry on [d]; a kept ticker
    never observed up to [d] is still NaN on [d]; and the kept columns are
    exactly the raw columns that hold a value somewhere after the fill. *)
Theorem forward_fill_invariant (raw : DataFrame) :
  well_formed raw ->
  let filled := ffill (sort_index raw) in
  let table := prices (init raw) in
  StronglySorted date_lt (index table) /\
  (forall t d d' v,
      In d (index raw) -> date_le d' d ->
      cell raw d' t = Some v -> notna v = true ->
      exists w, cell table d t = Some w /\ notna w = true) /\
  (forall t d,
      In t (columns table) -> In d (index raw) ->
      (forall d' v, date_le d' d -> cell raw d' t = Some v -> isna v = true) ->
      cell table d t = Some NaN) /\
  (forall t,
      In t (columns table) <->
      In t (columns raw) /\
      exists d v, cell filled d t = Some v /\ notna v = true).
Proof.
  intros WF filled table. split; [|split; [|split]].
  - apply table_sorted, WF.
  - intros t d d' v. apply observed_filled, WF.
  - intros t d. apply leading_nan_kept, WF.
  - intros t. apply (empty_columns_dropped raw WF t).
Qed.

Lemma forward_fill_invariant_witness :
  let table := prices (init sample_raw) in
  StronglySorted date_lt (index table) /\
  (forall t d d' v,
      In d (index sample_raw) -> date_le d' d ->
      cell sample_raw d' t = Some v -> notna v = true ->
      exists w, cell table d t = Some w /\ notna w = true) /\
  (forall t d,
      In t (columns table) -> In d (index sample_raw) ->
      (forall d' v, date_le d' d -> cell sample_raw d' t = Some v -> isna v = true) ->
      cell table d t = Some NaN) /\
  (forall t,
      In t (columns table) <->
      In t (columns sample_raw) /\
      exists d v, cell (ffill (sort_index sample_raw)) d t = Some v /\ notna v = true).
Proof.
  exact (forward_fill_invariant sample_raw sample_raw_well_formed).
Defined.

Example sample_table :
  prices (init sample_raw) =
  mkFrame ["A"; "B"]%string
    [ (mkDate 2020 1 2, [Fin 5; NaN]);
      (mkDate 2020 1 3, [Fin 5; Fin 2]);
      (mkDate 2020 1 6, [Fin 5; Fin 2]) ].
Proof. reflexivity. Qed.

(** ** The index of the price table is in date order *)

Lemma sorted_rows_dates (rs : list (Date * list fl)) :
  StronglySorted row_le rs -> StronglySorted date_le (map fst rs).
Proof.
  induction 1 as [|r rs S IH F]; simpl; constructor; [exact IH|].
  rewrite Forall_map. exact F.
Qed.

Lemma init_index (raw : DataFrame) :
  index (prices (init raw)) = map fst (sort_rows (rows raw)).
Proof.
  unfold init, index, dropna_cols; simpl.
  rewrite map_map; simpl. apply ffill_rows_index.
Qed.

Lemma init_index_sorted (raw : DataFrame) :
  StronglySorted date_le (index (prices (init raw))).
Proof.
  rewrite init_index. apply sorted_rows_dates, sort_rows_sorted.
Qed.

Lemma sorted_nth_le (l : list Date) :
  StronglySorted date_le l ->
  forall a b x y, (a <= b)%nat ->
    nth_error l a = Some x -> nth_error l b = Some y -> date_le x y.
Proof.
  induction 1 as [|z l S IH F]; intros a b x y Hab Ha Hb.
  - destruct a; discriminate.
  - destruct a as [|a], b as [|b]; simpl in *; try lia.
    + injection Ha as <-. injection Hb as <-. apply date_le_refl.
    + injection Ha as <-. rewrite Forall_forall in F.
      apply F. eapply nth_error_In, Hb.
    + eapply IH; [|eassumption..]. lia.
Qed.

(** ** Resolving a candidate boundary: [get_indexer(..., method="pad")] *)

Lemma pad_from_spec (idx : list Date) (d : Date) :
  forall i best,
    (pad_from i best idx d = best /\ forall x, In x idx -> date_lt d x) \/
    (exists k e,
        pad_from i best idx d = (i + Z.of_nat k)%Z /\
        nth_error idx k = Some e /\ date_le e d /\
        forall k' x, (k < k')%nat -> nth_error idx k' = Some x -> date_lt d x).
Proof.
  induction idx as [|x idx IH]; intros i best; simpl.
  - left. split; [reflexivity | tauto].
  - destruct (IH (i + 1)%Z (if date_leb x d then i else best))
      as [[E H] | (k & e & E & H1 & H2 & H3)].
    + destruct (date_leb x d) eqn:Hx.
      * right. exists O, x. rewrite E. simpl.
        split; [lia|]. split; [reflexivity|]. split; [exact Hx|].
        intros [|k'] y Hk Hy; [lia|]. simpl in Hy.
        apply H. eapply nth_error_In, Hy.
      * left. split; [exact E|]. intros y [<- | Hy]; [|auto].
        apply date_leb_false, Hx.
    + right. exists (Datatypes.S k), e. rewrite E. simpl.
      split; [lia|]. split; [exact H1|]. split; [exact H2|].
      intros [|k'] y Hk Hy; [lia|]. simpl in Hy.
      eapply H3; [|exact Hy]. lia.
Qed.

Lemma existsb_date_In (d : Date) (idx : list Date) :
  existsb (date_eqb d) idx = true <-> In d idx.
Proof.
  rewrite existsb_exists. split.
  - intros [x [H1 H2]]. apply date_eqb_eq in H2. subst. exact H1.
  - intros H. exists d. split; [exact H | apply date_eqb_refl].
Qed.

Lemma effective_date_in_index (idx : list Date) (d : Date) :
  In d idx -> effective_date idx d = Some d.
Proof.
  intros H. unfold effective_date.
  apply existsb_date_In in H. rewrite H. reflexivity.
Qed.

Lemma effective_date_resolved (idx : list Date) (d : Date) :
  StronglySorted date_le idx -> resolved idx d (effective_date idx d).
Proof.
  intros S. unfold effective_date.
  destruct (existsb (date_eqb d) idx) eqn:E.
  - apply existsb_date_In in E. simpl.
    split; [exact E|]. split; [apply date_le_refl | auto].
  - unfold pad_indexer.
    destruct (pad_from_spec idx d 0 (-1)) as [[R H] | (k & e & R & H1 & H2 & H3)];
      rewrite R.
    + simpl. exact H.
    + replace ((0 + Z.of_nat k =? -1)%Z) with false by (symmetry; apply Z.eqb_neq; lia).
      rewrite Z.add_0_l, Nat2Z.id, H1. simpl.
      split; [eapply nth_error_In, H1|]. split; [exact H2|].
      intros x Hx Hle. apply In_nth_error in Hx. destruct Hx as [k' Hk'].
      destruct (Nat.le_gt_cases k' k) as [L | L].
      * eapply sorted_nth_le; eauto.
      * exfalso. eapply date_lt_irrefl, date_lt_le_trans; [eapply H3; eauto | exact Hle].
Qed.

Lemma effective_date_In (idx : list Date) (d e : Date) :
  effective_date idx d = Some e -> In e idx.
Proof.
  unfold effective_date.
  destruct (existsb (date_eqb d) idx) eqn:E.
  - intros [= <-]. apply existsb_date_In, E.
  - destruct (pad_indexer idx d =? -1)%Z; [discriminate|].
    apply nth_error_In.
Qed.

(** ** Dictionaries *)

Section DictFacts.
Variables (K V : Type) (keqb : K -> K -> bool).
Hypothesis keqb_eq : forall a b, keqb a b = true <-> a = b.

Lemma keqb_refl (a : K) : keqb a a = true.
Proof. apply keqb_eq; reflexivity. Qed.

Lemma keqb_neq (a b : K) : a <> b -> keqb a b = false.
Proof.
  intros N. destruct (keqb a b) eqn:E; [|reflexivity].
  apply keqb_eq in E. contradiction.
Qed.

Lemma dict_get_set (m : list (K * V)) (k k' : K) (v : V) :
  dict_get keqb (dict_set keqb m k v) k' =
  if keqb k k' then Some v else dict_get keqb m k'.
Proof.
  induction m as [|[k0 v0] m IH]; simpl.
  - reflexivity.
  - destruct (keqb k0 k) eqn:E; simpl.
    + apply keqb_eq in E. subst k0. destruct (keqb k k'); reflexivity.
    + destruct (keqb k0 k') eqn:E'; [|exact IH].
      apply keqb_eq in E'. subst k0.
      rewrite keqb_neq; [reflexivity|].
      intros ->. rewrite keqb_refl in E. discriminate.
Qed.

Lemma dict_keys_set (m : list (K * V)) (k : K) (v : V) (x : K) :
  In x (dict_keys (dict_set keqb m k v)) <-> x = k \/ In x (dict_keys m).
Proof.
  unfold dict_keys. induction m as [|[k0 v0] m IH]; simpl.
  - intuition.
  - destruct (keqb k0 k) eqn:E; simpl.
    + apply keqb_eq in E. subst. intuition.
    + rewrite IH. intuition.
Qed.

Lemma dict_set_nodup (m : list (K * V)) (k : K) (v : V) :
  NoDup (dict_keys m) -> NoDup (dict_keys (dict_set keqb m k v)).
Proof.
  unfold dict_keys. induction m as [|[k0 v0] m IH]; simpl; intros ND.
  - repeat constructor. simpl; tauto.
  - apply NoDup_cons_iff in ND. destruct ND as [Hn ND].
    destruct (keqb k0 k) eqn:E; simpl.
    + constructor; assumption.
    + constructor; [|apply IH, ND].
      intros H. apply (dict_keys_set m k v k0) in H. destruct H as [-> | H].
      * rewrite keqb_refl in E. discriminate.
      * contradiction.
Qed.

Lemma dict_get_keys (m : list (K * V)) (k : K) :
  In k (dict_keys m) <-> exists v, dict_get keqb m k = Some v.
Proof.
  unfold dict_keys. induction m as [|[k0 v0] m IH]; simpl.
  - split; [tauto | intros [v H]; discriminate].
  - destruct (keqb k0 k) eqn:E.
    + apply keqb_eq in E. subst. split; eauto.
    + rewrite IH. split; [|intros H; right; exact H].
      intros [-> | H]; [|exact H].
      rewrite keqb_refl in E. discriminate.
Qed.
End DictFacts.

(** ** The map of rebalance dates *)

Section HoldingsMap.
Variables (price : DataFrame) (scores : list (ticker * fl)) (top_n : Z).

Let idx := index price.
Let step := rebalance_step price scores top_n.
Let pick := selection price scores top_n.

Lemma rebalance_step_get (m : list (Date * list ticker)) (c e : Date) :
  dict_get date_eqb (step m c) e =
  if resolves_to idx e c then Some (pick e) else dict_get date_eqb m e.
Proof.
  unfold step, rebalance_step, resolves_to. fold idx.
  destruct (effective_date idx c) as [x|]; [|reflexivity].
  rewrite (dict_get_set _ _ _ date_eqb_eq).
  destruct (date_eqb x e) eqn:E; [|reflexivity].
  apply date_eqb_eq in E. subst. reflexivity.
Qed.

Lemma holdings_map_get (cands : list Date) (m : list (Date * list ticker)) (e : Date) :
  dict_get date_eqb (fold_left step cands m) e =
  if existsb (resolves_to idx e) cands then Some (pick e)
  else dict_get date_eqb m e.
Proof.
  revert m. induction cands as [|c cands IH]; intros m; simpl; [reflexivity|].
  rewrite IH, rebalance_step_get.
  destruct (resolves_to idx e c), (existsb (resolves_to idx e) cands); reflexivity.
Qed.

Lemma rebalance_step_nodup (m : list (Date * list ticker)) (c : Date) :
  NoDup (dict_keys m) -> NoDup (dict_keys (step m c)).
Proof.
  unfold step, rebalance_step. destruct (effective_date (index price) c); [|auto].
  apply (dict_set_nodup _ _ _ date_eqb_eq).
Qed.

Lemma holdings_map_nodup (cands : list Date) (m : list (Date * list ticker)) :
  NoDup (dict_keys m) -> NoDup (dict_keys (fold_left step cands m)).
Proof.
  revert m. induction cands as [|c cands IH]; intros m ND; simpl; [exact ND|].
  apply IH, rebalance_step_nodup, ND.
Qed.

Lemma holdings_map_keys (cands : list Date) (e : Date) :
  In e (dict_keys (build_holdings_map price scores top_n cands)) <->
  exists c, In c cands /\ effective_date idx c = Some e.
Proof.
  unfold build_holdings_map. fold step.
  rewrite (dict_get_keys _ _ _ date_eqb_eq), holdings_map_get. simpl.
  destruct (existsb (resolves_to idx e) cands) eqn:E.
  - apply existsb_exists in E. destruct E as [c [H1 H2]].
    unfold resolves_to in H2.
    destruct (effective_date idx c) as [x|] eqn:Ex; [|discriminate].
    apply date_eqb_eq in H2. subst. split; eauto.
  - split; [intros [v H]; discriminate|].
    intros [c [H1 H2]]. exfalso.
    assert (H : existsb (resolves_to idx e) cands = true).
    { apply existsb_exists. exists c. split; [exact H1|].
      unfold resolves_to. rewrite H2. apply date_eqb_refl. }
    congruence.
Qed.

Lemma holdings_map_value (cands : list Date) (e : Date) :
  In e (dict_keys (build_holdings_map price scores top_n cands)) ->
  dict_get date_eqb (build_holdings_map price scores top_n cands) e = Some (pick e).
Proof.
  intros H. apply (dict_get_keys _ _ _ date_eqb_eq) in H. destruct H as [v H].
  unfold build_holdings_map in *. fold step in H |- *.
  rewrite holdings_map_get in *. simpl in H.
  destruct (existsb (resolves_to idx e) cands); [reflexivity | discriminate].
Qed.
End HoldingsMap.

(** C5. Every candidate boundary is resolved against the index to the
    latest trading day at or before it, never to a later one; the keys of
    the holdings map are exactly the dates the candidates resolve to, they
    are labels of the index and pairwise distinct; a candidate that has no
    trading day at or before it leaves the map unchanged. *)
Theorem rebalance_dates_resolved (raw : DataFrame)
  (valuation_scores : list (ticker * ScoreTuple)) (top_n : Z) (f : Freq) :
  let price := prices (init raw) in
  let idx := index price in
  let hm := holdings_map_of price valuation_scores top_n f in
  (forall d, resolved idx d (effective_date idx d)) /\
  (forall e, In e (dict_keys hm) <->
             exists c, In c (resample_index f idx) /\ effective_date idx c = Some e) /\
  (forall e, In e (dict_keys hm) -> In e idx) /\
  NoDup (dict_keys hm) /\
  (forall scores m d, effective_date idx d = None ->
                      rebalance_step price scores top_n m d = m).
Proof.
  intros price idx hm. split; [|split; [|split; [|split]]].
  - intros d. apply effective_date_resolved, init_index_sorted.
  - intros e. apply holdings_map_keys.
  - intros e H. apply holdings_map_keys in H. destruct H as [c [_ H]].
    eapply effective_date_In, H.
  - apply holdings_map_nodup. constructor.
  - intros scores m d H. unfold rebalance_step. fold idx. rewrite H. reflexivity.
Qed.

Example sample_effective_dates :
  let idx := index (prices (init sample_raw)) in
  resample_index Monthly idx = [mkDate 2020 1 31] /\
  effective_date idx (mkDate 2020 1 31) = Some (mkDate 2020 1 6) /\
  effective_date idx (mkDate 2019 12 31) = None.
Proof. repeat split. Qed.

(** ** Candidate boundaries *)

Lemma months_per_cases (f : Freq) : (months_per f = 1 \/ months_per f = 3)%Z.
Proof. destruct f; simpl; auto. Qed.

Lemma days_in_month_bounds (y m : Z) : (28 <= days_in_month y m <= 31)%Z.
Proof.
  unfold days_in_month.
  destruct (m =? 2)%Z; [destruct (is_leap y); lia|].
  destruct ((m =? 4) || (m =? 6) || (m =? 9) || (m =? 11))%Z; lia.
Qed.

Lemma period_end_month_number (f : Freq) (p : Z) :
  month_number (period_end f p) = (p * months_per f + (months_per f - 1))%Z.
Proof.
  unfold month_number, period_end; simpl.
  set (mi := (p * months_per f + (months_per f - 1))%Z).
  pose proof (Z.div_mod mi 12). lia.
Qed.

Lemma period_of_period_end (f : Freq) (p : Z) : period_of f (period_end f p) = p.
Proof.
  unfold period_of. rewrite period_end_month_number.
  destruct (months_per_cases f) as [-> | ->].
  - rewrite Z.div_1_r. lia.
  - symmetry. apply (Z.div_unique _ 3 p 2); lia.
Qed.

Lemma period_end_valid (f : Freq) (p : Z) : valid_date (period_end f p).
Proof.
  unfold valid_date, period_end; simpl.
  set (mi := (p * months_per f + (months_per f - 1))%Z).
  pose proof (Z.mod_pos_bound mi 12).
  pose proof (days_in_month_bounds (mi / 12) (mi mod 12 + 1)). lia.
Qed.

Lemma date_le_lex (a b : Date) :
  date_le a b <->
  (year a < year b \/ (year a = year b /\ (month a < month b \/
     (month a = month b /\ day a <= day b))))%Z.
Proof.
  rewrite date_le_lt_or_eq. unfold date_lt. rewrite date_ltb_lt, date_cmp_lt.
  split.
  - intros [H | ->]; lia.
  - destruct a as [y m d], b as [y' m' d']; simpl. intros H.
    destruct (Z.eq_dec d d') as [-> | N].
    + destruct H as [H | [-> [H | [-> _]]]]; auto.
    + left. lia.
Qed.

Lemma period_end_is_last_day (f : Freq) (p : Z) (x : Date) :
  valid_date x -> period_of f x = p -> date_le x (period_end f p).
Proof.
  intros [Hm Hd] Hp. apply date_le_lex.
  unfold period_of, month_number in Hp. unfold period_end; simpl.
  set (mi := (p * months_per f + (months_per f - 1))%Z).
  assert (Hle : (year x * 12 + (month x - 1) <= mi)%Z).
  { unfold mi. destruct (months_per_cases f) as [E | E]; rewrite E in *.
    - rewrite Z.div_1_r in Hp. lia.
    - pose proof (Z.div_mod (year x * 12 + (month x - 1)) 3).
      pose proof (Z.mod_pos_bound (year x * 12 + (month x - 1)) 3). lia. }
  pose proof (Z.div_mod mi 12). pose proof (Z.mod_pos_bound mi 12).
  destruct (Z.eq_dec (year x * 12 + (month x - 1)) mi) as [E | N].
  - assert (year x = mi / 12)%Z by lia.
    assert (month x = mi mod 12 + 1)%Z by lia.
    right. split; [assumption|]. right. split; [assumption|].
    replace (mi / 12)%Z with (year x) by assumption.
    replace (mi mod 12 + 1)%Z with (month x) by assumption. lia.
  - destruct (Z.eq_dec (year x) (mi / 12)) as [E | N']; [right | left]; lia.
Qed.

Lemma resample_index_In (f : Freq) (idx : list Date) (c : Date) :
  In c (resample_index f idx) <->
  exists d0, hd_error idx = Some d0 /\
    exists p, c = period_end f p /\
              (period_of f d0 <= p <= period_of f (last idx d0))%Z.
Proof.
  unfold resample_index. destruct idx as [|d0 idx'].
  - simpl. split; [tauto | intros (d0 & H & _); discriminate].
  - set (idx := d0 :: idx'). simpl hd_error. rewrite in_map_iff. split.
    + intros (k & <- & Hk). apply in_seq in Hk.
      exists d0. split; [reflexivity|].
      exists (period_of f d0 + Z.of_nat k)%Z. split; [reflexivity | lia].
    + intros (d & [= <-] & p & -> & Hp).
      exists (Z.to_nat (p - period_of f d0)). split; [f_equal; lia|].
      apply in_seq. lia.
Qed.

(** C4 (as stated): every candidate boundary would be the first trading day
    of its period.  On the sample table (trading days 2, 3 and 6 January
    2020) the only monthly candidate is 31 January, which is not a trading
    day at all, and the date it resolves to is 6 January, the last trading
    day of the month. *)
Lemma candidate_not_first_trading_day :
  ~ (forall (raw : DataFrame) (f : Freq) (c : Date),
        well_formed raw ->
        In c (resample_index f (index (prices (init raw)))) ->
        first_trading_day_of_period f (index (prices (init raw))) c) /\
  ~ (forall (raw : DataFrame) (f : Freq) (c e : Date),
        well_formed raw ->
        In c (resample_index f (index (prices (init raw)))) ->
        effective_date (index (prices (init raw))) c = Some e ->
        first_trading_day_of_period f (index (prices (init raw))) e).
Proof.
  split; intros H.
  - destruct (H sample_raw Monthly (mkDate 2020 1 31) sample_raw_well_formed) as [HIn _].
    + simpl. left. reflexivity.
    + simpl in HIn. intuition discriminate.
  - destruct (H sample_raw Monthly (mkDate 2020 1 31) (mkDate 2020 1 6)
                sample_raw_well_formed) as [_ HFirst].
    + simpl. left. reflexivity.
    + reflexivity.
    + specialize (HFirst (mkDate 2020 1 2)). simpl in HFirst.
      assert (HF : date_le (mkDate 2020 1 6) (mkDate 2020 1 2)) by (apply HFirst; auto).
      discriminate HF.
Qed.

(** C4 (amended). The candidate boundaries are the period-end labels: one
    for every calendar period from the period of the first trading day to
    the period of the last one; each label lies in its period, is a valid
    calendar date, and no valid date of the period is later. *)
Theorem candidates_are_period_ends (raw : DataFrame) (f : Freq) :
  let idx := index (prices (init raw)) in
  (forall c, In c (resample_index f idx) <->
             exists d0, hd_error idx = Some d0 /\
               exists p, c = period_end f p /\
                 (period_of f d0 <= p <= period_of f (last idx d0))%Z) /\
  (forall p, period_of f (period_end f p) = p /\ valid_date (period_end f p)) /\
  (forall p x, valid_date x -> period_of f x = p -> date_le x (period_end f p)).
Proof.
  intros idx. split; [|split].
  - intros c. apply resample_index_In.
  - intros p. split; [apply period_of_period_end | apply period_end_valid].
  - intros p x. apply period_end_is_last_day.
Qed.

Lemma candidates_are_period_ends_witness :
  date_le (mkDate 2020 2 3) (period_end Quarterly 8080).
Proof.
  apply (candidates_are_period_ends sample_raw Quarterly).
  - repeat split; vm_compute; discriminate.
  - reflexivity.
Defined.

(** ** Order on numbers *)

Lemma flt_irrefl (a : fl) : flt a a = false.
Proof.
  destruct a as [| | |q]; simpl; try reflexivity.
  assert (H : Qle_bool q q = true) by (apply Qle_bool_iff, Qle_refl).
  rewrite H. reflexivity.
Qed.

Lemma flt_fle (a b : fl) : flt a b = true -> fle a b = true.
Proof.
  destruct a as [| | |p], b as [| | |q]; simpl; intros H;
    try reflexivity; try discriminate.
  apply negb_true_iff in H.
  apply Qle_bool_iff. destruct (Qlt_le_dec q p) as [L | L].
  - exfalso. apply Qlt_le_weak, Qle_bool_iff in L. congruence.
  - exact L.
Qed.

Lemma flt_false_fle (a b : fl) :
  notna a = true -> notna b = true -> flt a b = false -> fle b a = true.
Proof.
  destruct a as [| | |p], b as [| | |q]; simpl; intros Ha Hb H;
    try reflexivity; try discriminate.
  apply negb_false_iff in H. exact H.
Qed.

Lemma fle_trans (a b c : fl) : fle a b = true -> fle b c = true -> fle a c = true.
Proof.
  destruct a as [| | |p], b as [| | |q], c as [| | |r]; simpl; intros H H';
    try reflexivity; try discriminate.
  rewrite Qle_bool_iff in *. eapply Qle_trans; eauto.
Qed.

Lemma fle_notna (a b : fl) : fle a b = true -> notna a = true /\ notna b = true.
Proof. destruct a, b; simpl; try discriminate; auto. Qed.

Lemma feqb_not_flt (a b s : fl) :
  feqb a s = true -> feqb b s = true -> flt b a = false.
Proof.
  destruct a as [| | |p], b as [| | |q], s as [| | |r]; simpl; intros Ha Hb;
    try reflexivity; try discriminate.
  apply Qeq_bool_iff in Ha, Hb. apply negb_false_iff, Qle_bool_iff.
  rewrite Ha, Hb. apply Qle_refl.
Qed.

(** ** [sorted]: a stable sort by key *)

Section SortedBy.
Variable key : ticker -> fl.

Lemma insert_by_perm (x : ticker) (l : list ticker) :
  Permutation (insert_by key x l) (x :: l).
Proof.
  induction l as [|y l IH]; simpl; [reflexivity|].
  destruct (flt (key y) (key x)); [|reflexivity].
  rewrite IH. apply perm_swap.
Qed.

Lemma sorted_by_perm (l : list ticker) : Permutation (sorted_by key l) l.
Proof.
  induction l as [|x l IH]; simpl; [reflexivity|].
  rewrite insert_by_perm. apply perm_skip, IH.
Qed.

Lemma insert_by_sorted (x : ticker) (l : list ticker) :
  notna (key x) = true ->
  Forall (fun y => notna (key y) = true) l ->
  StronglySorted (key_le key) l ->
  StronglySorted (key_le key) (insert_by key x l).
Proof.
  intros Hx Hl S. induction S as [|y l S IH F]; simpl.
  - repeat constructor.
  - pose proof (Forall_inv Hl) as Hy. pose proof (Forall_inv_tail Hl) as Hl'.
    destruct (flt (key y) (key x)) eqn:E.
    + constructor; [apply IH, Hl'|].
      eapply Permutation_Forall; [symmetry; apply insert_by_perm|].
      constructor; [apply flt_fle, E | exact F].
    + assert (Hxy : key_le key x y) by (apply flt_false_fle; assumption).
      constructor; [constructor; assumption|].
      constructor; [exact Hxy|].
      eapply Forall_impl; [|exact F].
      intros z Hz. unfold key_le in *. eapply fle_trans; eauto.
Qed.

Lemma sorted_by_sorted (l : list ticker) :
  Forall (fun y => notna (key y) = true) l ->
  StronglySorted (key_le key) (sorted_by key l).
Proof.
  induction 1 as [|x l Hx Hl IH]; simpl; [constructor|].
  apply insert_by_sorted; [exact Hx | | exact IH].
  eapply Permutation_Forall; [symmetry; apply sorted_by_perm | exact Hl].
Qed.

(** Tickers with one and the same key keep their relative order. *)
Lemma insert_by_stable (s : fl) (x : ticker) (l : list ticker) :
  filter (fun t => feqb (key t) s) (insert_by key x l) =
  filter (fun t => feqb (key t) s) (x :: l).
Proof.
  induction l as [|y l IH]; [reflexivity|].
  simpl insert_by. destruct (flt (key y) (key x)) eqn:E; [|reflexivity].
  simpl in *. rewrite IH.
  destruct (feqb (key x) s) eqn:Ex, (feqb (key y) s) eqn:Ey; try reflexivity.
  rewrite (feqb_not_flt _ _ _ Ex Ey) in E. discriminate.
Qed.

Lemma sorted_by_stable (s : fl) (l : list ticker) :
  filter (fun t => feqb (key t) s) (sorted_by key l) =
  filter (fun t => feqb (key t) s) l.
Proof.
  induction l as [|x l IH]; [reflexivity|].
  simpl sorted_by. rewrite insert_by_stable. simpl. rewrite IH. reflexivity.
Qed.
End SortedBy.

(** ** Tickers available on a date *)

Lemma In_combine_nth (A B : Type) (l : list A) (l' : list B) (a : A) (b : B) :
  In (a, b) (combine l l') <->
  exists j, nth_error l j = Some a /\ nth_error l' j = Some b.
Proof.
  revert l'. induction l as [|x l IH]; intros l'.
  - simpl. split; [tauto | intros [[|j] [H _]]; discriminate].
  - destruct l' as [|y l'].
    + simpl. split; [tauto | intros [[|j] [_ H]]; discriminate].
    + simpl. rewrite IH. split.
      * intros [[= -> ->] | [j H]]; [exists O; auto | exists (Datatypes.S j); exact H].
      * intros [[|j] [H1 H2]]; simpl in *; [left; congruence | right; eauto].
Qed.

Lemma avail_In (price : DataFrame) (d : Date) (t : ticker) :
  NoDup (columns price) ->
  In t (avail price d) <-> exists v, cell price d t = Some v /\ notna v = true.
Proof.
  intros ND. unfold avail, loc_row, cell. rewrite in_map_iff.
  destruct (row_at (rows price) d) as [r|].
  - split.
    + intros ([t' v] & E & H). simpl in E. subst t'.
      apply filter_In in H. destruct H as [H Hv]. simpl in Hv.
      apply In_combine_nth in H. destruct H as (j & H1 & H2).
      rewrite (nth_error_index_of _ _ _ ND H1). eauto.
    + intros (v & H & Hv).
      destruct (index_of t (columns price)) as [j|] eqn:E; [|discriminate].
      exists (t, v). split; [reflexivity|]. apply filter_In. split; [|exact Hv].
      apply In_combine_nth. exists j. split; [apply index_of_nth_error, E | exact H].
  - simpl. rewrite combine_nil. simpl.
    split; [intros (x & _ & []) | intros (v & H & _); discriminate].
Qed.

Lemma avail_select (price : DataFrame) (d : Date) :
  avail price d = select (map notna (loc_row price d)) (columns price).
Proof.
  unfold avail. generalize (loc_row price d) as r.
  induction (columns price) as [|c cols IH]; intros r.
  - destruct r; reflexivity.
  - destruct r as [|v r]; [reflexivity|]. simpl.
    destruct (notna v); simpl; rewrite IH; reflexivity.
Qed.

Lemma filter_select (A : Type) (q : A -> bool) (m : list bool) (l : list A) :
  exists m', filter q (select m l) = select m' l.
Proof.
  revert l. induction m as [|b m IH]; intros l.
  - exists []. reflexivity.
  - destruct l as [|x l]; [exists []; reflexivity|].
    destruct (IH l) as [m' E]. simpl.
    destruct b; simpl.
    + destruct (q x); [exists (true :: m') | exists (false :: m')]; simpl; congruence.
    + exists (false :: m'). exact E.
Qed.

(** ** The score table *)

Lemma build_scores_get (vs : list (ticker * ScoreTuple)) (cols : list ticker)
  (m : list (ticker * fl)) (t : ticker) :
  dict_get String.eqb (fold_left (fun m t => dict_set String.eqb m t (score_of vs t)) cols m) t =
  if existsb (String.eqb t) cols then Some (score_of vs t)
  else dict_get String.eqb m t.
Proof.
  revert m. induction cols as [|c cols IH]; intros m; simpl; [reflexivity|].
  rewrite IH, (dict_get_set _ _ _ String.eqb_eq).
  rewrite (String.eqb_sym t c).
  destruct (String.eqb_spec c t) as [-> | N]; simpl.
  - destruct (existsb (String.eqb t) cols); reflexivity.
  - reflexivity.
Qed.

Lemma existsb_ticker_In (t : ticker) (cols : list ticker) :
  existsb (String.eqb t) cols = true <-> In t cols.
Proof.
  rewrite existsb_exists. split.
  - intros [x [H1 H2]]. apply String.eqb_eq in H2. subst. exact H1.
  - intros H. exists t. split; [exact H | apply String.eqb_refl].
Qed.

Lemma score_key_build (vs : list (ticker * ScoreTuple)) (cols : list ticker) (t : ticker) :
  In t cols -> score_key (build_scores vs cols) t = score_of vs t.
Proof.
  intros H. unfold score_key, dict_get_default, build_scores.
  rewrite build_scores_get. apply existsb_ticker_In in H. rewrite H. reflexivity.
Qed.

Lemma has_score_build (vs : list (ticker * ScoreTuple)) (cols : list ticker) (t : ticker) :
  In t cols -> has_score (build_scores vs cols) t = notna (score_of vs t).
Proof.
  intros H. unfold has_score, build_scores.
  rewrite build_scores_get. apply existsb_ticker_In in H. rewrite H. reflexivity.
Qed.

Lemma has_score_key (scores : list (ticker * fl)) (t : ticker) :
  has_score scores t = true -> notna (score_key scores t) = true.
Proof.
  unfold has_score, score_key, dict_get_default.
  destruct (dict_get String.eqb scores t); [auto | discriminate].
Qed.

Lemma In_firstn (A : Type) (n : nat) (l : list A) (x : A) :
  In x (firstn n l) -> In x l.
Proof.
  revert l. induction n as [|n IH]; intros [|y l]; simpl; try tauto.
  intros [H | H]; [left; exact H | right; apply IH, H].
Qed.

(** C2. On a rebalance date the eligible tickers are those with a non-NaN
    price on that date and a non-NaN score, in column order; they are sorted
    ascending by score by a stable sort (equal scores keep the column
    order) and the first [top_n] are selected, so the selection has at most
    [top_n] elements, all of them eligible. *)
Theorem selection_top_n (price : DataFrame)
  (valuation_scores : list (ticker * ScoreTuple)) (top_n : Z) (d : Date) :
  NoDup (columns price) -> (0 < top_n)%Z ->
  let scores := build_scores valuation_scores (columns price) in
  let key := score_key scores in
  let eligible := filter (has_score scores) (avail price d) in
  let sel := selection price scores top_n d in
  (forall t, In t eligible <->
             (exists v, cell price d t = Some v /\ notna v = true) /\
             notna (score_of valuation_scores t) = true) /\
  (exists m, eligible = select m (columns price)) /\
  (forall t, In t eligible -> key t = score_of valuation_scores t) /\
  Permutation (ranked price scores d) eligible /\
  StronglySorted (key_le key) (ranked price scores d) /\
  (forall s, filter (fun t => feqb (key t) s) (ranked price scores d) =
             filter (fun t => feqb (key t) s) eligible) /\
  sel = firstn (Z.to_nat top_n) (ranked price scores d) /\
  (Z.of_nat (length sel) <= top_n)%Z /\
  (forall t, In t sel -> In t eligible).
Proof.
  intros ND Hn scores key eligible sel.
  assert (Hcol : forall t, In t (avail price d) -> In t (columns price)).
  { intros t H. rewrite avail_select in H. apply select_In in H.
    destruct H as [j [H _]]. eapply nth_error_In, H. }
  assert (Hsel : sel = firstn (Z.to_nat top_n) (ranked price scores d)).
  { unfold sel, selection, slice_to.
    destruct (Z.ltb_spec top_n 0); [lia | reflexivity]. }
  split; [|split; [|split; [|split; [|split; [|split; [|split; [|split]]]]]]].
  - intros t. unfold eligible. rewrite filter_In. split.
    + intros [H1 H2]. split; [apply avail_In; assumption|].
      unfold scores in H2. rewrite has_score_build in H2 by auto. exact H2.
    + intros [H1 H2]. apply avail_In in H1; [|exact ND]. split; [exact H1|].
      unfold scores. rewrite has_score_build by auto. exact H2.
  - unfold eligible. rewrite avail_select. apply filter_select.
  - intros t H. apply filter_In in H. destruct H as [H _].
    apply score_key_build, Hcol, H.
  - apply sorted_by_perm.
  - apply sorted_by_sorted. apply Forall_forall. intros t H.
    apply filter_In in H. apply has_score_key, H.
  - intros s. apply sorted_by_stable.
  - exact Hsel.
  - rewrite Hsel. pose proof (firstn_le_length (Z.to_nat top_n) (ranked price scores d)).
    rewrite length_firstn. lia.
  - intros t H. rewrite Hsel in H. apply In_firstn in H.
    eapply Permutation_in; [apply sorted_by_perm | exact H].
Qed.

Lemma selection_top_n_witness :
  (Z.of_nat (length (selection (prices (init sample_raw))
                       (build_scores sample_scores (columns (prices (init sample_raw))))
                       1 (mkDate 2020 1 3))) <= 1)%Z.
Proof.
  apply (selection_top_n (prices (init sample_raw)) sample_scores 1 (mkDate 2020 1 3)).
  - simpl. nodup_dates.
  - reflexivity.
Defined.

(** Equal scores: "A" comes before "B" because its column comes first,
    whatever the order of the score dictionary. *)
Example sample_ranking :
  let price := prices (init sample_raw) in
  let scores := build_scores sample_scores (columns price) in
  ranked price scores (mkDate 2020 1 3) = ["A"; "B"]%string /\
  ranked price scores (mkDate 2020 1 2) = ["A"]%string /\
  selection price scores 1 (mkDate 2020 1 3) = ["A"]%string.
Proof. repeat split. Qed.

(** ** Forward fill of the holdings *)

Lemma max_fold_spec (l : list Date) (x : Date) :
  let m := fold_left (fun m y => if date_ltb m y then y else m) l x in
  In m (x :: l) /\ date_le x m /\ forall y, In y l -> date_le y m.
Proof.
  revert x. induction l as [|z l IH]; intros x; simpl.
  - split; [auto|]. split; [apply date_le_refl | tauto].
  - destruct (IH (if date_ltb x z then z else x)) as (H1 & H2 & H3).
    destruct (date_ltb x z) eqn:E.
    + split; [destruct H1; auto|]. split.
      * eapply date_le_trans; [apply date_lt_le, E | exact H2].
      * intros y [<- | Hy]; auto.
    + apply date_ltb_false in E.
      split; [destruct H1 as [H1 | H1]; auto|]. split; [exact H2|].
      intros y [<- | Hy]; [eapply date_le_trans; eauto | auto].
Qed.

Lemma max_date_spec (l : list Date) (m : Date) :
  max_date l = Some m -> In m l /\ forall y, In y l -> date_le y m.
Proof.
  destruct l as [|x l]; simpl; [discriminate|].
  intros [= <-]. destruct (max_fold_spec l x) as (H1 & H2 & H3).
  split; [exact H1|]. intros y [<- | Hy]; auto.
Qed.

Lemma max_date_None (l : list Date) : max_date l = None <-> l = [].
Proof. destruct l; simpl; split; congruence. Qed.

Lemma latest_le_Some (keys : list Date) (dt r : Date) :
  latest_le keys dt = Some r <->
  In r keys /\ date_le r dt /\
  forall r', In r' keys -> date_le r' dt -> date_le r' r.
Proof.
  unfold latest_le. split.
  - intros H. apply max_date_spec in H. destruct H as [H1 H2].
    apply filter_In in H1. destruct H1 as [H1 H1'].
    split; [exact H1|]. split; [exact H1'|].
    intros r' Hr' Hle. apply H2, filter_In. auto.
  - intros (H1 & H2 & H3).
    destruct (max_date (filter (fun r0 => date_leb r0 dt) keys)) as [m|] eqn:E.
    + apply max_date_spec in E. destruct E as [E1 E2].
      apply filter_In in E1. destruct E1 as [E1 E1'].
      f_equal. apply date_le_antisym.
      * apply H3; assumption.
      * apply E2, filter_In. auto.
    + apply max_date_None in E.
      assert (H : In r (filter (fun r0 => date_leb r0 dt) keys)) by (apply filter_In; auto).
      rewrite E in H. destruct H.
Qed.

Lemma latest_le_None (keys : list Date) (dt : Date) :
  latest_le keys dt = None <-> forall r, In r keys -> date_lt dt r.
Proof.
  unfold latest_le. rewrite max_date_None. split.
  - intros E r Hr. apply date_leb_false.
    destruct (date_leb r dt) eqn:L; [|reflexivity].
    assert (H : In r (filter (fun r0 => date_leb r0 dt) keys)) by (apply filter_In; auto).
    rewrite E in H. destruct H.
  - intros H. destruct (filter _ keys) as [|r l] eqn:E; [reflexivity|].
    assert (Hr : In r (filter (fun r0 => date_leb r0 dt) keys)) by (rewrite E; left; reflexivity).
    apply filter_In in Hr. destruct Hr as [Hr Hle].
    apply H, date_leb_false in Hr. congruence.
Qed.

Lemma latest_le_mono (keys : list Date) (d1 d2 : Date) :
  date_le d1 d2 -> latest_le keys d2 = None -> latest_le keys d1 = None.
Proof.
  rewrite !latest_le_None. intros L H r Hr.
  eapply date_le_lt_trans; [exact L | apply H, Hr].
Qed.

Section Projection.
Variable hm : list (Date * list ticker).

Lemma holdings_step_spec (current : list ticker) (dt : Date) :
  (latest_le (dict_keys hm) dt = None -> current = []) ->
  holdings_step hm current dt = holdings_spec hm dt.
Proof.
  unfold holdings_step, holdings_spec. fold (latest_le (dict_keys hm) dt).
  destruct (latest_le (dict_keys hm) dt) as [r|] eqn:E; [|auto].
  intros _. apply latest_le_Some in E. destruct E as [E _].
  apply (dict_get_keys _ _ _ date_eqb_eq) in E. destruct E as [v E].
  unfold dict_get_default. rewrite E. reflexivity.
Qed.

Lemma project_holdings_spec (idx : list Date) :
  StronglySorted date_le idx ->
  forall current,
    (forall dt, In dt idx -> latest_le (dict_keys hm) dt = None -> current = []) ->
    project_holdings hm current idx = map (fun dt => (dt, holdings_spec hm dt)) idx.
Proof.
  induction 1 as [|dt idx S IH F]; intros current Hc; simpl; [reflexivity|].
  rewrite holdings_step_spec by (apply Hc; left; reflexivity).
  f_equal. apply IH. intros dt' Hdt' Hnone.
  assert (Hn : latest_le (dict_keys hm) dt = None).
  { eapply latest_le_mono; [|exact Hnone].
    rewrite Forall_forall in F. apply F, Hdt'. }
  unfold holdings_spec. rewrite Hn. reflexivity.
Qed.

Lemma holdings_at_map (g : Date -> list ticker) (idx : list Date) (d : Date) :
  In d idx -> holdings_at (map (fun dt => (dt, g dt)) idx) d = g d.
Proof.
  unfold holdings_at, dict_get_default.
  induction idx as [|x idx IH]; simpl; [tauto|].
  destruct (date_eqb x d) eqn:E.
  - apply date_eqb_eq in E. subst. reflexivity.
  - intros [-> | H]; [rewrite date_eqb_refl in E; discriminate | apply IH, H].
Qed.
End Projection.

Lemma holdings_series_spec (raw : DataFrame)
  (valuation_scores : list (ticker * ScoreTuple)) (top_n : Z) (f : Freq) :
  let price := prices (init raw) in
  holdings_series price valuation_scores top_n f =
  map (fun dt => (dt, holdings_spec (holdings_map_of price valuation_scores top_n f) dt))
      (index price).
Proof.
  intros price. unfold holdings_series.
  apply project_holdings_spec; [apply init_index_sorted | reflexivity].
Qed.

(** C3. The holdings series has one entry per trading date.  On a date [d]
    it holds the selection of the latest rebalance date at or before [d],
    and the empty list when there is none; hence two trading dates with no
    rebalance date in between (after the first, up to the second) hold the
    same list. *)
Theorem holdings_step_function (raw : DataFrame)
  (valuation_scores : list (ticker * ScoreTuple)) (top_n : Z) (f : Freq) :
  let price := prices (init raw) in
  let idx := index price in
  let scores := build_scores valuation_scores (columns price) in
  let hm := holdings_map_of price valuation_scores top_n f in
  let hs := holdings_series price valuation_scores top_n f in
  map fst hs = idx /\
  (forall d r,
      In d idx -> In r (dict_keys hm) -> date_le r d ->
      (forall r', In r' (dict_keys hm) -> date_le r' d -> date_le r' r) ->
      holdings_at hs d = selection price scores top_n r) /\
  (forall d,
      In d idx -> (forall r, In r (dict_keys hm) -> date_lt d r) ->
      holdings_at hs d = []) /\
  (forall d1 d2,
      In d1 idx -> In d2 idx -> date_lt d1 d2 ->
      (forall r, In r (dict_keys hm) -> ~ (date_lt d1 r /\ date_le r d2)) ->
      holdings_at hs d1 = holdings_at hs d2).
Proof.
  intros price idx scores hm hs.
  assert (Hs : hs = map (fun dt => (dt, holdings_spec hm dt)) idx)
    by apply holdings_series_spec.
  split; [|split; [|split]].
  - rewrite Hs, map_map. simpl. apply map_id.
  - intros d r Hd Hr Hle Hmax. rewrite Hs, holdings_at_map by exact Hd.
    unfold holdings_spec.
    assert (E : latest_le (dict_keys hm) d = Some r) by (apply latest_le_Some; auto).
    rewrite E. unfold dict_get_default, hm, holdings_map_of.
    rewrite holdings_map_value by exact Hr. reflexivity.
  - intros d Hd Hnone. rewrite Hs, holdings_at_map by exact Hd.
    unfold holdings_spec.
    assert (E : latest_le (dict_keys hm) d = None) by (apply latest_le_None; auto).
    rewrite E. reflexivity.
  - intros d1 d2 H1 H2 Hlt Hno. rewrite Hs, !holdings_at_map by assumption.
    unfold holdings_spec, latest_le.
    replace (filter (fun r => date_leb r d1) (dict_keys hm))
      with (filter (fun r => date_leb r d2) (dict_keys hm)); [reflexivity|].
    apply filter_ext_in. intros r Hr.
    destruct (date_leb r d1) eqn:E1.
    + eapply date_le_trans; [exact E1 | apply date_lt_le, Hlt].
    + destruct (date_leb r d2) eqn:E2; [|reflexivity].
      exfalso. apply (Hno r Hr). split; [apply date_leb_false, E1 | exact E2].
Qed.

Lemma holdings_step_function_witness :
  holdings_at (holdings_series (prices (init sample_raw)) sample_scores 1 Monthly)
              (mkDate 2020 1 2) =
  holdings_at (holdings_series (prices (init sample_raw)) sample_scores 1 Monthly)
              (mkDate 2020 1 3).
Proof.
  apply (holdings_step_function sample_raw sample_scores 1 Monthly).
  - simpl. auto.
  - simpl. auto.
  - reflexivity.
  - simpl. intros r [<- | []] [_ H]. discriminate H.
Defined.

Example sample_holdings :
  holdings_series (prices (init sample_raw)) sample_scores 1 Monthly =
  [ (mkDate 2020 1 2, []); (mkDate 2020 1 3, []); (mkDate 2020 1 6, ["A"]) ]%string.
Proof. reflexivity. Qed.

(** ** Daily returns *)

Lemma zip_with_nth_error (A B C : Type) (f : A -> B -> C)
  (l : list A) (l' : list B) (j : nat) (x : A) (y : B) :
  nth_error l j = Some x -> nth_error l' j = Some y ->
  nth_error (zip_with f l l') j = Some (f x y).
Proof.
  revert l' j. induction l as [|a l IH]; intros [|b l'] [|j]; simpl; try discriminate.
  - intros [= ->] [= ->]. reflexivity.
  - apply IH.
Qed.

Lemma zip_with_length (A B C : Type) (f : A -> B -> C) (l : list A) (l' : list B) :
  length l = length l' -> length (zip_with f l l') = length l.
Proof.
  revert l'. induction l as [|a l IH]; intros [|b l']; simpl; try discriminate; auto.
Qed.

Lemma pct_rows_succ (rs : list (Date * list fl)) :
  forall prev i d0 r0 d1 r1,
    nth_error rs i = Some (d0, r0) ->
    nth_error rs (Datatypes.S i) = Some (d1, r1) ->
    nth_error (pct_rows prev rs) (Datatypes.S i) = Some (d1, zip_with pct r1 r0).
Proof.
  induction rs as [|[d r] rs IH]; intros prev i d0 r0 d1 r1 H0 H1.
  - destruct i; discriminate.
  - destruct i as [|i]; simpl in *.
    + injection H0 as -> ->. destruct rs as [|[d' r'] rs]; [discriminate|].
      simpl in *. injection H1 as -> ->. reflexivity.
    + eapply IH; eassumption.
Qed.

Lemma pct_rows_first (rs : list (Date * list fl)) (d : Date) (r : list fl) :
  nth_error rs 0 = Some (d, r) ->
  nth_error (pct_rows None rs) 0 = Some (d, map (fun _ => NaN) r).
Proof.
  destruct rs as [|[d' r'] rs]; simpl; [discriminate|].
  intros [= -> ->]. reflexivity.
Qed.

Lemma pct_rows_index (prev : option (list fl)) (rs : list (Date * list fl)) :
  map fst (pct_rows prev rs) = map fst rs.
Proof.
  revert prev. induction rs as [|[d r] rs IH]; intros prev; simpl; [reflexivity|].
  rewrite IH. reflexivity.
Qed.

Lemma daily_returns_index (price : DataFrame) :
  index (daily_returns price) = index price.
Proof.
  unfold index, daily_returns, fillna_zero, pct_change; simpl.
  rewrite map_map; simpl. apply pct_rows_index.
Qed.

Lemma daily_returns_nth_first (price : DataFrame) (d : Date) (r : list fl) :
  nth_error (rows price) 0 = Some (d, r) ->
  nth_error (rows (daily_returns price)) 0 = Some (d, map (fun _ => fzero) r).
Proof.
  intros H. unfold daily_returns, fillna_zero, pct_change. cbn [rows columns].
  rewrite nth_error_map, (pct_rows_first _ _ _ H). cbn [option_map fst snd].
  rewrite map_map. reflexivity.
Qed.

Lemma daily_returns_nth_succ (price : DataFrame) (i : nat)
  (d0 d1 : Date) (r0 r1 : list fl) :
  nth_error (rows price) i = Some (d0, r0) ->
  nth_error (rows price) (Datatypes.S i) = Some (d1, r1) ->
  nth_error (rows (daily_returns price)) (Datatypes.S i) =
  Some (d1, map fillna0 (zip_with pct r1 r0)).
Proof.
  intros H0 H1. unfold daily_returns, fillna_zero, pct_change. cbn [rows columns].
  rewrite nth_error_map, (pct_rows_succ _ None _ _ _ _ _ H0 H1). reflexivity.
Qed.

Lemma fillna0_notna (x : fl) : notna (fillna0 x) = true.
Proof. destruct x; reflexivity. Qed.

Lemma daily_returns_notna (price : DataFrame) :
  Forall (fun r => Forall (fun x => notna x = true) (snd r)) (rows (daily_returns price)).
Proof.
  unfold daily_returns, fillna_zero; simpl.
  apply Forall_forall. intros r H. apply in_map_iff in H.
  destruct H as (r' & <- & _). simpl.
  apply Forall_forall. intros x Hx. apply in_map_iff in Hx.
  destruct Hx as (x' & <- & _). apply fillna0_notna.
Qed.

Lemma pct_rows_length (n : nat) (rs : list (Date * list fl)) :
  Forall (fun r => length (snd r) = n) rs ->
  forall prev,
    match prev with Some p => length p = n | None => True end ->
    Forall (fun r => length (snd r) = n) (pct_rows prev rs).
Proof.
  induction 1 as [|[d r] rs H F IH]; intros prev Hp; simpl; constructor.
  - simpl in *. destruct prev as [p|].
    + rewrite zip_with_length; congruence.
    + rewrite length_map. exact H.
  - apply IH. exact H.
Qed.

(** The returns frame is as well formed as the price frame. *)
Lemma daily_returns_well_formed (price : DataFrame) :
  well_formed price -> well_formed (daily_returns price).
Proof.
  intros (H1 & H2 & H3). split; [|split].
  - rewrite daily_returns_index. exact H1.
  - exact H2.
  - unfold daily_returns, fillna_zero, pct_change; simpl.
    apply Forall_map. simpl.
    eapply Forall_impl; [|apply (pct_rows_length _ _ H3 None I)].
    intros r Hr. simpl. rewrite length_map. exact Hr.
Qed.

(** ** Cells by position *)

Section Cells.
Variable df : DataFrame.
Hypothesis WF : well_formed df.

Lemma cell_nth (i j : nat) (d : Date) (r : list fl) (t : ticker) :
  nth_error (rows df) i = Some (d, r) ->
  index_of t (columns df) = Some j ->
  cell df d t = nth_error r j.
Proof.
  intros Hi Hj. unfold cell.
  rewrite (In_row_at _ _ _ (proj1 WF) (nth_error_In _ _ Hi)), Hj. reflexivity.
Qed.

Lemma index_nth_row (i : nat) (d : Date) :
  nth_error (index df) i = Some d ->
  exists r, nth_error (rows df) i = Some (d, r) /\ length r = length (columns df).
Proof.
  unfold index. rewrite nth_error_map.
  destruct (nth_error (rows df) i) as [[d' r]|] eqn:E; simpl; [|discriminate].
  intros [= ->]. exists r. split; [reflexivity|].
  destruct WF as (_ & _ & L). rewrite Forall_forall in L.
  apply (L (d, r)). eapply nth_error_In, E.
Qed.

Lemma cell_defined (d : Date) (t : ticker) :
  In d (index df) -> In t (columns df) -> exists v, cell df d t = Some v.
Proof.
  intros Hd Ht. apply In_nth_error in Hd. destruct Hd as [i Hi].
  apply index_nth_row in Hi. destruct Hi as (r & Hi & L).
  apply index_of_In in Ht. destruct Ht as [j Hj].
  rewrite (cell_nth _ _ _ _ _ Hi Hj).
  destruct (nth_error r j) as [v|] eqn:E; [eauto|].
  apply nth_error_None in E. apply index_of_lt in Hj. lia.
Qed.

(** A row lists the cells of its date, column by column. *)
Lemma row_cells (i : nat) (d : Date) (r : list fl) :
  nth_error (rows df) i = Some (d, r) ->
  map Some r = map (cell df d) (columns df).
Proof.
  intros Hi. apply nth_error_ext. intros j.
  rewrite !nth_error_map.
  assert (L : length r = length (columns df)).
  { destruct WF as (_ & _ & L). rewrite Forall_forall in L.
    apply (L (d, r)). eapply nth_error_In, Hi. }
  destruct (nth_error (columns df) j) as [t|] eqn:E; simpl.
  - rewrite (cell_nth i j d r t Hi)
      by (apply nth_error_index_of; [exact (proj1 (proj2 WF)) | exact E]).
    destruct (nth_error r j) eqn:E'; [reflexivity|].
    apply nth_error_None in E'.
    assert (j < length (columns df))%nat by (apply nth_error_Some; congruence). lia.
  - apply nth_error_None in E.
    assert (E' : nth_error r j = None) by (apply nth_error_None; lia).
    rewrite E'. reflexivity.
Qed.
End Cells.

(** ** Portfolio and benchmark returns *)

Lemma mean_arith_mean (l : list fl) :
  Forall (fun x => notna x = true) l -> mean l = arith_mean l.
Proof.
  intros H. unfold mean, arith_mean.
  assert (E : filter notna l = l).
  { induction H as [|x l Hx H IH]; simpl; [reflexivity|]. rewrite Hx, IH. reflexivity. }
  rewrite E. destruct l; reflexivity.
Qed.

Section ReturnsEngine.
Variable price : DataFrame.
Hypothesis WF : well_formed price.

Let returns := daily_returns price.

Lemma returns_first_date (d : Date) (t : ticker) :
  nth_error (index price) 0 = Some d -> In t (columns price) ->
  cell returns d t = Some fzero.
Proof.
  intros Hd Ht.
  destruct (index_nth_row price WF _ _ Hd) as (r & Hr & L).
  apply index_of_In in Ht. destruct Ht as [j Hj].
  pose proof (daily_returns_nth_first price d r Hr) as Hr'.
  rewrite (cell_nth returns (daily_returns_well_formed price WF) 0 j d _ t Hr' Hj).
  apply index_of_lt in Hj.
  destruct (nth_error r j) as [v|] eqn:E.
  - apply (map_nth_error (fun _ => fzero)) in E. exact E.
  - apply nth_error_None in E. lia.
Qed.

Lemma returns_later_date (i : nat) (d0 d1 : Date) (t : ticker) (v0 v1 : fl) :
  nth_error (index price) i = Some d0 ->
  nth_error (index price) (Datatypes.S i) = Some d1 ->
  cell price d0 t = Some v0 -> cell price d1 t = Some v1 ->
  cell returns d1 t = Some (fillna0 (fsub (fdiv v1 v0) fone)).
Proof.
  intros H0 H1 C0 C1.
  destruct (index_nth_row price WF _ _ H0) as (r0 & Hr0 & L0).
  destruct (index_nth_row price WF _ _ H1) as (r1 & Hr1 & L1).
  destruct (index_of t (columns price)) as [j|] eqn:Hj;
    [|unfold cell in C0; rewrite Hj in C0; destruct (row_at _ _); discriminate].
  rewrite (cell_nth price WF _ _ _ _ _ Hr0 Hj) in C0.
  rewrite (cell_nth price WF _ _ _ _ _ Hr1 Hj) in C1.
  pose proof (daily_returns_nth_succ price i d0 d1 r0 r1 Hr0 Hr1) as Hr'.
  rewrite (cell_nth returns (daily_returns_well_formed price WF) _ j d1 _ t Hr' Hj).
  change (fsub (fdiv v1 v0) fone) with (pct v1 v0).
  apply map_nth_error. apply zip_with_nth_error; assumption.
Qed.

Lemma ret_at_cell (d : Date) (t : ticker) :
  In d (index price) -> In t (columns price) ->
  cell returns d t = Some (ret_at returns d t) /\
  notna (ret_at returns d t) = true.
Proof.
  intros Hd Ht.
  rewrite <- (daily_returns_index price) in Hd.
  destruct (cell_defined returns (daily_returns_well_formed price WF) d t Hd Ht)
    as [v Hv].
  unfold ret_at. rewrite Hv. split; [reflexivity|].
  unfold cell in Hv.
  destruct (row_at (rows returns) d) as [r|] eqn:Er; [|discriminate].
  destruct (index_of t (columns returns)) as [j|]; [|discriminate].
  apply row_at_In in Er. apply nth_error_In in Hv.
  pose proof (daily_returns_notna price) as N. rewrite Forall_forall in N.
  specialize (N _ Er). simpl in N. rewrite Forall_forall in N. apply N, Hv.
Qed.

Lemma port_returns_nth (hs : list (Date * list ticker)) (i : nat) (d : Date) :
  nth_error (index price) i = Some d ->
  (forall t, In t (holdings_at hs d) -> In t (columns price)) ->
  nth_error (port_returns returns hs (index price)) i =
  Some (match holdings_at hs d with
        | [] => fzero
        | sel => fillna0 (arith_mean (map (ret_at returns d) sel))
        end).
Proof.
  intros Hd Hsub. unfold port_returns.
  rewrite !nth_error_map, Hd. simpl. f_equal.
  unfold day_port_ret. destruct (holdings_at hs d) as [|t sel] eqn:E; [reflexivity|].
  f_equal. apply mean_arith_mean.
  apply Forall_forall. intros x Hx.
  change (In x (map (ret_at returns d) (t :: sel))) in Hx.
  apply in_map_iff in Hx. destruct Hx as (t' & <- & Ht').
  apply ret_at_cell; [eapply nth_error_In, Hd | apply Hsub, Ht'].
Qed.

Lemma bench_returns_nth (i : nat) (d : Date) :
  nth_error (index price) i = Some d ->
  nth_error (bench_returns returns) i =
  Some (arith_mean (map (ret_at returns d) (columns price))).
Proof.
  intros Hd. unfold bench_returns. rewrite nth_error_map.
  rewrite <- (daily_returns_index price) in Hd.
  destruct (index_nth_row returns (daily_returns_well_formed price WF) _ _ Hd)
    as (r & Hr & L).
  rewrite Hr. simpl. f_equal.
  assert (E : map (ret_at returns d) (columns price) = r).
  { pose proof (row_cells returns (daily_returns_well_formed price WF) i d r Hr) as C.
    change (columns returns) with (columns price) in C.
    unfold ret_at.
    rewrite <- (map_map (cell returns d)
                  (fun o => match o with Some v => v | None => NaN end)).
    rewrite <- C, map_map. apply map_id. }
  rewrite E. apply mean_arith_mean.
  pose proof (daily_returns_notna price) as N. rewrite Forall_forall in N.
  apply (N (d, r)). eapply nth_error_In, Hr.
Qed.
End ReturnsEngine.

Lemma fsum_finite (l : list fl) :
  Forall (fun x => finite x = true) l -> finite (fsum l) = true.
Proof.
  unfold fsum, fzero. generalize 0 as acc.
  induction l as [|x l IH]; intros acc H; simpl; [reflexivity|].
  pose proof (Forall_inv H) as Hx. pose proof (Forall_inv_tail H) as Hl.
  destruct x as [| | |q]; try discriminate. simpl. apply IH, Hl.
Qed.

(** Finite returns have a finite mean. *)
Lemma arith_mean_finite (l : list fl) :
  l <> [] -> Forall (fun x => finite x = true) l -> finite (arith_mean l) = true.
Proof.
  intros Hne H. unfold arith_mean. apply fsum_finite in H.
  destruct (fsum l) as [| | |s]; try discriminate.
  unfold of_nat. simpl.
  destruct (Qeq_bool (inject_Z (Z.of_nat (length l))) 0) eqn:E; [|reflexivity].
  apply Qeq_bool_iff in E. unfold Qeq in E. simpl in E.
  destruct l; [contradiction | simpl in E; lia].
Qed.

(** C1. Per ticker, the return is 0 on the first date and
    [price[t] / price[t-1] - 1] afterwards, a NaN result being replaced by
    0.  The portfolio return of a date is 0 when nothing is held and
    otherwise the arithmetic mean of the returns of exactly the held
    tickers (a NaN mean, like every NaN return, being replaced by 0; with
    finite returns the mean is never NaN).  The benchmark return is the
    arithmetic mean of the returns of all columns, and the pipeline computes
    it without looking at the holdings. *)
Theorem returns_definition (price : DataFrame) (hs : list (Date * list ticker)) :
  well_formed price ->
  let returns := daily_returns price in
  (forall d t,
      nth_error (index price) 0 = Some d -> In t (columns price) ->
      cell returns d t = Some fzero) /\
  (forall i d0 d1 t v0 v1,
      nth_error (index price) i = Some d0 ->
      nth_error (index price) (Datatypes.S i) = Some d1 ->
      cell price d0 t = Some v0 -> cell price d1 t = Some v1 ->
      cell returns d1 t = Some (fillna0 (fsub (fdiv v1 v0) fone))) /\
  (forall i d,
      nth_error (index price) i = Some d ->
      (forall t, In t (holdings_at hs d) -> In t (columns price)) ->
      nth_error (port_returns returns hs (index price)) i =
      Some (match holdings_at hs d with
            | [] => fzero
            | sel => fillna0 (arith_mean (map (ret_at returns d) sel))
            end) /\
      (forall t, In t (holdings_at hs d) ->
                 cell returns d t = Some (ret_at returns d t))) /\
  (forall l, l <> [] -> Forall (fun x => finite x = true) l ->
             fillna0 (arith_mean l) = arith_mean l) /\
  (forall i d,
      nth_error (index price) i = Some d ->
      nth_error (bench_returns returns) i =
      Some (arith_mean (map (ret_at returns d) (columns price)))) /\
  (forall vs top_n f,
      let df := run_frame (mkBacktester price (index price)) vs top_n f in
      benchmark_return df = bench_returns returns /\
      portfolio_return df =
      port_returns returns (holdings_series price vs top_n f) (index price)).
Proof.
  intros WF returns. split; [|split; [|split; [|split; [|split]]]].
  - apply returns_first_date, WF.
  - apply returns_later_date, WF.
  - intros i d Hd Hsub. split; [apply port_returns_nth; assumption|].
    intros t Ht. apply ret_at_cell; [exact WF | eapply nth_error_In, Hd | auto].
  - intros l Hne Hl. pose proof (arith_mean_finite l Hne Hl) as H.
    destruct (arith_mean l); try discriminate. reflexivity.
  - apply bench_returns_nth, WF.
  - intros vs top_n f. split; reflexivity.
Qed.

Lemma two_ticker_table_well_formed : well_formed two_ticker_table.
Proof.
  unfold well_formed, two_ticker_table, index; simpl.
  split; [nodup_dates|]. split; [nodup_dates|].
  repeat constructor.
Defined.

Lemma returns_definition_witness :
  cell (daily_returns two_ticker_table) (mkDate 2020 1 3) "A"%string =
  Some (fillna0 (fsub (fdiv (Fin 2) (Fin 1)) fone)).
Proof.
  apply (returns_definition two_ticker_table both_held two_ticker_table_well_formed)
    with (i := O) (d0 := mkDate 2020 1 2); reflexivity.
Defined.

(** The mean of +1 and 0. *)
Example two_ticker_portfolio_return :
  exists q,
    port_returns (daily_returns two_ticker_table) both_held (index two_ticker_table)
    = [Fin 0; Fin q] /\ q == 1 # 2.
Proof. eexists. split; [vm_compute; reflexivity | reflexivity]. Qed.

(** ** Running product and running maximum *)

Lemma fle_refl (a : fl) : notna a = true -> fle a a = true.
Proof.
  destruct a as [| | |q]; simpl; try reflexivity; try discriminate.
  intros _. apply Qle_bool_iff, Qle_refl.
Qed.

Lemma fmax2_spec (a b : fl) :
  notna a = true -> notna b = true ->
  notna (fmax2 a b) = true /\ fle a (fmax2 a b) = true /\
  fle b (fmax2 a b) = true /\ (fmax2 a b = a \/ fmax2 a b = b).
Proof.
  intros Ha Hb. unfold fmax2. destruct (flt a b) eqn:E.
  - repeat split; auto using flt_fle, fle_refl.
  - repeat split; auto using flt_false_fle, fle_refl.
Qed.

Lemma fmul_finite (a b : fl) (c : Q) :
  fmul a b = Fin c -> finite a = true /\ finite b = true.
Proof.
  destruct a as [| | |p], b as [| | |q]; simpl; try discriminate; auto;
    intros H; try (destruct (q ?= 0); discriminate);
    try (destruct (p ?= 0); discriminate).
Qed.

(** A finite value of the running product has only finite or skipped
    values before it. *)
Lemma cumprod_finite_prefix (xs : list fl) :
  forall acc i c,
    nth_error (accum fmul acc xs) i = Some (Fin c) ->
    (forall a, acc = Some a -> finite a = true) /\
    forall k y, (k <= i)%nat -> nth_error (accum fmul acc xs) k = Some y ->
                y = NaN \/ finite y = true.
Proof.
  induction xs as [|x xs IH]; intros acc i c H.
  - destruct i; discriminate.
  - simpl in H |- *. destruct (isna x) eqn:Ex.
    + destruct i as [|i]; [discriminate|]. simpl in H.
      destruct (IH acc i c H) as [H1 H2]. split; [exact H1|].
      intros [|k] y Hk Hy; simpl in Hy; [left; congruence|].
      apply (H2 k y); [lia | exact Hy].
    + set (a := match acc with None => x | Some a0 => fmul a0 x end) in *.
      assert (Hacc : finite a = true -> forall a0, acc = Some a0 -> finite a0 = true).
      { intros Ha a0 ->. unfold a in Ha. destruct (fmul a0 x) eqn:E; try discriminate.
        apply (fmul_finite _ _ _ E). }
      destruct i as [|i]; simpl in H.
      * assert (Ha : finite a = true) by (injection H as ->; reflexivity).
        split; [exact (Hacc Ha)|].
        intros [|k] y Hk Hy; [|lia]. simpl in Hy. right. congruence.
      * destruct (IH (Some a) i c H) as [H1 H2].
        assert (Ha : finite a = true) by (apply H1; reflexivity).
        split; [exact (Hacc Ha)|].
        intros [|k] y Hk Hy; simpl in Hy; [right; congruence|].
        apply (H2 k y); [lia | exact Hy].
Qed.

(** The running maximum: NaN on a NaN cell, otherwise the largest non-NaN
    value met so far. *)
Lemma cummax_spec (l : list fl) :
  forall acc i x m,
    (forall a, acc = Some a -> notna a = true) ->
    nth_error l i = Some x ->
    nth_error (accum fmax2 acc l) i = Some m ->
    (isna x = true /\ m = NaN) \/
    (notna x = true /\ notna m = true /\ fle x m = true /\
     (forall a, acc = Some a -> fle a m = true) /\
     (forall k y, (k <= i)%nat -> nth_error l k = Some y -> notna y = true ->
                  fle y m = true) /\
     (m = x \/ (exists a, acc = Some a /\ m = a) \/
      exists k y, (k < i)%nat /\ nth_error l k = Some y /\ notna y = true /\ m = y)).
Proof.
  induction l as [|x0 l IH]; intros acc i x m Hacc Hx Hm.
  - destruct i; discriminate.
  - simpl in Hm. destruct (isna x0) eqn:E0.
    + destruct i as [|i]; simpl in Hx, Hm.
      * left. split; congruence.
      * destruct (IH acc i x m Hacc Hx Hm) as [H | (H1 & H2 & H3 & H4 & H5 & H6)];
          [left; exact H | right].
        split; [exact H1|]. split; [exact H2|]. split; [exact H3|].
        split; [exact H4|]. split.
        -- intros [|k] y Hk Hy Hn; simpl in Hy.
           ++ injection Hy as <-. unfold notna in Hn. rewrite E0 in Hn. discriminate.
           ++ apply (H5 k y); [lia | assumption..].
        -- destruct H6 as [H6 | [H6 | (k & y & Hk & Hy & Hn & ->)]]; auto.
           right; right. exists (Datatypes.S k), y. repeat split; [lia | assumption..].
    + assert (N0 : notna x0 = true) by (unfold notna; rewrite E0; reflexivity).
      set (a := match acc with None => x0 | Some a0 => fmax2 a0 x0 end) in *.
      assert (Ha : notna a = true /\ fle x0 a = true /\
                   (forall a0, acc = Some a0 -> fle a0 a = true) /\
                   (a = x0 \/ exists a0, acc = Some a0 /\ a = a0)).
      { unfold a. destruct acc as [a0|].
        - destruct (fmax2_spec a0 x0 (Hacc a0 eq_refl) N0) as (A & B & C & D).
          repeat split; auto.
          + intros a1 [= <-]. exact B.
          + destruct D; [right; eauto | left; assumption].
        - repeat split; auto using fle_refl. intros a0 H; discriminate. }
      destruct Ha as (A & B & C & D).
      destruct i as [|i]; simpl in Hx, Hm.
      * injection Hx as <-. injection Hm as <-. right.
        repeat split; auto.
        -- intros [|k] y Hk Hy Hn; [|lia]. simpl in Hy. injection Hy as <-. exact B.
        -- destruct D as [D | D]; auto.
      * assert (Hacc' : forall a1, Some a = Some a1 -> notna a1 = true)
          by (intros a1 [= <-]; exact A).
        destruct (IH (Some a) i x m Hacc' Hx Hm) as [H | (H1 & H2 & H3 & H4 & H5 & H6)];
          [left; exact H | right].
        specialize (H4 a eq_refl).
        split; [exact H1|]. split; [exact H2|]. split; [exact H3|]. split; [|split].
        -- intros a0 E. eapply fle_trans; [apply C, E | exact H4].
        -- intros [|k] y Hk Hy Hn; simpl in Hy.
           ++ injection Hy as <-. eapply fle_trans; eauto.
           ++ apply (H5 k y); [lia | assumption..].
        -- destruct H6 as [H6 | [(a1 & [= <-] & ->) | (k & y & Hk & Hy & Hn & ->)]].
           ++ left; exact H6.
           ++ destruct D as [-> | D]; [|right; left; exact D].
              right; right. exists O, x0. repeat split; [lia | assumption..].
           ++ right; right. exists (Datatypes.S k), y. repeat split; [lia | assumption..].
Qed.

Lemma accum_length (op : fl -> fl -> fl) (l : list fl) :
  forall acc, length (accum op acc l) = length l.
Proof.
  induction l as [|x l IH]; intros acc; simpl; [reflexivity|].
  destruct (isna x); simpl; rewrite IH; reflexivity.
Qed.

Lemma accum_all_nan (op : fl -> fl -> fl) (l : list fl) :
  all_nan l -> forall acc, accum op acc l = l.
Proof.
  induction 1 as [|x l -> H IH]; intros acc; simpl; [reflexivity|].
  rewrite IH. reflexivity.
Qed.

Lemma nth_error_same_length (A B : Type) (l : list A) (l' : list B) (i : nat) (x : A) :
  length l = length l' -> nth_error l i = Some x -> exists y, nth_error l' i = Some y.
Proof.
  intros L H. destruct (nth_error l' i) as [y|] eqn:E; [eauto|].
  apply nth_error_None in E.
  assert (i < length l)%nat by (apply nth_error_Some; congruence). lia.
Qed.

Lemma cumulative_all_nan (rets : list fl) :
  all_nan rets -> cumulative rets = rets /\ cummax (cumulative rets) = rets.
Proof.
  intros H. unfold cumulative, cumprod, cummax.
  assert (E : map (fadd fone) rets = rets).
  { induction H as [|x l -> H IH]; simpl; [reflexivity|]. rewrite IH. reflexivity. }
  rewrite E, !accum_all_nan by exact H. split; reflexivity.
Qed.

Lemma cumulative_start (rets : list fl) :
  starts_at_zero rets -> rets <> [] ->
  exists c0, nth_error (cumulative rets) 0 = Some (Fin c0) /\ c0 == 1.
Proof.
  destruct rets as [|r rest]; [congruence|].
  intros (q & -> & Hq) _. unfold cumulative, cumprod. simpl.
  exists (1 + q). split; [reflexivity|]. rewrite Hq. reflexivity.
Qed.

Section Drawdown.
Variable rets : list fl.
Hypothesis Start : starts_at_zero rets \/ all_nan rets.

Let cum := cumulative rets.
Let rm := cummax cum.
Let dd := drawdown_of cum.

Lemma running_max_bound (i : nat) (m : fl) :
  nth_error rm i = Some m ->
  (m = NaN /\ nth_error cum i = Some NaN) \/ fle fone m = true.
Proof.
  intros Hm. destruct Start as [S | S].
  - assert (Hne : rets <> []).
    { intros E. unfold rm, cum in Hm. rewrite E in Hm. destruct i; discriminate. }
    destruct (cumulative_start rets S Hne) as (c0 & H0 & Hc0).
    fold cum in H0.
    destruct (nth_error_same_length _ _ rm cum i m) as [x Hx];
      [apply accum_length | exact Hm |].
    destruct (cummax_spec cum None i x m) as [[H1 H2] | (H1 & H2 & H3 & H4 & H5 & H6)];
      [discriminate | exact Hx | exact Hm | |].
    + left. split; [exact H2|]. destruct x; try discriminate. exact Hx.
    + right. apply fle_trans with (Fin c0).
      * simpl. apply Qle_bool_iff. rewrite Hc0. apply Qle_refl.
      * apply (H5 O (Fin c0)); [lia | exact H0 | reflexivity].
  - destruct (cumulative_all_nan rets S) as [E1 E2]. fold cum in E1, E2. fold rm in E2.
    left. rewrite E1. rewrite E2 in Hm.
    assert (Em : m = NaN).
    { apply nth_error_In in Hm. unfold all_nan in S. rewrite Forall_forall in S. auto. }
    rewrite Em in Hm |- *. auto.
Qed.

Lemma running_max_finite (i : nat) (c : Q) :
  nth_error cum i = Some (Fin c) ->
  exists m, nth_error rm i = Some (Fin m) /\ 1 <= m /\ c <= m.
Proof.
  intros Hc.
  destruct (nth_error_same_length _ _ cum rm i (Fin c)) as [m' Hm];
    [symmetry; apply accum_length | exact Hc |].
  destruct (cummax_spec cum None i (Fin c) m') as [[H1 H2] | (H1 & H2 & H3 & H4 & H5 & H6)];
    [discriminate | exact Hc | exact Hm | discriminate |].
  destruct (cumprod_finite_prefix _ None i c Hc) as [_ Hfin].
  assert (Fm : finite m' = true).
  { destruct H6 as [-> | [(a & H & _) | (k & y & Hk & Hy & Hn & ->)]];
      [reflexivity | discriminate |].
    destruct (Hfin k y) as [-> | F]; [lia | exact Hy | discriminate | exact F]. }
  destruct m' as [| | |m]; try discriminate.
  exists m. split; [exact Hm|]. split; [|apply Qle_bool_iff, H3].
  destruct (running_max_bound i (Fin m) Hm) as [[H _] | H]; [discriminate|].
  apply Qle_bool_iff, H.
Qed.

Lemma drawdown_at_finite (i : nat) (c : Q) :
  nth_error cum i = Some (Fin c) ->
  exists m q,
    nth_error rm i = Some (Fin m) /\ nth_error dd i = Some (Fin q) /\
    1 <= m /\ c <= m /\ q <= 0 /\ (q == 0 <-> c == m).
Proof.
  intros Hc. destruct (running_max_finite i c Hc) as (m & Hm & H1 & H2).
  assert (Hm0 : Qeq_bool m 0 = false).
  { destruct (Qeq_bool m 0) eqn:E; [|reflexivity].
    apply Qeq_bool_iff in E. exfalso. lra. }
  exists m, ((c + - m) / m). split; [exact Hm|]. split.
  - unfold dd, drawdown_of. fold rm.
    rewrite (zip_with_nth_error _ _ _ _ _ _ _ _ _ Hc Hm). simpl.
    rewrite Hm0. reflexivity.
  - split; [exact H1|]. split; [exact H2|]. split.
    + apply Qle_shift_div_r; lra.
    + split; intros H.
      * assert (E : (c + - m) / m * m == c + - m) by (field; intros E; lra).
        rewrite H in E. lra.
      * unfold Qdiv. assert (E : c + - m == 0) by lra.
        rewrite E. apply Qmult_0_l.
Qed.
End Drawdown.

(** ** The first day of the two return series *)

Lemma fsum_zeros (l : list fl) :
  Forall (fun x => x = fzero) l -> exists s, fsum l = Fin s /\ s == 0.
Proof.
  unfold fsum, fzero. intros H.
  assert (G : forall acc, acc == 0 -> exists s, fold_left fadd l (Fin acc) = Fin s /\ s == 0).
  { induction H as [|x l -> H IH]; intros acc Hacc; simpl.
    - exists acc. auto.
    - apply IH. lra. }
  apply G. reflexivity.
Qed.

Lemma mean_zeros (l : list fl) :
  Forall (fun x => x = fzero \/ x = NaN) l ->
  mean l = NaN \/ exists q, mean l = Fin q /\ q == 0.
Proof.
  intros H. unfold mean.
  assert (Hv : Forall (fun x => x = fzero) (filter notna l)).
  { apply Forall_forall. intros x Hx. apply filter_In in Hx. destruct Hx as [Hx Hn].
    rewrite Forall_forall in H. destruct (H x Hx) as [-> | ->]; [reflexivity | discriminate]. }
  destruct (filter notna l) as [|x v] eqn:E; [left; reflexivity | right].
  destruct (fsum_zeros _ Hv) as (s & -> & Hs).
  unfold of_nat, fdiv.
  destruct (Qeq_bool (inject_Z (Z.of_nat (length (x :: v)))) 0) eqn:E0.
  - apply Qeq_bool_iff in E0. unfold Qeq in E0. simpl in E0. lia.
  - eexists. split; [reflexivity|]. unfold Qdiv. rewrite Hs. apply Qmult_0_l.
Qed.

Lemma mean_zeros_nonempty (l : list fl) :
  l <> [] -> Forall (fun x => x = fzero) l -> exists q, mean l = Fin q /\ q == 0.
Proof.
  intros Hne H.
  destruct (mean_zeros l) as [E | E]; [eapply Forall_impl; [|exact H]; auto | | exact E].
  unfold mean in E.
  assert (F : filter notna l = l).
  { clear E Hne. induction H as [|x l -> H IH]; simpl; [reflexivity|]. rewrite IH. reflexivity. }
  rewrite F in E. destruct l as [|x l]; [contradiction|].
  pose proof (Forall_inv H) as Hx. simpl in Hx. subst x.
  destruct (fsum_zeros _ H) as (s & Es & _). rewrite Es in E.
  unfold of_nat, fdiv in E.
  destruct (Qeq_bool (inject_Z (Z.of_nat (length (fzero :: l)))) 0) eqn:E0; [|discriminate].
  apply Qeq_bool_iff in E0. unfold Qeq in E0. simpl in E0. lia.
Qed.

Lemma first_row_returns (price : DataFrame) (d : Date) (r : list fl)
  (rest : list (Date * list fl)) :
  rows price = (d, r) :: rest ->
  exists rest', rows (daily_returns price) = (d, map (fun _ => fzero) r) :: rest'.
Proof.
  intros E. unfold daily_returns, fillna_zero, pct_change. cbn [rows].
  rewrite E. simpl. rewrite map_map. eauto.
Qed.

Lemma port_returns_start (price : DataFrame) (hs : list (Date * list ticker)) :
  starts_at_zero (port_returns (daily_returns price) hs (index price)).
Proof.
  unfold index. destruct (rows price) as [|[d r] rest] eqn:E; [exact I|].
  destruct (first_row_returns price d r rest E) as [rest' E'].
  simpl. unfold day_port_ret.
  destruct (holdings_at hs d) as [|t sel]; [exists 0; split; reflexivity|].
  destruct (mean_zeros (map (ret_at (daily_returns price) d) (t :: sel))) as [-> | (q & -> & Hq)].
  - apply Forall_forall. intros x Hx. apply in_map_iff in Hx.
    destruct Hx as (t' & <- & _). unfold ret_at, cell, row_at.
    rewrite E'. simpl. rewrite date_eqb_refl. simpl.
    destruct (index_of t' _) as [j|]; [|auto].
    destruct (nth_error (map (fun _ => fzero) r) j) as [v|] eqn:Ev; [|auto].
    left. apply nth_error_In, in_map_iff in Ev. destruct Ev as (_ & <- & _). reflexivity.
  - exists 0. split; reflexivity.
  - exists q. auto.
Qed.

Lemma bench_returns_start (price : DataFrame) :
  well_formed price ->
  starts_at_zero (bench_returns (daily_returns price)) \/
  all_nan (bench_returns (daily_returns price)).
Proof.
  intros WF. destruct (columns price) as [|c cols] eqn:Ec.
  - right. unfold all_nan, bench_returns. apply Forall_map, Forall_forall.
    intros [d r] H.
    destruct (daily_returns_well_formed price WF) as (_ & _ & L).
    rewrite Forall_forall in L. specialize (L _ H). simpl in L.
    change (columns (daily_returns price)) with (columns price) in L.
    rewrite Ec in L. destruct r; [reflexivity | discriminate].
  - left. unfold bench_returns.
    destruct (rows price) as [|[d r] rest] eqn:E.
    + unfold daily_returns, fillna_zero, pct_change. cbn [rows]. rewrite E. exact I.
    + destruct (first_row_returns price d r rest E) as [rest' ->]. simpl.
      apply mean_zeros_nonempty.
      * destruct WF as (_ & _ & L). rewrite E in L.
        pose proof (Forall_inv L) as Lr. simpl in Lr. rewrite Ec in Lr.
        destruct r; [discriminate | simpl; congruence].
      * apply Forall_map, Forall_forall. reflexivity.
Qed.

(** ** The table built by [__init__] is well formed *)

Lemma select_length (A B : Type) (m : list bool) (l : list A) (l' : list B) :
  length l = length l' -> length (select m l) = length (select m l').
Proof.
  revert l l'. induction m as [|b m IH]; intros [|x l] [|y l']; simpl;
    try discriminate; try reflexivity.
  intros [= H]. destruct b; simpl; rewrite (IH l l' H); reflexivity.
Qed.

Lemma select_nodup (A : Type) (m : list bool) (l : list A) :
  NoDup l -> NoDup (select m l).
Proof.
  intros ND. revert m. induction ND as [|x l Hn ND IH]; intros [|b m]; simpl;
    try constructor.
  destruct b; [|apply IH].
  constructor; [|apply IH].
  intros H. apply select_In in H. destruct H as [j [H _]].
  apply Hn. eapply nth_error_In, H.
Qed.

Lemma init_well_formed (raw : DataFrame) :
  well_formed raw -> well_formed (prices (init raw)).
Proof.
  intros WF. split; [|split].
  - rewrite init_index. eapply Permutation_NoDup; [|exact (proj1 WF)].
    symmetry. apply Permutation_map, sort_rows_perm.
  - unfold init, dropna_cols; simpl. apply select_nodup, WF.
  - unfold init, dropna_cols; simpl. apply Forall_map, Forall_forall.
    intros [d r] H. simpl. apply select_length.
    pose proof (ffill_rows_length (length (columns raw)) []
                  (sort_rows (rows raw)) (sorted_rows_length raw WF)) as L.
    rewrite Forall_forall in L. exact (L _ H).
Qed.

Lemma zero_price_raw_well_formed : well_formed zero_price_raw.
Proof.
  unfold well_formed, zero_price_raw, index; simpl.
  split; [nodup_dates|]. split; [nodup_dates|].
  repeat constructor.
Defined.

Example zero_price_report :
  run_frame (init zero_price_raw) sample_scores 5 Monthly =
  mkReport
    [mkDate 2020 1 31; mkDate 2020 2 3; mkDate 2020 2 4]
    [Fin 0; Fin (-1); PInf]
    [Fin 0; Fin (-1); PInf]
    [Fin 1; Fin 0; NaN]
    [Fin 1; Fin 0; NaN]
    [ (mkDate 2020 1 31, ["A"]); (mkDate 2020 2 3, ["A"]);
      (mkDate 2020 2 4, ["A"]) ]%string
    [Fin 0; Fin (-1); NaN]
    [Fin 0; Fin (-1); NaN].
Proof. vm_compute. reflexivity. Qed.

(** C8 (as stated): every drawdown value would be <= 0.  With a price that
    falls to zero and comes back, the return of the last day is +inf, the
    cumulative value 0 * inf is NaN, and so is the drawdown of that day. *)
Lemma drawdown_not_always_nonpositive :
  ~ (forall (raw : DataFrame) (vs : list (ticker * ScoreTuple)) (top_n : Z) (f : Freq),
        well_formed raw ->
        let df := run_frame (init raw) vs top_n f in
        Forall (fun q => fle q fzero = true) (portfolio_drawdown df) /\
        Forall (fun q => fle q fzero = true) (benchmark_drawdown df)).
Proof.
  intros H.
  destruct (H zero_price_raw sample_scores 5%Z Monthly zero_price_raw_well_formed)
    as [_ HB].
  rewrite zero_price_report in HB. simpl in HB.
  rewrite Forall_forall in HB. specialize (HB NaN). simpl in HB.
  assert (E : false = true) by (apply HB; auto).
  discriminate E.
Qed.

(** C8 (amended). On every date on which the cumulative value is finite,
    the running maximum is finite and at least 1, the drawdown is a finite
    number <= 0, and it is 0 exactly when the cumulative value equals its
    running maximum; for the portfolio and for the benchmark alike. *)
Theorem drawdown_nonpositive_when_finite (raw : DataFrame)
  (vs : list (ticker * ScoreTuple)) (top_n : Z) (f : Freq) :
  well_formed raw ->
  let df := run_frame (init raw) vs top_n f in
  (forall i c,
      nth_error (cum_portfolio df) i = Some (Fin c) ->
      exists m q,
        nth_error (cummax (cum_portfolio df)) i = Some (Fin m) /\
        nth_error (portfolio_drawdown df) i = Some (Fin q) /\
        1 <= m /\ c <= m /\ q <= 0 /\ (q == 0 <-> c == m)) /\
  (forall i c,
      nth_error (cum_benchmark df) i = Some (Fin c) ->
      exists m q,
        nth_error (cummax (cum_benchmark df)) i = Some (Fin m) /\
        nth_error (benchmark_drawdown df) i = Some (Fin q) /\
        1 <= m /\ c <= m /\ q <= 0 /\ (q == 0 <-> c == m)).
Proof.
  intros WF df. split; intros i c Hc.
  - apply (drawdown_at_finite _ (or_introl (port_returns_start _ _)) i c Hc).
  - apply (drawdown_at_finite _ (bench_returns_start _ (init_well_formed raw WF)) i c Hc).
Qed.

Lemma drawdown_nonpositive_when_finite_witness :
  exists m q,
    nth_error (cummax (cum_benchmark
                 (run_frame (init zero_price_raw) sample_scores 5 Monthly))) 1%nat
      = Some (Fin m) /\
    nth_error (benchmark_drawdown
                 (run_frame (init zero_price_raw) sample_scores 5 Monthly)) 1%nat
      = Some (Fin q) /\
    1 <= m /\ 0 <= m /\ q <= 0 /\ (q == 0 <-> 0 == m).
Proof.
  apply (drawdown_nonpositive_when_finite zero_price_raw sample_scores 5 Monthly
           zero_price_raw_well_formed).
  rewrite zero_price_report. reflexivity.
Defined.

(** C10 (as stated): the running maximum would be >= 1 on every date of a
    non-empty table.  On the same table the cumulative value of the last
    day is NaN and [cummax] leaves NaN at that position. *)
Lemma running_max_not_always_ge_one :
  ~ (forall (raw : DataFrame) (vs : list (ticker * ScoreTuple)) (top_n : Z) (f : Freq),
        well_formed raw -> rows raw <> [] -> columns raw <> [] ->
        let df := run_frame (init raw) vs top_n f in
        Forall (fun m => fle fone m = true) (cummax (cum_portfolio df)) /\
        Forall (fun m => fle fone m = true) (cummax (cum_benchmark df))).
Proof.
  intros H.
  destruct (H zero_price_raw sample_scores 5%Z Monthly zero_price_raw_well_formed)
    as [HP _]; [discriminate | discriminate |].
  rewrite zero_price_report in HP. simpl in HP.
  rewrite Forall_forall in HP. specialize (HP NaN). simpl in HP.
  assert (E : false = true) by (apply HP; auto).
  discriminate E.
Qed.

Lemma ge_one_nonzero (m : fl) : fle fone m = true -> ~ feq m fzero.
Proof.
  destruct m as [| | |q]; simpl; try discriminate; auto.
  intros H E. apply Qle_bool_iff in H. lra.
Qed.

(** C10 (amended). The portfolio's cumulative series starts at 1, and so
    does the benchmark's when the table has a column.  On every date the
    running maximum of either series is >= 1, or it is NaN because the
    cumulative value of that date is NaN; it is never zero, so no drawdown
    division is a division by zero. *)
Theorem drawdown_division_safe (raw : DataFrame)
  (vs : list (ticker * ScoreTuple)) (top_n : Z) (f : Freq) :
  well_formed raw ->
  let df := run_frame (init raw) vs top_n f in
  (forall i m,
      nth_error (cummax (cum_portfolio df)) i = Some m ->
      ~ feq m fzero /\
      ((m = NaN /\ nth_error (cum_portfolio df) i = Some NaN) \/ fle fone m = true)) /\
  (forall i m,
      nth_error (cummax (cum_benchmark df)) i = Some m ->
      ~ feq m fzero /\
      ((m = NaN /\ nth_error (cum_benchmark df) i = Some NaN) \/ fle fone m = true)) /\
  (report_index df <> [] ->
   exists c0, nth_error (cum_portfolio df) 0 = Some (Fin c0) /\ c0 == 1) /\
  (report_index df <> [] -> columns (prices (init raw)) <> [] ->
   exists c0, nth_error (cum_benchmark df) 0 = Some (Fin c0) /\ c0 == 1).
Proof.
  intros WF df.
  pose proof (port_returns_start (prices (init raw))
                (holdings_series (prices (init raw)) vs top_n f)) as SP.
  pose proof (bench_returns_start _ (init_well_formed raw WF)) as SB.
  assert (G : forall rets, starts_at_zero rets \/ all_nan rets ->
              forall i m, nth_error (cummax (cumulative rets)) i = Some m ->
              ~ feq m fzero /\
              ((m = NaN /\ nth_error (cumulative rets) i = Some NaN) \/ fle fone m = true)).
  { intros rets S i m Hm.
    destruct (running_max_bound rets S i m Hm) as [[-> H] | H].
    - split; [simpl; auto | left; auto].
    - split; [apply ge_one_nonzero, H | right; exact H]. }
  split; [|split; [|split]].
  - intros i m Hm. apply (G _ (or_introl SP) i m Hm).
  - intros i m Hm. apply (G _ SB i m Hm).
  - intros Hne. apply cumulative_start; [exact SP|].
    unfold port_returns. intros E. apply Hne.
    apply map_eq_nil in E. apply map_eq_nil in E. exact E.
  - intros Hne Hcol.
    destruct (rows (prices (init raw))) as [|[d r] rest] eqn:E.
    + exfalso. apply Hne. change (index (prices (init raw)) = []).
      unfold index. rewrite E. reflexivity.
    + destruct (first_row_returns _ d r rest E) as [rest' E'].
      destruct (mean_zeros_nonempty (map (fun _ : fl => fzero) r)) as (q & Hq & Hq0).
      * destruct (init_well_formed raw WF) as (_ & _ & L). rewrite E in L.
        apply Forall_inv in L. cbn [snd] in L.
        destruct r; [|discriminate].
        destruct (columns (prices (init raw))); [contradiction | discriminate L].
      * apply Forall_map, Forall_forall. reflexivity.
      * apply cumulative_start.
        -- unfold bench_returns. rewrite E'. simpl. rewrite Hq. eauto.
        -- unfold bench_returns. rewrite E'. discriminate.
Qed.

Lemma drawdown_division_safe_witness :
  exists c0,
    nth_error (cum_portfolio (run_frame (init zero_price_raw) sample_scores 5 Monthly)) 0
      = Some (Fin c0) /\ c0 == 1.
Proof.
  apply (drawdown_division_safe zero_price_raw sample_scores 5 Monthly
           zero_price_raw_well_formed); vm_compute; discriminate.
Defined.

(** ** Summary statistics *)

Lemma nullable_not_nan (x : fl) : nullable x <> Some NaN.
Proof. destruct x; simpl; discriminate. Qed.

(** C7. The Sharpe entry is the annualised excess return over the
    annualised volatility when the standard deviation of the daily returns
    is > 0 and null otherwise, and [annual_return], [annual_vol], [sharpe]
    and [max_drawdown] are never a numeric NaN.  [final_cum_return] is
    guarded by the length of the series only: on the table whose price falls
    to zero and comes back it is a numeric NaN, not null. *)
Theorem stats_null_policy (np_sqrt : fl -> fl) (series_std : list fl -> fl)
  (fpow : fl -> fl -> fl) :
  (forall self vs top_n f rf,
      let res := run_strategy np_sqrt series_std fpow self vs top_n f rf in
      let port_ret := portfolio_return (fst res) in
      let st := snd res in
      sharpe st =
        (if flt fzero (series_std port_ret)
         then nullable (fdiv (fsub (fmul (mean port_ret) (Fin 252)) rf)
                             (fmul (series_std port_ret) (np_sqrt (Fin 252))))
         else None) /\
      annual_return st <> Some NaN /\ annual_vol st <> Some NaN /\
      sharpe st <> Some NaN /\ max_drawdown st <> Some NaN) /\
  final_cum_return
    (snd (run_strategy np_sqrt series_std fpow (init zero_price_raw) sample_scores
            5 Monthly (Fin (4 # 100)))) = Some NaN.
Proof.
  split.
  - intros self vs top_n f rf res port_ret st.
    split; [|repeat split; apply nullable_not_nan].
    unfold st, port_ret, res, run_strategy, stats_of, sharpe_of.
    cbn [snd fst sharpe].
    destruct (flt fzero _); reflexivity.
  - unfold run_strategy, stats_of. cbn [snd final_cum_return].
    rewrite zero_price_report. reflexivity.
Qed.

(** ** The result as a function of the inputs *)

Lemma score_of_ext (vs vs' : list (ticker * ScoreTuple)) :
  (forall t, dict_get String.eqb vs t = dict_get String.eqb vs' t) ->
  forall t, score_of vs t = score_of vs' t.
Proof. intros H t. unfold score_of. rewrite H. reflexivity. Qed.

Lemma build_scores_ext (vs vs' : list (ticker * ScoreTuple)) (cols : list ticker) :
  (forall t, dict_get String.eqb vs t = dict_get String.eqb vs' t) ->
  build_scores vs cols = build_scores vs' cols.
Proof.
  intros H. unfold build_scores.
  assert (G : forall m : list (ticker * fl),
             fold_left (fun m t => dict_set String.eqb m t (score_of vs t)) cols m =
             fold_left (fun m t => dict_set String.eqb m t (score_of vs' t)) cols m).
  { induction cols as [|c cols IH]; intros m; simpl; [reflexivity|].
    rewrite (score_of_ext vs vs' H c). apply IH. }
  apply G.
Qed.

(** C9. The per-day table and the statistics are a function of the price
    table, the scores, [top_n], the frequency and the risk-free rate: two
    score dictionaries with the same content, whatever their insertion
    order, give the same table and the same statistics. *)
Theorem run_strategy_deterministic (np_sqrt : fl -> fl) (series_std : list fl -> fl)
  (fpow : fl -> fl -> fl) (raw : DataFrame) (vs vs' : list (ticker * ScoreTuple))
  (top_n : Z) (f : Freq) (rf : fl) :
  (forall t, dict_get String.eqb vs t = dict_get String.eqb vs' t) ->
  run_strategy np_sqrt series_std fpow (init raw) vs top_n f rf =
  run_strategy np_sqrt series_std fpow (init raw) vs' top_n f rf.
Proof.
  intros H. unfold run_strategy, run_frame, holdings_series, holdings_map_of.
  rewrite (build_scores_ext vs vs' _ H). reflexivity.
Qed.

Lemma run_strategy_deterministic_witness :
  run_strategy sample_sqrt sample_std sample_pow (init sample_raw) sample_scores 1
    Monthly (Fin (4 # 100)) =
  run_strategy sample_sqrt sample_std sample_pow (init sample_raw)
    sample_scores_reordered 1 Monthly (Fin (4 # 100)).
Proof.
  apply (run_strategy_deterministic sample_sqrt sample_std sample_pow sample_raw
           sample_scores sample_scores_reordered 1 Monthly (Fin (4 # 100))).
  intros t. unfold sample_scores, sample_scores_reordered. cbn [dict_get].
  destruct (String.eqb "B" t) eqn:EB; destruct (String.eqb "A" t) eqn:EA;
    destruct (String.eqb "C" t) eqn:EC; try reflexivity;
    repeat match goal with
           | H : String.eqb _ _ = true |- _ => apply String.eqb_eq in H
           end; subst; discriminate.
Defined.

(** * Further properties of the engine *)

(** ** The price table keeps every date *)

(** X1. Whatever the raw frame, the index of the price table is the raw
    index in ascending order: sorting only reorders the rows, and neither
    the fill nor the column drop removes or adds one. *)
Theorem init_keeps_dates (raw : DataFrame) :
  Permutation (index (prices (init raw))) (index raw) /\
  StronglySorted date_le (index (prices (init raw))) /\
  dates (init raw) = index (prices (init raw)).
Proof.
  split; [|split].
  - rewrite init_index. apply Permutation_map, sort_rows_perm.
  - apply init_index_sorted.
  - reflexivity.
Qed.

(** ** Forward fill carries the last observation *)

Lemma fill_row_value (prev r : list fl) (j : nat) :
  (length prev <= length r)%nat ->
  nth j (fill_row prev r) NaN =
  if isna (nth j r NaN) then nth j prev NaN else nth j r NaN.
Proof.
  intros L. destruct (Nat.lt_ge_cases j (length r)) as [Hj | Hj].
  - apply fill_row_nth, Hj.
  - rewrite !nth_overflow; rewrite ?fill_row_length; try lia. reflexivity.
Qed.

Lemma ffill_rows_value (n : nat) (rs : list (Date * list fl)) :
  StronglySorted row_le rs ->
  NoDup (map fst rs) ->
  Forall (fun r => length (snd r) = n) rs ->
  forall (prev : list fl) (d : Date) (r : list fl) (j : nat),
    (length prev <= n)%nat ->
    In (d, r) (ffill_rows prev rs) ->
    notna (nth j r NaN) = true ->
    (nth j r NaN = nth j prev NaN /\
     forall d' r', In (d', r') rs -> date_le d' d -> isna (nth j r' NaN) = true) \/
    (exists d' r',
        In (d', r') rs /\ date_le d' d /\ nth j r' NaN = nth j r NaN /\
        forall d'' r'', In (d'', r'') rs -> date_lt d' d'' -> date_le d'' d ->
                        isna (nth j r'' NaN) = true).
Proof.
  induction 1 as [|[d0 r0] rs S IH F0]; intros ND F prev d r j L HIn Hv.
  - destruct HIn.
  - simpl in ND. apply NoDup_cons_iff in ND. destruct ND as [Hn ND'].
    pose proof (Forall_inv F) as Hl. pose proof (Forall_inv_tail F) as F'.
    simpl in Hl.
    assert (Hhead : forall d' r', In (d', r') rs -> date_lt d0 d').
    { intros d' r' H. rewrite Forall_forall in F0. specialize (F0 _ H).
      unfold row_le in F0. simpl in F0.
      apply date_le_lt_or_eq in F0. destruct F0 as [F0 | F0]; [exact F0|].
      exfalso. apply Hn. subst. change d' with (fst (d', r')). apply in_map, H. }
    simpl in HIn. destruct HIn as [HIn | HIn].
    + inversion HIn; subst d r. clear HIn.
      rewrite fill_row_value in Hv |- * by lia.
      destruct (isna (nth j r0 NaN)) eqn:E0.
      * left. split; [reflexivity|].
        intros d' r' [H | H] Hle; [inversion H; subst; exact E0|].
        exfalso. eapply date_lt_irrefl, date_lt_le_trans; [apply (Hhead _ _ H) | exact Hle].
      * right. exists d0, r0. split; [left; reflexivity|].
        split; [apply date_le_refl|]. split; [reflexivity|].
        intros d'' r'' [H | H] Hlt Hle.
        -- inversion H; subst. exfalso. eapply date_lt_irrefl, Hlt.
        -- exfalso. eapply date_lt_irrefl, date_lt_le_trans; [apply (Hhead _ _ H) | exact Hle].
    + assert (Hd : date_lt d0 d).
      { assert (Hd : In d (map fst rs)).
        { rewrite <- (ffill_rows_index (fill_row prev r0)).
          change d with (fst (d, r)). apply in_map; exact HIn. }
        apply In_index_row in Hd. destruct Hd as [r1 Hr1]. eapply Hhead, Hr1. }
      destruct (IH ND' F' (fill_row prev r0) d r j) as
        [[E Hall] | (d' & r' & H1 & H2 & H3 & H4)];
        [rewrite fill_row_length; lia | exact HIn | exact Hv | |].
      * rewrite fill_row_value in E by lia.
        destruct (isna (nth j r0 NaN)) eqn:E0.
        -- left. split; [exact E|].
           intros d' r' [H | H] Hle; [inversion H; subst; exact E0 | eauto].
        -- right. exists d0, r0. split; [left; reflexivity|].
           split; [apply date_lt_le, Hd|]. split; [symmetry; exact E|].
           intros d'' r'' [H | H] Hlt Hle.
           ++ inversion H; subst. exfalso. eapply date_lt_irrefl, Hlt.
           ++ eauto.
      * right. exists d', r'. split; [right; exact H1|].
        split; [exact H2|]. split; [exact H3|].
        intros d'' r'' [H | H] Hlt Hle.
        -- inversion H; subst. exfalso.
           eapply date_lt_irrefl, date_lt_trans; [apply (Hhead _ _ H1) | exact Hlt].
        -- eauto.
Qed.

(** X2. A non-null entry of the price table is the ticker's most recent
    observation: the raw value of the latest date at or before it on which
    the raw column is not NaN. *)
Theorem filled_value_is_last_observation (raw : DataFrame) (d : Date) (t : ticker) (v : fl) :
  well_formed raw ->
  cell (prices (init raw)) d t = Some v -> notna v = true ->
  exists d',
    date_le d' d /\ cell raw d' t = Some v /\
    forall d'' w, date_lt d' d'' -> date_le d'' d ->
                  cell raw d'' t = Some w -> isna w = true.
Proof.
  intros WF Hc Hv.
  assert (Ht : In t (columns (prices (init raw)))).
  { unfold cell in Hc. destruct (row_at _ d); [|discriminate].
    destruct (index_of t (columns (prices (init raw)))) eqn:E; [|discriminate].
    apply index_of_In. eauto. }
  apply (table_columns raw WF) in Ht. destruct Ht as (j & Hj & Hm).
  assert (Hd : In d (index raw)).
  { apply (filled_index_In raw). rewrite <- (table_index raw).
    unfold cell in Hc. destruct (row_at (rows (prices (init raw))) d) eqn:E; [|discriminate].
    apply row_at_In in E. change d with (fst (d, l)). apply in_map, E. }
  apply (filled_index_In raw), In_index_row in Hd. destruct Hd as [r Hr].
  rewrite (table_cell raw WF d r t j Hr Hj Hm) in Hc. injection Hc as <-.
  destruct (ffill_rows_value (length (columns raw)) (sort_rows (rows raw))
              (sort_rows_sorted (rows raw)) (sorted_rows_nodup raw WF)
              (sorted_rows_length raw WF) [] d r j (Nat.le_0_l _) Hr Hv)
    as [[E _] | (d' & r' & H1 & H2 & H3 & H4)].
  - rewrite E in Hv. destruct j; discriminate.
  - exists d'. split; [exact H2|]. split.
    + apply (raw_cell raw WF). exists r', j.
      split; [apply (sorted_rows_In raw), H1|]. split; [exact Hj|].
      rewrite <- H3. apply nth_error_notna. rewrite H3. exact Hv.
    + intros d'' w Hlt Hle Hw. apply (raw_cell raw WF) in Hw.
      destruct Hw as (r'' & j' & Hr'' & Hj' & Hn).
      assert (j' = j) by congruence. subst j'.
      rewrite <- (nth_error_nth _ _ NaN Hn).
      apply (H4 d'' r''); [apply (sorted_rows_In raw), Hr'' | assumption..].
Qed.

Lemma filled_value_is_last_observation_witness :
  exists d',
    date_le d' (mkDate 2020 1 6) /\ cell sample_raw d' "A"%string = Some (Fin 5) /\
    forall d'' w, date_lt d' d'' -> date_le d'' (mkDate 2020 1 6) ->
                  cell sample_raw d'' "A"%string = Some w -> isna w = true.
Proof.
  apply (filled_value_is_last_observation sample_raw (mkDate 2020 1 6) "A"%string
           (Fin 5) sample_raw_well_formed); reflexivity.
Defined.

(** ** What can be held *)

Lemma slice_to_In (A : Type) (l : list A) (n : Z) (x : A) :
  In x (slice_to l n) -> In x l.
Proof. unfold slice_to. destruct (n <? 0)%Z; apply In_firstn. Qed.

Lemma selection_eligible (price : DataFrame) (scores : list (ticker * fl))
  (top_n : Z) (d : Date) (t : ticker) :
  In t (selection price scores top_n d) ->
  In t (columns price) /\ has_score scores t = true.
Proof.
  intros H. apply slice_to_In in H.
  apply (Permutation_in _ (sorted_by_perm _ _)) in H.
  apply filter_In in H. destruct H as [H1 H2]. split; [|exact H2].
  rewrite avail_select in H1. apply select_In in H1.
  destruct H1 as [j [H1 _]]. eapply nth_error_In, H1.
Qed.

Lemma holdings_spec_cases (price : DataFrame) (vs : list (ticker * ScoreTuple))
  (top_n : Z) (f : Freq) (d : Date) :
  let hm := holdings_map_of price vs top_n f in
  holdings_spec hm d = [] \/
  exists e, In e (dict_keys hm) /\ date_le e d /\
            holdings_spec hm d =
            selection price (build_scores vs (columns price)) top_n e.
Proof.
  intros hm. unfold holdings_spec.
  destruct (latest_le (dict_keys hm) d) as [e|] eqn:E; [right | left; reflexivity].
  apply latest_le_Some in E. destruct E as (E1 & E2 & _).
  exists e. split; [exact E1|]. split; [exact E2|].
  unfold dict_get_default, hm, holdings_map_of.
  rewrite holdings_map_value by exact E1. reflexivity.
Qed.

Lemma holdings_at_absent (hs : list (Date * list ticker)) (d : Date) :
  ~ In d (map fst hs) -> holdings_at hs d = [].
Proof.
  intros H. unfold holdings_at, dict_get_default.
  destruct (dict_get date_eqb hs d) as [v|] eqn:E; [|reflexivity].
  exfalso. apply H. apply (dict_get_keys _ _ _ date_eqb_eq). eauto.
Qed.

(** X3. Whatever the inputs (any [top_n], any scores), a ticker held on a
    date is a column of the price table and has a non-NaN score; so on a
    trading date [returns.loc[dt, sel]] finds every label it asks for and
    the values it reads are not NaN. *)
Theorem held_tickers_are_columns (raw : DataFrame)
  (vs : list (ticker * ScoreTuple)) (top_n : Z) (f : Freq) (d : Date) (t : ticker) :
  let price := prices (init raw) in
  let hs := holdings_series price vs top_n f in
  well_formed raw ->
  In t (holdings_at hs d) ->
  In t (columns price) /\ notna (score_of vs t) = true /\
  exists v, cell (daily_returns price) d t = Some v /\ notna v = true.
Proof.
  intros price hs WF Ht.
  assert (Hs : hs = map (fun dt => (dt, holdings_spec (holdings_map_of price vs top_n f) dt))
                        (index price)) by apply holdings_series_spec.
  assert (Hd : In d (index price)).
  { destruct (existsb (date_eqb d) (index price)) eqn:Ex;
      [apply existsb_date_In, Ex|].
    rewrite holdings_at_absent in Ht; [destruct Ht|].
    rewrite Hs, map_map. simpl. rewrite map_id.
    intros H. apply existsb_date_In in H. congruence. }
  rewrite Hs, holdings_at_map in Ht by exact Hd.
  destruct (holdings_spec_cases price vs top_n f d) as [E | (e & _ & _ & E)];
    rewrite E in Ht; [destruct Ht|].
  apply selection_eligible in Ht. destruct Ht as [H1 H2].
  split; [exact H1|]. split.
  - rewrite has_score_build in H2 by exact H1. exact H2.
  - exists (ret_at (daily_returns price) d t).
    apply ret_at_cell; [apply init_well_formed, WF | exact Hd | exact H1].
Qed.

Lemma held_tickers_are_columns_witness :
  In "A"%string (columns (prices (init sample_raw))) /\
  notna (score_of sample_scores "A"%string) = true /\
  exists v, cell (daily_returns (prices (init sample_raw))) (mkDate 2020 1 6) "A"%string
            = Some v /\ notna v = true.
Proof.
  apply (held_tickers_are_columns sample_raw sample_scores 1 Monthly).
  - exact sample_raw_well_formed.
  - simpl. left. reflexivity.
Defined.

(** ** A [top_n] that is not positive *)

(** X4. The slice [ranked[:top_n]] never fails: with [top_n = 0] nothing is
    selected, and with a negative [top_n] the selection is the ranking
    without its last [-top_n] entries (nothing, when the ranking is that
    short). *)
Theorem selection_nonpositive_top_n (price : DataFrame) (scores : list (ticker * fl))
  (top_n : Z) (d : Date) :
  (top_n < 0)%Z ->
  let r := ranked price scores d in
  selection price scores 0 d = [] /\
  exists dropped,
    r = selection price scores top_n d ++ dropped /\
    Z.of_nat (length dropped) = Z.min (Z.of_nat (length r)) (- top_n).
Proof.
  intros Hn r. split; [reflexivity|].
  unfold selection, slice_to. fold r.
  destruct (Z.ltb_spec top_n 0) as [L | L]; [|lia].
  exists (skipn (Z.to_nat (Z.of_nat (length r) + top_n)) r).
  split; [symmetry; apply firstn_skipn|].
  rewrite length_skipn. lia.
Qed.

Lemma selection_nonpositive_top_n_witness :
  selection (prices (init sample_raw))
            (build_scores sample_scores (columns (prices (init sample_raw))))
            0 (mkDate 2020 1 3) = [] /\
  exists dropped,
    ranked (prices (init sample_raw))
           (build_scores sample_scores (columns (prices (init sample_raw))))
           (mkDate 2020 1 3) =
    selection (prices (init sample_raw))
              (build_scores sample_scores (columns (prices (init sample_raw))))
              (-1) (mkDate 2020 1 3) ++ dropped /\
    Z.of_nat (length dropped) =
    Z.min (Z.of_nat (length (ranked (prices (init sample_raw))
             (build_scores sample_scores (columns (prices (init sample_raw))))
             (mkDate 2020 1 3)))) (- (-1)).
Proof.
  apply (selection_nonpositive_top_n (prices (init sample_raw))
           (build_scores sample_scores (columns (prices (init sample_raw))))
           (-1) (mkDate 2020 1 3)).
  lia.
Defined.

(** ** Calendar periods and the date order *)

Lemma date_lt_lex (a b : Date) :
  date_lt a b <->
  (year a < year b \/ (year a = year b /\ (month a < month b \/
     (month a = month b /\ day a < day b))))%Z.
Proof. unfold date_lt. rewrite date_ltb_lt. apply date_cmp_lt. Qed.

Lemma month_number_mono (a b : Date) :
  valid_date a -> valid_date b -> date_le a b ->
  (month_number a <= month_number b)%Z.
Proof.
  intros [Ha _] [Hb _] H. apply date_le_lex in H. unfold month_number. lia.
Qed.

Lemma month_number_lt (a b : Date) :
  valid_date a -> valid_date b ->
  (month_number a < month_number b)%Z -> date_lt a b.
Proof.
  intros [Ha _] [Hb _] H. apply date_lt_lex. unfold month_number in H. lia.
Qed.

Lemma period_of_mono (f : Freq) (a b : Date) :
  valid_date a -> valid_date b -> date_le a b ->
  (period_of f a <= period_of f b)%Z.
Proof.
  intros Ha Hb H. unfold period_of.
  apply Z.div_le_mono; [destruct f; simpl; lia | apply month_number_mono; assumption].
Qed.

Lemma period_end_mono (f : Freq) (p q : Z) :
  (p <= q)%Z -> date_le (period_end f p) (period_end f q).
Proof.
  intros H. destruct (Z.eq_dec p q) as [-> | N]; [apply date_le_refl|].
  apply date_lt_le, month_number_lt; try apply period_end_valid.
  rewrite !period_end_month_number.
  destruct (months_per_cases f) as [-> | ->]; lia.
Qed.

Lemma sorted_first (d0 : Date) (idx : list Date) (x : Date) :
  StronglySorted date_le (d0 :: idx) -> In x (d0 :: idx) -> date_le d0 x.
Proof.
  intros S [<- | H]; [apply date_le_refl|].
  inversion S as [|? ? _ F]; subst. rewrite Forall_forall in F. auto.
Qed.

Lemma sorted_last (idx : list Date) (d0 : Date) :
  StronglySorted date_le idx -> forall x, In x idx -> date_le x (last idx d0).
Proof.
  induction 1 as [|y idx S IH F]; intros x H; [destruct H|].
  destruct idx as [|z idx].
  - destruct H as [<- | []]. apply date_le_refl.
  - change (last (y :: z :: idx) d0) with (last (z :: idx) d0).
    destruct H as [<- | H]; [|apply IH, H].
    eapply date_le_trans; [|apply IH; left; reflexivity].
    rewrite Forall_forall in F. apply F. left; reflexivity.
Qed.

Lemma last_In (idx : list Date) (d0 : Date) : idx <> [] -> In (last idx d0) idx.
Proof.
  induction idx as [|y idx IH]; [congruence|]. intros _.
  destruct idx as [|z idx]; [left; reflexivity|].
  right. apply IH. discriminate.
Qed.

Section Schedule.
Variables (raw : DataFrame) (f : Freq).
Hypothesis Valid : Forall valid_date (index raw).

Let idx := index (prices (init raw)).

Lemma table_dates_valid (x : Date) : In x idx -> valid_date x.
Proof.
  intros H. rewrite Forall_forall in Valid. apply Valid.
  eapply Permutation_in; [|exact H].
  unfold idx. rewrite init_index. apply Permutation_map, sort_rows_perm.
Qed.

(** The period end of every trading day is a candidate boundary. *)
Lemma period_end_is_candidate (x : Date) :
  In x idx -> In (period_end f (period_of f x)) (resample_index f idx).
Proof.
  intros Hx. apply resample_index_In.
  destruct idx as [|d0 rest] eqn:E; [destruct Hx|].
  exists d0. split; [reflexivity|].
  exists (period_of f x). split; [reflexivity|].
  assert (S : StronglySorted date_le (d0 :: rest))
    by (rewrite <- E; apply init_index_sorted).
  assert (Hl : In (last (d0 :: rest) d0) idx)
    by (rewrite E; apply last_In; discriminate).
  assert (H0 : In d0 idx) by (rewrite E; left; reflexivity).
  rewrite <- E in Hx.
  split; apply period_of_mono; auto using table_dates_valid.
  - apply (sorted_first d0 rest x S). rewrite <- E. exact Hx.
  - apply sorted_last; [exact S | rewrite <- E; exact Hx].
Qed.

Lemma candidate_resolves (c : Date) :
  In c (resample_index f idx) -> exists e, effective_date idx c = Some e.
Proof.
  intros Hc. apply resample_index_In in Hc.
  destruct Hc as (d0 & Hd0 & p & -> & Hp).
  pose proof (effective_date_resolved idx (period_end f p) (init_index_sorted raw)) as R.
  destruct (effective_date idx (period_end f p)) as [e|]; [eauto|].
  exfalso. simpl in R.
  assert (H0 : In d0 idx) by (destruct idx; [discriminate | injection Hd0 as ->; left; reflexivity]).
  apply (date_lt_irrefl d0). eapply date_le_lt_trans; [|apply R, H0].
  eapply date_le_trans; [apply (period_end_is_last_day f (period_of f d0));
                         [apply table_dates_valid, H0 | reflexivity]|].
  apply period_end_mono. lia.
Qed.

Lemma key_is_last_of_period (c e : Date) :
  In c (resample_index f idx) -> effective_date idx c = Some e ->
  last_trading_day_of_period f idx e.
Proof.
  intros Hc He.
  pose proof (effective_date_resolved idx c (init_index_sorted raw)) as R.
  rewrite He in R. simpl in R. destruct R as (R1 & R2 & R3).
  split; [exact R1|]. intros y Hy Hp. apply R3; [exact Hy|].
  apply resample_index_In in Hc. destruct Hc as (d0 & _ & p & -> & _).
  assert (Hep : (period_of f e <= p)%Z).
  { pose proof (period_of_mono f e (period_end f p) (table_dates_valid e R1)
                  (period_end_valid f p) R2) as M.
    rewrite period_of_period_end in M. exact M. }
  eapply date_le_trans; [apply (period_end_is_last_day f (period_of f y));
                         [apply table_dates_valid, Hy | reflexivity]|].
  apply period_end_mono. lia.
Qed.

Lemma last_of_period_is_key (e : Date) :
  last_trading_day_of_period f idx e ->
  effective_date idx (period_end f (period_of f e)) = Some e.
Proof.
  intros [He Hlast].
  destruct (candidate_resolves _ (period_end_is_candidate e He)) as [e' E].
  rewrite E. f_equal.
  pose proof (effective_date_resolved idx (period_end f (period_of f e))
                (init_index_sorted raw)) as R.
  rewrite E in R. simpl in R. destruct R as (R1 & R2 & R3).
  assert (Hle : date_le e e').
  { apply R3; [exact He|].
    apply period_end_is_last_day; [apply table_dates_valid, He | reflexivity]. }
  apply date_le_antisym; [|exact Hle].
  apply Hlast; [exact R1|].
  apply Z.le_antisymm.
  - pose proof (period_of_mono f e' (period_end f (period_of f e))
                  (table_dates_valid e' R1) (period_end_valid f _) R2) as M.
    rewrite period_of_period_end in M. exact M.
  - apply period_of_mono; auto using table_dates_valid.
Qed.
End Schedule.

(** X5. With Gregorian dates in the index, the rebalance dates are exactly
    the last trading days of the calendar periods (months or quarters) that
    have a trading day. *)
Theorem rebalance_dates_are_period_last_days (raw : DataFrame)
  (vs : list (ticker * ScoreTuple)) (top_n : Z) (f : Freq) (e : Date) :
  Forall valid_date (index raw) ->
  let price := prices (init raw) in
  In e (dict_keys (holdings_map_of price vs top_n f)) <->
  last_trading_day_of_period f (index price) e.
Proof.
  intros Valid price. unfold holdings_map_of. rewrite holdings_map_keys. split.
  - intros (c & Hc & He). eapply key_is_last_of_period; eauto.
  - intros H. exists (period_end f (period_of f e)). split.
    + apply period_end_is_candidate; [exact Valid | apply H].
    + apply last_of_period_is_key; assumption.
Qed.

Lemma sample_dates_valid : Forall valid_date (index sample_raw).
Proof. repeat constructor; vm_compute; discriminate. Defined.

Lemma rebalance_dates_are_period_last_days_witness :
  In (mkDate 2020 1 6)
     (dict_keys (holdings_map_of (prices (init sample_raw)) sample_scores 1 Monthly)) <->
  last_trading_day_of_period Monthly (index (prices (init sample_raw))) (mkDate 2020 1 6).
Proof.
  exact (rebalance_dates_are_period_last_days sample_raw sample_scores 1 Monthly
           (mkDate 2020 1 6) sample_dates_valid).
Defined.

(** X6. With Gregorian dates in the index, every candidate boundary finds a
    trading day at or before it: the branch that skips a candidate is never
    taken, and the last trading day of the table is always a rebalance
    date. *)
Theorem every_candidate_resolves (raw : DataFrame)
  (vs : list (ticker * ScoreTuple)) (top_n : Z) (f : Freq) :
  Forall valid_date (index raw) ->
  let price := prices (init raw) in
  let idx := index price in
  (forall c, In c (resample_index f idx) -> effective_date idx c <> None) /\
  (forall d0, idx <> [] ->
              In (last idx d0) (dict_keys (holdings_map_of price vs top_n f))).
Proof.
  intros Valid price idx. split.
  - intros c Hc. destruct (candidate_resolves raw f Valid c Hc) as [e E].
    unfold idx, price. rewrite E. discriminate.
  - intros d0 Hne. unfold holdings_map_of. apply holdings_map_keys.
    assert (L : last_trading_day_of_period f idx (last idx d0)).
    { split; [apply last_In, Hne|].
      intros y Hy _. apply sorted_last; [apply init_index_sorted | exact Hy]. }
    exists (period_end f (period_of f (last idx d0))). split.
    + apply period_end_is_candidate; [exact Valid | apply L].
    + apply last_of_period_is_key; assumption.
Qed.

Lemma every_candidate_resolves_witness :
  In (last (index (prices (init sample_raw))) (mkDate 1970 1 1))
     (dict_keys (holdings_map_of (prices (init sample_raw)) sample_scores 1 Monthly)).
Proof.
  apply (every_candidate_resolves sample_raw sample_scores 1 Monthly sample_dates_valid).
  discriminate.
Defined.

(** ** Shape of the per-day table *)

(** X7. Every series of the per-day table has one entry per trading date,
    and the holdings are keyed by the trading dates in order; in
    particular an empty price table gives an empty table, not an error. *)
Theorem report_shape (self : Backtester) (vs : list (ticker * ScoreTuple))
  (top_n : Z) (f : Freq) :
  let df := run_frame self vs top_n f in
  let n := length (index (prices self)) in
  report_index df = index (prices self) /\
  map fst (holdings df) = index (prices self) /\
  length (portfolio_return df) = n /\ length (benchmark_return df) = n /\
  length (cum_portfolio df) = n /\ length (cum_benchmark df) = n /\
  length (portfolio_drawdown df) = n /\ length (benchmark_drawdown df) = n.
Proof.
  intros df n.
  assert (Hh : forall hm cur idx, map fst (project_holdings hm cur idx) = idx).
  { intros hm cur idx. revert cur.
    induction idx as [|d idx IH]; intros cur; simpl; [reflexivity|].
    rewrite IH. reflexivity. }
  assert (Hp : length (portfolio_return df) = n).
  { change (portfolio_return df)
      with (port_returns (daily_returns (prices self))
              (holdings_series (prices self) vs top_n f) (index (prices self))).
    unfold port_returns. rewrite !length_map. reflexivity. }
  assert (Hb : length (benchmark_return df) = n).
  { change (benchmark_return df) with (bench_returns (daily_returns (prices self))).
    unfold bench_returns. rewrite length_map.
    rewrite <- (length_map fst (rows (daily_returns (prices self)))).
    change (map fst (rows (daily_returns (prices self))))
      with (index (daily_returns (prices self))).
    rewrite daily_returns_index. reflexivity. }
  assert (Hc : forall rets, length (cumulative rets) = length rets).
  { intros rets. unfold cumulative, cumprod. rewrite accum_length, length_map. reflexivity. }
  assert (Hd : forall rets, length (drawdown_of (cumulative rets)) = length rets).
  { intros rets. unfold drawdown_of. rewrite zip_with_length.
    - apply Hc.
    - unfold cummax. rewrite accum_length. reflexivity. }
  split; [reflexivity|]. split; [apply Hh|].
  split; [exact Hp|]. split; [exact Hb|].
  split; [change (cum_portfolio df) with (cumulative (portfolio_return df));
          rewrite Hc; exact Hp|].
  split; [change (cum_benchmark df) with (cumulative (benchmark_return df));
          rewrite Hc; exact Hb|].
  split; [change (portfolio_drawdown df)
            with (drawdown_of (cumulative (portfolio_return df)));
          rewrite Hd; exact Hp|].
  change (benchmark_drawdown df) with (drawdown_of (cumulative (benchmark_return df))).
  rewrite Hd. exact Hb.
Qed.

(** ** The cumulative series as a running product *)

Lemma accum_step (op : fl -> fl -> fl) (xs : list fl) :
  Forall (fun x => notna x = true) xs ->
  forall acc,
    nth_error (accum op acc xs) 0 =
    option_map (fun x => match acc with None => x | Some a => op a x end)
               (nth_error xs 0) /\
    forall i c x,
      nth_error (accum op acc xs) i = Some c ->
      nth_error xs (Datatypes.S i) = Some x ->
      nth_error (accum op acc xs) (Datatypes.S i) = Some (op c x).
Proof.
  induction 1 as [|x0 xs Hx H IH]; intros acc.
  - split; [reflexivity|]. intros i c x _ Hx. destruct i; discriminate.
  - cbn [accum]. unfold notna in Hx. apply negb_true_iff in Hx. rewrite Hx.
    set (a := match acc with None => x0 | Some a0 => op a0 x0 end).
    destruct (IH (Some a)) as [H0 HS].
    split; [reflexivity|].
    intros [|i] c x Hc Hn.
    + change (nth_error xs 0 = Some x) in Hn.
      change (Some a = Some c) in Hc. injection Hc as <-.
      change (nth_error (accum op (Some a) xs) 0 = Some (op a x)).
      rewrite H0, Hn. reflexivity.
    + change (nth_error (accum op (Some a) xs) (Datatypes.S i) = Some (op c x)).
      apply HS; assumption.
Qed.

Lemma port_returns_notna (returns : DataFrame) (hs : list (Date * list ticker))
  (idx : list Date) :
  Forall (fun x => notna x = true) (port_returns returns hs idx).
Proof.
  unfold port_returns. apply Forall_map, Forall_forall. intros x _. apply fillna0_notna.
Qed.

Lemma one_plus_notna (r : fl) : notna r = true -> notna (fadd fone r) = true.
Proof. destruct r; simpl; auto. Qed.

Lemma last_nth_error (A : Type) (l : list A) (x d : A) :
  nth_error (x :: l) (length l) = Some (last (x :: l) d).
Proof.
  revert x. induction l as [|y l IH]; intros x; [reflexivity|].
  change (nth_error (y :: l) (length l) = Some (last (y :: l) d)). apply IH.
Qed.

(** X8. The cumulative portfolio series is the running product of
    (1 + return): it starts at 1 + the first return, every later value is
    the previous one times (1 + the return of the day), no portfolio return
    is NaN, and [final_cum_return] is the last value of the series. *)
Theorem cumulative_recurrence (np_sqrt : fl -> fl) (series_std : list fl -> fl)
  (fpow : fl -> fl -> fl) (self : Backtester) (vs : list (ticker * ScoreTuple))
  (top_n : Z) (f : Freq) (rf : fl) :
  let res := run_strategy np_sqrt series_std fpow self vs top_n f rf in
  let df := fst res in
  Forall (fun x => notna x = true) (portfolio_return df) /\
  nth_error (cum_portfolio df) 0 =
    option_map (fadd fone) (nth_error (portfolio_return df) 0) /\
  (forall i c r,
      nth_error (cum_portfolio df) i = Some c ->
      nth_error (portfolio_return df) (Datatypes.S i) = Some r ->
      nth_error (cum_portfolio df) (Datatypes.S i) = Some (fmul c (fadd fone r))) /\
  (forall i,
      Datatypes.S i = length (cum_portfolio df) ->
      final_cum_return (snd res) = nth_error (cum_portfolio df) i).
Proof.
  intros res df.
  set (rets := portfolio_return df).
  assert (N : Forall (fun x => notna x = true) rets) by apply port_returns_notna.
  assert (N1 : Forall (fun x => notna x = true) (map (fadd fone) rets)).
  { apply Forall_map. eapply Forall_impl; [|exact N]. apply one_plus_notna. }
  destruct (accum_step fmul _ N1 None) as [H0 HS].
  split; [exact N|]. split; [|split].
  - change (cum_portfolio df) with (cumprod (map (fadd fone) rets)).
    unfold cumprod. rewrite H0, nth_error_map.
    destruct (nth_error rets 0); reflexivity.
  - intros i c r Hc Hr.
    change (cum_portfolio df) with (cumprod (map (fadd fone) rets)) in *.
    apply HS; [exact Hc|]. rewrite nth_error_map. fold rets in Hr. rewrite Hr. reflexivity.
  - intros i Hi.
    change (final_cum_return (snd res))
      with (match cum_portfolio df with
            | [] => None
            | x :: _ => Some (last (cum_portfolio df) x)
            end).
    destruct (cum_portfolio df) as [|x l]; [discriminate|].
    simpl in Hi. injection Hi as ->. symmetry. apply last_nth_error.
Qed.

(** ** The worst drawdown *)

Lemma fmin2_spec (a b : fl) :
  notna a = true -> notna b = true ->
  notna (fmin2 a b) = true /\ fle (fmin2 a b) a = true /\
  fle (fmin2 a b) b = true /\ (fmin2 a b = a \/ fmin2 a b = b).
Proof.
  intros Ha Hb. unfold fmin2. destruct (flt b a) eqn:E.
  - repeat split; auto using flt_fle, fle_refl.
  - repeat split; auto using flt_false_fle, fle_refl.
Qed.

Lemma fold_fmin2_spec (v : list fl) :
  Forall (fun y => notna y = true) v ->
  forall x, notna x = true ->
    let m := fold_left fmin2 v x in
    notna m = true /\ In m (x :: v) /\ forall y, In y (x :: v) -> fle m y = true.
Proof.
  induction 1 as [|z v Hz H IH]; intros x Hx; simpl.
  - split; [exact Hx|]. split; [auto|].
    intros y [<- | []]. apply fle_refl, Hx.
  - destruct (fmin2_spec x z Hx Hz) as (A & B & C & D).
    destruct (IH (fmin2 x z) A) as (I1 & I2 & I3).
    split; [exact I1|]. split.
    + destruct I2 as [I2 | I2]; [|auto].
      rewrite <- I2. destruct D as [-> | ->]; auto.
    + intros y [<- | [<- | Hy]].
      * eapply fle_trans; [apply I3; left; reflexivity | exact B].
      * eapply fle_trans; [apply I3; left; reflexivity | exact C].
      * apply I3. right. exact Hy.
Qed.

Lemma series_min_spec (l : list fl) :
  (series_min l = NaN <-> Forall (fun y => isna y = true) l) /\
  (notna (series_min l) = true ->
   In (series_min l) l /\
   forall y, In y l -> notna y = true -> fle (series_min l) y = true).
Proof.
  unfold series_min.
  assert (Hf : Forall (fun y => notna y = true) (filter notna l)).
  { apply Forall_forall. intros y Hy. apply filter_In in Hy. apply Hy. }
  destruct (filter notna l) as [|x v] eqn:E.
  - split; [|discriminate]. split; [|reflexivity]. intros _.
    apply Forall_forall. intros y Hy.
    destruct (isna y) eqn:Ey; [reflexivity|]. exfalso.
    assert (H : In y (filter notna l))
      by (apply filter_In; split; [exact Hy | unfold notna; rewrite Ey; reflexivity]).
    rewrite E in H. destruct H.
  - destruct (fold_fmin2_spec v (Forall_inv_tail Hf) x (Forall_inv Hf)) as (A & B & C).
    split.
    + split.
      * intros H. rewrite H in A. discriminate.
      * intros H. exfalso. rewrite Forall_forall in H.
        assert (Hx : In x (filter notna l)) by (rewrite E; left; reflexivity).
        apply filter_In in Hx. destruct Hx as [Hx Hn].
        unfold notna in Hn. rewrite (H x Hx) in Hn. discriminate.
    + intros _. split.
      * assert (H : In (fold_left fmin2 v x) (filter notna l)) by (rewrite E; exact B).
        apply filter_In in H. apply H.
      * intros y Hy Hn. apply C. rewrite <- E. apply filter_In. auto.
Qed.

Lemma drawdown_start (rets : list fl) :
  starts_at_zero rets -> rets <> [] ->
  exists q, nth_error (drawdown_of (cumulative rets)) 0 = Some (Fin q) /\ q == 0.
Proof.
  destruct rets as [|r rest]; [congruence|].
  intros (r0 & -> & Hr) _.
  unfold drawdown_of, cumulative, cumprod, cummax. simpl.
  destruct (Qeq_bool (1 + r0) 0) eqn:E.
  - apply Qeq_bool_iff in E. exfalso. lra.
  - eexists. split; [reflexivity|]. field. intros H. lra.
Qed.

(** X9. [max_drawdown] is null exactly when the table has no row (and then
    so are [annual_return] and [final_cum_return]).  Otherwise it is a
    value of the portfolio drawdown series, below or equal to every non-NaN
    value of that series, and <= 0. *)
Theorem max_drawdown_is_minimum (np_sqrt : fl -> fl) (series_std : list fl -> fl)
  (fpow : fl -> fl -> fl) (self : Backtester) (vs : list (ticker * ScoreTuple))
  (top_n : Z) (f : Freq) (rf : fl) :
  let res := run_strategy np_sqrt series_std fpow self vs top_n f rf in
  let df := fst res in
  let st := snd res in
  (max_drawdown st = None <-> index (prices self) = []) /\
  (index (prices self) = [] ->
   annual_return st = None /\ final_cum_return st = None) /\
  (forall m,
      max_drawdown st = Some m ->
      In m (portfolio_drawdown df) /\
      (forall y, In y (portfolio_drawdown df) -> notna y = true -> fle m y = true) /\
      fle m fzero = true).
Proof.
  intros res df st.
  set (rets := portfolio_return df).
  set (dd := portfolio_drawdown df).
  assert (Hst : max_drawdown st = nullable (series_min dd)) by reflexivity.
  assert (Hstart : starts_at_zero rets) by apply port_returns_start.
  assert (Hlen : length rets = length (index (prices self))).
  { unfold rets. change (portfolio_return df)
      with (port_returns (daily_returns (prices self))
              (holdings_series (prices self) vs top_n f) (index (prices self))).
    unfold port_returns. rewrite !length_map. reflexivity. }
  destruct (series_min_spec dd) as [Hnan Hmin].
  assert (Hfirst : rets <> [] ->
            exists q, In (Fin q) dd /\ q == 0).
  { intros Hne. destruct (drawdown_start rets Hstart Hne) as (q & Hq & Hq0).
    exists q. split; [eapply nth_error_In, Hq | exact Hq0]. }
  split; [|split].
  - rewrite Hst. split.
    + intros H. destruct (index (prices self)) as [|d idx] eqn:E; [reflexivity|].
      exfalso. destruct Hfirst as (q & Hq & _).
      { intros E'. rewrite E' in Hlen. discriminate. }
      assert (Hn : series_min dd = NaN).
      { unfold nullable in H. destruct (series_min dd); try discriminate. reflexivity. }
      apply Hnan in Hn. rewrite Forall_forall in Hn. specialize (Hn _ Hq). discriminate.
    + intros E. rewrite E in Hlen. destruct rets eqn:Er; [|discriminate].
      unfold dd. change (portfolio_drawdown df) with (drawdown_of (cumulative rets)).
      rewrite Er. reflexivity.
  - intros E. rewrite E in Hlen. destruct rets eqn:Er; [|discriminate].
    assert (Hc : cum_portfolio df = []).
    { change (cum_portfolio df) with (cumulative rets). rewrite Er. reflexivity. }
    split.
    + change (annual_return st) with (nullable (ann_return_of fpow (cum_portfolio df))).
      rewrite Hc. reflexivity.
    + change (final_cum_return st)
        with (match cum_portfolio df with
              | [] => None
              | x :: _ => Some (last (cum_portfolio df) x)
              end).
      rewrite Hc. reflexivity.
  - intros m Hm. rewrite Hst in Hm. unfold nullable in Hm.
    destruct (notna (series_min dd)) eqn:N; [|discriminate].
    injection Hm as <-. destruct (Hmin eq_refl) as [H1 H2].
    split; [exact H1|]. split; [exact H2|].
    destruct Hfirst as (q & Hq & Hq0).
    { intros E. unfold dd in H1.
      change (portfolio_drawdown df) with (drawdown_of (cumulative rets)) in H1.
      rewrite E in H1. destruct H1. }
    eapply fle_trans; [apply (H2 _ Hq); reflexivity|].
    simpl. apply Qle_bool_iff. lra.
Qed.

(** ** Days on which nothing is held *)

Lemma accum_flat (op : fl -> fl -> fl) :
  (forall a x, is_one a -> is_one x -> is_one (op a x)) ->
  forall xs acc i,
    (acc = None \/ exists a, acc = Some a /\ is_one a) ->
    (forall k, (k <= i)%nat -> exists x, nth_error xs k = Some x /\ is_one x) ->
    exists c, nth_error (accum op acc xs) i = Some c /\ is_one c.
Proof.
  intros Hop. induction xs as [|x0 xs IH]; intros acc i Hacc Hx.
  - destruct (Hx O (Nat.le_0_l i)) as (x & H & _). discriminate.
  - destruct (Hx O (Nat.le_0_l i)) as (x & H & H1). injection H as <-.
    cbn [accum]. destruct H1 as (q & -> & Hq). cbn [isna].
    set (a := match acc with None => Fin q | Some a0 => op a0 (Fin q) end).
    assert (Ha : is_one a).
    { unfold a. destruct Hacc as [-> | (a0 & -> & H0)]; [exists q; auto|].
      apply Hop; [exact H0 | exists q; auto]. }
    destruct i as [|i]; [exists a; auto|].
    apply (IH (Some a) i); [right; eauto|].
    intros k Hk. apply (Hx (Datatypes.S k)). lia.
Qed.

Lemma fmul_one (a x : fl) : is_one a -> is_one x -> is_one (fmul a x).
Proof.
  intros (p & -> & Hp) (q & -> & Hq). exists (p * q). split; [reflexivity|].
  rewrite Hp, Hq. reflexivity.
Qed.

Lemma fmax2_one (a x : fl) : is_one a -> is_one x -> is_one (fmax2 a x).
Proof.
  intros Ha Hx. unfold fmax2. destruct (flt a x); assumption.
Qed.

(** A prefix of zero returns leaves the cumulative value at 1 and the
    drawdown at 0. *)
Lemma flat_prefix (rets : list fl) (i : nat) :
  (forall k, (k <= i)%nat -> nth_error rets k = Some fzero) ->
  (exists c, nth_error (cumulative rets) i = Some c /\ is_one c) /\
  (exists q, nth_error (drawdown_of (cumulative rets)) i = Some q /\ is_zero q).
Proof.
  intros H.
  assert (Hc : forall j, (j <= i)%nat ->
             exists c, nth_error (cumulative rets) j = Some c /\ is_one c).
  { intros j Hj. unfold cumulative, cumprod.
    apply (accum_flat fmul fmul_one); [left; reflexivity|].
    intros k Hk. exists (fadd fone fzero). split.
    - rewrite nth_error_map, (H k) by lia. reflexivity.
    - exists (1 + 0). split; [reflexivity | reflexivity]. }
  destruct (Hc i (Nat.le_refl i)) as (c & Ec & Ic).
  destruct (accum_flat fmax2 fmax2_one (cumulative rets) None i) as (m & Em & Im);
    [left; reflexivity | intros k Hk; apply Hc, Hk |].
  split; [eauto|].
  unfold drawdown_of. fold (cummax (cumulative rets)) in Em.
  rewrite (zip_with_nth_error _ _ _ _ _ _ _ _ _ Ec Em).
  destruct Ic as (p & -> & Hp), Im as (q & -> & Hq). simpl.
  destruct (Qeq_bool q 0) eqn:E.
  - apply Qeq_bool_iff in E. exfalso. lra.
  - eexists. split; [reflexivity|]. eexists. split; [reflexivity|].
    rewrite Hp, Hq. reflexivity.
Qed.

Lemma no_holdings_zero_return (returns : DataFrame) (hs : list (Date * list ticker))
  (idx : list Date) (k : nat) (d : Date) :
  nth_error idx k = Some d -> holdings_at hs d = [] ->
  nth_error (port_returns returns hs idx) k = Some fzero.
Proof.
  intros Hd Hh. unfold port_returns. rewrite !nth_error_map, Hd. simpl.
  unfold day_port_ret. rewrite Hh. reflexivity.
Qed.

(** X10. On a trading date that comes before every rebalance date nothing
    is held: the portfolio return is 0, the cumulative portfolio value is
    still 1 and the drawdown is 0. *)
Theorem flat_before_first_rebalance (raw : DataFrame)
  (vs : list (ticker * ScoreTuple)) (top_n : Z) (f : Freq) (i : nat) (d : Date) :
  let price := prices (init raw) in
  let df := run_frame (init raw) vs top_n f in
  nth_error (index price) i = Some d ->
  (forall r, In r (dict_keys (holdings_map_of price vs top_n f)) -> date_lt d r) ->
  holdings_at (holdings df) d = [] /\
  nth_error (portfolio_return df) i = Some fzero /\
  (exists c, nth_error (cum_portfolio df) i = Some c /\ is_one c) /\
  (exists q, nth_error (portfolio_drawdown df) i = Some q /\ is_zero q).
Proof.
  intros price df Hd Hbefore.
  set (hm := holdings_map_of price vs top_n f).
  assert (Hs : holdings df = map (fun dt => (dt, holdings_spec hm dt)) (index price))
    by apply holdings_series_spec.
  assert (Hflat : forall k dk, (k <= i)%nat -> nth_error (index price) k = Some dk ->
                               holdings_at (holdings df) dk = []).
  { intros k dk Hk Hdk. rewrite Hs, holdings_at_map by (eapply nth_error_In, Hdk).
    unfold holdings_spec.
    assert (E : latest_le (dict_keys hm) dk = None).
    { apply latest_le_None. intros r Hr.
      eapply date_le_lt_trans; [|apply Hbefore, Hr].
      eapply (sorted_nth_le _ (init_index_sorted raw)); eauto. }
    rewrite E. reflexivity. }
  assert (Hzero : forall k, (k <= i)%nat ->
                            nth_error (portfolio_return df) k = Some fzero).
  { intros k Hk.
    assert (Hlt : (k < length (index price))%nat).
    { assert (i < length (index price))%nat by (apply nth_error_Some; congruence). lia. }
    destruct (nth_error (index price) k) as [dk|] eqn:Edk;
      [|apply nth_error_None in Edk; lia].
    apply (no_holdings_zero_return (daily_returns price) (holdings df) (index price)
             k dk Edk).
    eapply Hflat; eauto. }
  split; [eapply Hflat; eauto|]. split; [apply Hzero; lia|].
  apply (flat_prefix (portfolio_return df) i Hzero).
Qed.

Lemma flat_before_first_rebalance_witness :
  holdings_at (holdings (run_frame (init sample_raw) sample_scores 1 Monthly))
              (mkDate 2020 1 3) = [] /\
  nth_error (portfolio_return (run_frame (init sample_raw) sample_scores 1 Monthly)) 1
    = Some fzero /\
  (exists c, nth_error (cum_portfolio (run_frame (init sample_raw) sample_scores 1 Monthly)) 1
             = Some c /\ is_one c) /\
  (exists q, nth_error (portfolio_drawdown (run_frame (init sample_raw) sample_scores 1 Monthly)) 1
             = Some q /\ is_zero q).
Proof.
  apply (flat_before_first_rebalance sample_raw sample_scores 1 Monthly 1 (mkDate 2020 1 3)).
  - reflexivity.
  - simpl. intros r [<- | []]. reflexivity.
Defined.

(** X11. When nothing can be selected, because [top_n] is 0 or because no
    column has a usable score, the portfolio stays out of the market: every
    portfolio return is 0, every cumulative value is 1 and every drawdown
    is 0. *)
Theorem flat_without_selection (raw : DataFrame)
  (vs : list (ticker * ScoreTuple)) (top_n : Z) (f : Freq) :
  let price := prices (init raw) in
  let df := run_frame (init raw) vs top_n f in
  top_n = 0%Z \/ (forall t, In t (columns price) -> isna (score_of vs t) = true) ->
  Forall (fun h => snd h = []) (holdings df) /\
  Forall (fun x => x = fzero) (portfolio_return df) /\
  Forall is_one (cum_portfolio df) /\
  Forall is_zero (portfolio_drawdown df).
Proof.
  intros price df Hnone.
  set (hm := holdings_map_of price vs top_n f).
  assert (Hs : holdings df = map (fun dt => (dt, holdings_spec hm dt)) (index price))
    by apply holdings_series_spec.
  assert (Hsel : forall e, selection price (build_scores vs (columns price)) top_n e = []).
  { intros e. destruct Hnone as [-> | Hnone]; [reflexivity|].
    destruct (selection price (build_scores vs (columns price)) top_n e) as [|t l] eqn:E;
      [reflexivity|].
    assert (Ht : In t (selection price (build_scores vs (columns price)) top_n e))
      by (rewrite E; left; reflexivity).
    apply selection_eligible in Ht. destruct Ht as [H1 H2].
    rewrite has_score_build in H2 by exact H1.
    unfold notna in H2. rewrite (Hnone t H1) in H2. discriminate. }
  assert (Hspec : forall dt, holdings_spec hm dt = []).
  { intros dt. unfold hm.
    destruct (holdings_spec_cases price vs top_n f dt) as [E | (e & _ & _ & E)];
      [exact E | rewrite E; apply Hsel]. }
  assert (Hzero : forall k, (k < length (index price))%nat ->
                            nth_error (portfolio_return df) k = Some fzero).
  { intros k Hk.
    destruct (nth_error (index price) k) as [dk|] eqn:Edk;
      [|apply nth_error_None in Edk; lia].
    apply (no_holdings_zero_return (daily_returns price) (holdings df) (index price)
             k dk Edk).
    rewrite Hs, holdings_at_map by (eapply nth_error_In, Edk). apply Hspec. }
  assert (Hlen : length (portfolio_return df) = length (index price)).
  { change (portfolio_return df)
      with (port_returns (daily_returns price) (holdings df) (index price)).
    unfold port_returns. rewrite !length_map. reflexivity. }
  assert (Hall : forall (P : fl -> Prop) (l : list fl),
             length l = length (index price) ->
             (forall k, (k < length (index price))%nat ->
                        exists x, nth_error l k = Some x /\ P x) ->
             Forall P l).
  { intros P l L H. apply Forall_forall. intros x Hx.
    apply In_nth_error in Hx. destruct Hx as [k Hk].
    assert (Hlt : (k < length (index price))%nat)
      by (rewrite <- L; apply nth_error_Some; congruence).
    destruct (H k Hlt) as (y & Hy & Py). congruence. }
  split; [|split; [|split]].
  - rewrite Hs. apply Forall_map, Forall_forall. intros dt _. apply Hspec.
  - apply Hall; [exact Hlen|]. intros k Hk. exists fzero. auto.
  - apply Hall.
    + change (cum_portfolio df) with (cumulative (portfolio_return df)).
      unfold cumulative, cumprod. rewrite accum_length, length_map. exact Hlen.
    + intros k Hk. apply (flat_prefix (portfolio_return df) k).
      intros j Hj. apply Hzero. lia.
  - apply Hall.
    + change (portfolio_drawdown df) with (drawdown_of (cumulative (portfolio_return df))).
      unfold drawdown_of. rewrite zip_with_length.
      * unfold cumulative, cumprod. rewrite accum_length, length_map. exact Hlen.
      * unfold cummax. rewrite accum_length. reflexivity.
    + intros k Hk. apply (flat_prefix (portfolio_return df) k).
      intros j Hj. apply Hzero. lia.
Qed.

Lemma flat_without_selection_witness :
  Forall (fun h => snd h = [])
         (holdings (run_frame (init sample_raw) sample_scores 0 Monthly)) /\
  Forall (fun x => x = fzero)
         (portfolio_return (run_frame (init sample_raw) sample_scores 0 Monthly)) /\
  Forall is_one (cum_portfolio (run_frame (init sample_raw) sample_scores 0 Monthly)) /\
  Forall is_zero (portfolio_drawdown (run_frame (init sample_raw) sample_scores 0 Monthly)).
Proof.
  apply (flat_without_selection sample_raw sample_scores 0 Monthly).
  left. reflexivity.
Defined.

(** * Properties of the valuation *)











(** ** The score table *)


Lemma existsb_ticker_false (t : ticker) (l : list ticker) :
  existsb (String.eqb t) l = false <-> ~ In t l.
Proof.
  rewrite <- existsb_ticker_In. destruct (existsb (String.eqb t) l); split; congruence.
Qed.

Section ScoreLoop.
Variables (latest : list (ticker * fl)) (d tg : fl) (years : Z)
          (peer : list (ticker * fl)).

Let loop := score_loop latest d tg years peer.
Let one (t : ticker) (p : fl) := score_one p d tg years (peer_pe_of peer t).

(** Every entry of the result was already there or is the score of a
    ticker of the list with a usable price. *)
Lemma score_loop_entries (tickers : list ticker) :
  forall out0 out,
    loop tickers out0 = Some out ->
    forall t,
      dict_get String.eqb out t =
      match usable_price latest t with
      | Some p => if existsb (String.eqb t) tickers then one t p
                  else dict_get String.eqb out0 t
      | None => dict_get String.eqb out0 t
      end.
Proof.
  unfold loop, one.
  induction tickers as [|t0 ts IH]; intros out0 out H t.
  - simpl in H. injection H as <-. simpl. destruct (usable_price latest t); reflexivity.
  - cbn [score_loop] in H. cbn [existsb].
    destruct (dict_get String.eqb latest t0) as [p0|] eqn:E0.
    + destruct (isna p0) eqn:N0.
      * rewrite (IH _ _ H t).
        destruct (String.eqb_spec t t0) as [-> | Ne]; [|reflexivity].
        unfold usable_price. rewrite E0, N0. reflexivity.
      * destruct (score_one p0 d tg years (peer_pe_of peer t0)) as [tup|] eqn:E1;
          [|discriminate].
        rewrite (IH _ _ H t), (dict_get_set _ _ _ String.eqb_eq).
        rewrite (String.eqb_sym t0 t).
        destruct (String.eqb_spec t t0) as [-> | Ne]; simpl.
        -- unfold usable_price. rewrite E0, N0.
           destruct (existsb (String.eqb t0) ts); [reflexivity | congruence].
        -- reflexivity.
    + rewrite (IH _ _ H t).
      destruct (String.eqb_spec t t0) as [-> | Ne]; [|reflexivity].
      unfold usable_price. rewrite E0. reflexivity.
Qed.

End ScoreLoop.


(** ** Scores and holdings *)

Lemma held_has_score (raw : DataFrame) (vs : list (ticker * ScoreTuple))
  (top_n : Z) (f : Freq) (dt : Date) (t : ticker) :
  In t (holdings_at (holdings_series (prices (init raw)) vs top_n f) dt) ->
  notna (score_of vs t) = true.
Proof.
  set (price := prices (init raw)). intros Ht.
  assert (Hs : holdings_series price vs top_n f =
               map (fun d => (d, holdings_spec (holdings_map_of price vs top_n f) d))
                   (index price)) by apply holdings_series_spec.
  destruct (existsb (date_eqb dt) (index price)) eqn:Ex.
  - apply existsb_date_In in Ex.
    rewrite Hs, holdings_at_map in Ht by exact Ex.
    destruct (holdings_spec_cases price vs top_n f dt) as [E | (e & _ & _ & E)];
      rewrite E in Ht; [destruct Ht|].
    apply selection_eligible in Ht. destruct Ht as [H1 H2].
    rewrite has_score_build in H2 by exact H1. exact H2.
  - rewrite holdings_at_absent in Ht; [destruct Ht|].
    rewrite Hs, map_map. simpl. rewrite map_id.
    intros H. apply existsb_date_In in H. congruence.
Qed.

(** X14. With the scores computed by [score_valuations], a ticker that is
    held on some date was in the list given to [score_valuations] with a
    latest price that is present, not NaN and not zero: a ticker without a
    usable price has no entry, one whose price is 0 gets the score NaN, and
    neither is ever selected. *)
Theorem held_tickers_have_a_price (tickers : list ticker) (latest : list (ticker * fl))
  (d tg : fl) (years : Z) (peer : list (ticker * fl))
  (vs : list (ticker * ScoreTuple)) (raw : DataFrame) (top_n : Z) (f : Freq)
  (dt : Date) (t : ticker) :
  score_valuations tickers latest d tg years peer = Some vs ->
  In t (holdings_at (holdings_series (prices (init raw)) vs top_n f) dt) ->
  In t tickers /\
  exists p, dict_get String.eqb latest t = Some p /\ notna p = true /\ truthy p = true.
Proof.
  intros Hvs Ht. apply held_has_score in Ht. unfold score_of in Ht.
  unfold score_valuations in Hvs.
  rewrite (score_loop_entries latest d tg years peer tickers [] vs Hvs t) in Ht.
  unfold usable_price in Ht.
  destruct (dict_get String.eqb latest t) as [p|] eqn:Ep; [|discriminate].
  destruct (isna p) eqn:Np; [discriminate|].
  destruct (existsb (String.eqb t) tickers) eqn:Ex; [|discriminate].
  split; [apply existsb_ticker_In, Ex|].
  exists p. split; [reflexivity|]. split; [unfold notna; rewrite Np; reflexivity|].
  unfold score_one in Ht.
  destruct (dcf_simple (fdiv p (Fin 20)) (Fin (1 # 20)) d years tg); [|discriminate].
  destruct (truthy p); [reflexivity | discriminate].
Qed.

Lemma held_tickers_have_a_price_witness :
  In "B"%string ["A"; "B"; "D"]%string /\
  exists p, dict_get String.eqb sample_latest_prices "B"%string = Some p /\
            notna p = true /\ truthy p = true.
Proof.
  refine (held_tickers_have_a_price ["A"; "B"; "D"]%string sample_latest_prices
            (Fin (8 # 100)) (Fin (2 # 100)) 2 sample_peer_map _ priced_raw 5 Monthly
            (mkDate 2020 1 31) "B"%string eq_refl _).
  vm_compute. auto.
Defined.

(** ** The discounted cash flow on finite arguments *)

Lemma fpow_nat_Fin (q : Q) (n : nat) : fpow_nat (Fin q) n = Fin (qpow q n).
Proof.
  induction n as [|n IH]; [reflexivity|]. cbn [fpow_nat qpow]. rewrite IH. reflexivity.
Qed.

Lemma qpow_nonzero (q : Q) (n : nat) : ~ q == 0 -> ~ qpow q n == 0.
Proof.
  intros H. induction n as [|n IH]; cbn [qpow].
  - intros E. revert E. unfold Qeq; simpl. lia.
  - intros E. apply Qmult_integral in E. tauto.
Qed.

Lemma Qeq_bool_false (q : Q) : ~ q == 0 -> Qeq_bool q 0 = false.
Proof.
  intros H. destruct (Qeq_bool q 0) eqn:E; [|reflexivity].
  apply Qeq_bool_iff in E. contradiction.
Qed.

Lemma sum_quotients_Fin (l : list (Q * Q)) :
  Forall (fun xd => ~ snd xd == 0) l ->
  forall acc,
    sum_quotients (Fin acc) (map (fun xd => (Fin (fst xd), Fin (snd xd))) l) =
    Some (Fin (wsum acc l)).
Proof.
  induction 1 as [|[x dd] l H F IH]; intros acc; [reflexivity|].
  simpl in H. cbn [map sum_quotients fst snd py_div fdiv].
  rewrite (Qeq_bool_false dd H). cbn [fadd]. rewrite IH. reflexivity.
Qed.

Lemma combine_map_Fin (xs ds : list Q) :
  combine (map Fin xs) (map Fin ds) =
  map (fun xd => (Fin (fst xd), Fin (snd xd))) (combine xs ds).
Proof.
  revert ds. induction xs as [|x xs IH]; intros [|dd ds]; simpl; try reflexivity.
  rewrite IH. reflexivity.
Qed.

Lemma dcf_simple_finite (c g d tg : Q) (n : nat) :
  ~ 1 + d == 0 ->
  dcf_simple (Fin c) (Fin g) (Fin d) (Z.of_nat (Datatypes.S n)) (Fin tg) =
  Some (Fin (dcf_q c g d tg n)).
Proof.
  intros Hd. unfold dcf_simple, range_from_one.
  rewrite Nat2Z.id.
  replace (Z.to_nat (Z.of_nat (Datatypes.S n) + 1)) with (Datatypes.S (Datatypes.S n)) by lia.
  change (fadd fone (Fin g)) with (Fin (1 + g)).
  change (fadd fone (Fin d)) with (Fin (1 + d)).
  change (fadd fone (Fin tg)) with (Fin (1 + tg)).
  assert (Ecf : map (fun i => fmul (Fin c) (fpow_nat (Fin (1 + g)) i)) (seq 1 (Datatypes.S n)) =
                map Fin (map (fun i => c * qpow (1 + g) i) (seq 1 (Datatypes.S n)))).
  { rewrite map_map. apply map_ext. intros i. rewrite fpow_nat_Fin. reflexivity. }
  rewrite Ecf.
  assert (Erev : exists rest,
            rev (map Fin (map (fun i => c * qpow (1 + g) i) (seq 1 (Datatypes.S n)))) =
            Fin (c * qpow (1 + g) (Datatypes.S n)) :: rest).
  { rewrite seq_S, !map_app, rev_app_distr. simpl. eauto. }
  destruct Erev as [rest ->].
  assert (Eterm : (if flt (Fin tg) (Fin d)
                   then py_div (fmul (Fin (c * qpow (1 + g) (Datatypes.S n))) (Fin (1 + tg)))
                               (fsub (Fin d) (Fin tg))
                   else Some (Fin (c * qpow (1 + g) (Datatypes.S n)))) =
                  Some (Fin (dcf_terminal c g d tg n))).
  { unfold dcf_terminal. cbn [flt fmul fsub fadd fneg py_div fdiv].
    destruct (negb (Qle_bool d tg)) eqn:E; [|reflexivity].
    rewrite Qeq_bool_false; [reflexivity|].
    apply negb_true_iff in E. intros H.
    assert (L : d <= tg) by lra. apply Qle_bool_iff in L. congruence. }
  rewrite Eterm.
  assert (Edf : map (fun i => fpow_nat (Fin (1 + d)) i) (seq 1 (Datatypes.S (Datatypes.S n))) =
                map Fin (map (qpow (1 + d)) (seq 1 (Datatypes.S (Datatypes.S n))))).
  { rewrite map_map. apply map_ext. intros i. apply fpow_nat_Fin. }
  rewrite Edf.
  change [Fin (dcf_terminal c g d tg n)] with (map Fin [dcf_terminal c g d tg n]).
  rewrite <- map_app, combine_map_Fin.
  unfold fzero. rewrite sum_quotients_Fin; [reflexivity|].
  apply Forall_forall. intros [x dd] H. simpl.
  apply in_combine_r, in_map_iff in H. destruct H as (i & <- & _).
  apply qpow_nonzero, Hd.
Qed.

Lemma wsum_scaled (k : Q) (xs ys : list Q) :
  Forall2 (fun x y => x == k * y) xs ys ->
  forall ds a a', a == k * a' ->
    wsum a (combine xs ds) == k * wsum a' (combine ys ds).
Proof.
  unfold wsum. induction 1 as [|x y xs ys Hxy H IH]; intros ds a a' Ha.
  - simpl. exact Ha.
  - destruct ds as [|dd ds]; [simpl; exact Ha|].
    simpl. apply IH. unfold Qdiv. rewrite Ha, Hxy. ring.
Qed.

(** The value is proportional to the current cash flow. *)
Lemma dcf_q_linear (c g d tg : Q) (n : nat) :
  dcf_q c g d tg n == c * dcf_q 1 g d tg n.
Proof.
  unfold dcf_q. apply wsum_scaled; [|ring].
  apply Forall2_app.
  - induction (seq 1 (Datatypes.S n)) as [|i l IH]; simpl; constructor; [ring | exact IH].
  - constructor; [|constructor]. unfold dcf_terminal.
    destruct (negb (Qle_bool d tg)) eqn:E; [|ring].
    apply negb_true_iff in E. field. intros H.
    assert (L : d <= tg) by lra. apply Qle_bool_iff in L. congruence.
Qed.

(** X15. In exact arithmetic and for finite arguments, [dcf_simple] is
    proportional to the current cash flow: multiplying the cash flow by [k]
    multiplies the value by [k]. *)
Theorem dcf_simple_proportional (c k g d tg : Q) (years : Z) :
  (0 < years)%Z -> ~ 1 + d == 0 ->
  exists v v',
    dcf_simple (Fin c) (Fin g) (Fin d) years (Fin tg) = Some (Fin v) /\
    dcf_simple (Fin (k * c)) (Fin g) (Fin d) years (Fin tg) = Some (Fin v') /\
    v' == k * v.
Proof.
  intros Hy Hd.
  destruct (Z.to_nat years) as [|n] eqn:En; [lia|].
  replace years with (Z.of_nat (Datatypes.S n)) by lia.
  exists (dcf_q c g d tg n), (dcf_q (k * c) g d tg n).
  split; [apply dcf_simple_finite, Hd|]. split; [apply dcf_simple_finite, Hd|].
  rewrite (dcf_q_linear (k * c)), (dcf_q_linear c). ring.
Qed.

Lemma dcf_simple_proportional_witness :
  exists v v',
    dcf_simple (Fin 5) (Fin (1 # 20)) (Fin (8 # 100)) 2 (Fin (2 # 100)) = Some (Fin v) /\
    dcf_simple (Fin (3 * 5)) (Fin (1 # 20)) (Fin (8 # 100)) 2 (Fin (2 # 100)) = Some (Fin v') /\
    v' == 3 * v.
Proof.
  apply (dcf_simple_proportional 5 3 (1 # 20) (8 # 100) (2 # 100) 2).
  - reflexivity.
  - intros H. revert H. unfold Qeq; simpl. lia.
Defined.

(** ** The score does not depend on the price *)

Lemma score_one_finite (p d tg : Q) (n : nat) (pe : fl) :
  ~ p == 0 -> ~ 1 + d == 0 -> finite pe = true \/ pe = NaN ->
  exists s comp,
    score_one (Fin p) (Fin d) (Fin tg) (Z.of_nat (Datatypes.S n)) pe =
    Some (Fin s, Fin (dcf_q (p / 20) (1 # 20) d tg n), comp) /\
    s == 1 - match pe with
             | Fin e => (dcf_q 1 (1 # 20) d tg n / 20 + e / 20) / 2
             | _ => dcf_q 1 (1 # 20) d tg n / 20
             end.
Proof.
  intros Hp Hd Hpe. unfold score_one.
  change (fdiv (Fin p) (Fin 20)) with (Fin (p / 20)).
  rewrite (dcf_simple_finite (p / 20) (1 # 20) d tg n Hd).
  pose proof (dcf_q_linear (p / 20) (1 # 20) d tg n) as L.
  set (v := dcf_q (p / 20) (1 # 20) d tg n) in *.
  set (w := dcf_q 1 (1 # 20) d tg n) in *.
  cbn [truthy]. rewrite (Qeq_bool_false p Hp). cbn [negb].
  destruct Hpe as [Hpe | ->].
  - destruct pe as [| | |e]; try discriminate.
    cbn [notna isna negb fmul filter]. unfold arith_mean, fsum, of_nat.
    cbn [fold_left fadd length fzero].
    cbn [fdiv fsub fneg fadd].
    rewrite (Qeq_bool_false (inject_Z (Z.of_nat 2))) by (unfold Qeq; simpl; lia).
    cbn [fsub fadd fneg fdiv]. rewrite (Qeq_bool_false p Hp).
    eexists. eexists. split; [reflexivity|].
    rewrite L. change (inject_Z (Z.of_nat 2)) with 2. field. exact Hp.
  - cbn [notna isna negb filter]. unfold arith_mean, fsum, of_nat.
    cbn [fold_left fadd length fzero].
    cbn [fdiv fsub fneg fadd].
    rewrite (Qeq_bool_false (inject_Z (Z.of_nat 1))) by (unfold Qeq; simpl; lia).
    cbn [fsub fadd fneg fdiv]. rewrite (Qeq_bool_false p Hp).
    eexists. eexists. split; [reflexivity|].
    rewrite L. change (inject_Z (Z.of_nat 1)) with 1. field. exact Hp.
Qed.

(** X16. In exact arithmetic, for finite rates, a positive number of years
    and a discount rate other than -1, the score of a ticker does not
    depend on its price: two non-zero finite prices with the same peer P/E
    (or both without one) get equal scores. *)
Theorem score_independent_of_price (p1 p2 d tg : Q) (years : Z) (pe : fl) :
  (0 < years)%Z -> ~ 1 + d == 0 -> ~ p1 == 0 -> ~ p2 == 0 ->
  finite pe = true \/ pe = NaN ->
  exists s1 s2 dcf1 dcf2 comp1 comp2,
    score_one (Fin p1) (Fin d) (Fin tg) years pe = Some (Fin s1, dcf1, comp1) /\
    score_one (Fin p2) (Fin d) (Fin tg) years pe = Some (Fin s2, dcf2, comp2) /\
    s1 == s2.
Proof.
  intros Hy Hd H1 H2 Hpe.
  destruct (Z.to_nat years) as [|n] eqn:En; [lia|].
  replace years with (Z.of_nat (Datatypes.S n)) by lia.
  destruct (score_one_finite p1 d tg n pe H1 Hd Hpe) as (s1 & c1 & E1 & Q1).
  destruct (score_one_finite p2 d tg n pe H2 Hd Hpe) as (s2 & c2 & E2 & Q2).
  exists s1, s2, (Fin (dcf_q (p1 / 20) (1 # 20) d tg n)),
         (Fin (dcf_q (p2 / 20) (1 # 20) d tg n)), c1, c2.
  split; [exact E1|]. split; [exact E2|]. rewrite Q1, Q2. reflexivity.
Qed.

Lemma score_independent_of_price_witness :
  exists s1 s2 dcf1 dcf2 comp1 comp2,
    score_one (Fin 100) (Fin (8 # 100)) (Fin (2 # 100)) 2 NaN = Some (Fin s1, dcf1, comp1) /\
    score_one (Fin 40) (Fin (8 # 100)) (Fin (2 # 100)) 2 NaN = Some (Fin s2, dcf2, comp2) /\
    s1 == s2.
Proof.
  apply (score_independent_of_price 100 40 (8 # 100) (2 # 100) 2 NaN).
  - reflexivity.
  - intros H. revert H. unfold Qeq; simpl. lia.
  - intros H. revert H. unfold Qeq; simpl. lia.
  - intros H. revert H. unfold Qeq; simpl. lia.
  - right. reflexivity.
Defined.

(** * Properties of the calling script *)

Lemma to_dict_get (pairs : list (ticker * fl)) :
  NoDup (map fst pairs) ->
  forall m t,
    dict_get String.eqb
      (fold_left (fun m kv => dict_set String.eqb m (fst kv) (snd kv)) pairs m) t =
    match dict_get String.eqb pairs t with
    | Some v => Some v
    | None => dict_get String.eqb m t
    end.
Proof.
  induction pairs as [|[k v] ps IH]; intros ND m t; [reflexivity|].
  cbn [map fst] in ND. apply NoDup_cons_iff in ND. destruct ND as [Hk ND].
  cbn [fold_left fst snd dict_get].
  rewrite (IH ND), (dict_get_set _ _ _ String.eqb_eq).
  destruct (String.eqb_spec k t) as [E | Ne]; [|reflexivity].
  rewrite <- E.
  destruct (dict_get String.eqb ps k) as [v'|] eqn:G; [|reflexivity].
  exfalso. apply Hk. apply (dict_get_keys _ _ _ String.eqb_eq ps k). eauto.
Qed.

Lemma combine_get (cols : list ticker) :
  forall (r : list fl) (t : ticker) (p : fl),
    dict_get String.eqb (combine cols r) t = Some p ->
    exists j, index_of t cols = Some j /\ nth_error r j = Some p.
Proof.
  induction cols as [|c cols IH]; intros r t p H; [discriminate|].
  destruct r as [|x r]; [discriminate|].
  cbn [combine dict_get index_of] in *.
  destruct (String.eqb c t).
  - exists 0%nat. split; [reflexivity | exact H].
  - destruct (IH r t p H) as (j & Hj & Hn).
    exists (S j). rewrite Hj. split; [reflexivity | exact Hn].
Qed.

Lemma combine_keys_NoDup (cols : list ticker) :
  NoDup cols -> forall r : list fl, NoDup (map fst (combine cols r)).
Proof.
  induction 1 as [|c cols Hc ND IH]; intros r; [constructor|].
  destruct r as [|x r]; [constructor|].
  cbn [combine map fst]. constructor; [|apply IH].
  intros Hin. apply Hc. apply in_map_iff in Hin.
  destruct Hin as ([c' x'] & E & Hin). simpl in E. subst c'.
  apply in_combine_l in Hin. exact Hin.
Qed.

Lemma scored_has_price (tickers : list ticker) (latest : list (ticker * fl))
  (d tg : fl) (years : Z) (peer : list (ticker * fl))
  (vs : list (ticker * ScoreTuple)) (t : ticker) :
  score_valuations tickers latest d tg years peer = Some vs ->
  notna (score_of vs t) = true ->
  exists p, dict_get String.eqb latest t = Some p /\ notna p = true /\ truthy p = true.
Proof.
  intros Hvs Ht. unfold score_of in Ht. unfold score_valuations in Hvs.
  rewrite (score_loop_entries latest d tg years peer tickers [] vs Hvs t) in Ht.
  unfold usable_price in Ht.
  destruct (dict_get String.eqb latest t) as [p|] eqn:Ep; [|discriminate].
  destruct (isna p) eqn:Np; [discriminate|].
  destruct (existsb (String.eqb t) tickers) eqn:Ex; [|discriminate].
  exists p. split; [reflexivity|]. split; [unfold notna; rewrite Np; reflexivity|].
  unfold score_one in Ht.
  destruct (dcf_simple (fdiv p (Fin 20)) (Fin (1 # 20)) d years tg); [|discriminate].
  destruct (truthy p); [reflexivity | discriminate].
Qed.

(** X17. In the script the scores come from the last row of the table as
    loaded, while the backtest runs on the sorted and forward-filled table.
    So a ticker that is held on any date has a quote in that last row which
    is neither NaN nor zero: a ticker whose quotes stop before the last row
    is never bought, although forward filling gives it a price on every
    later date. *)
Theorem held_tickers_quoted_on_last_row (np_sqrt : fl -> fl)
  (series_std : list fl -> fl) (fpow : fl -> fl -> fl) (raw : DataFrame)
  (d tg : fl) (years : Z) (peer : list (ticker * fl))
  (vs : list (ticker * ScoreTuple)) (top_n : Z) (f : Freq) (rf : fl)
  (dt : Date) (t : ticker) :
  well_formed raw ->
  app_scores raw d tg years peer = Some vs ->
  In t (holdings_at
          (holdings (fst (app_backtest np_sqrt series_std fpow raw vs top_n f rf))) dt) ->
  exists earlier dl r p,
    rows raw = earlier ++ [(dl, r)] /\
    cell raw dl t = Some p /\ notna p = true /\ truthy p = true.
Proof.
  intros WF Hvs Ht.
  unfold app_backtest, run_strategy, run_frame in Ht. cbn [fst holdings] in Ht.
  apply held_has_score in Ht.
  unfold app_scores, latest_prices in Hvs.
  destruct (rev (rows raw)) as [|[dl r] tl] eqn:Er; [discriminate|].
  cbn [snd] in Hvs.
  destruct (scored_has_price _ _ _ _ _ _ _ t Hvs Ht) as (p & Hp & Np & Tp).
  unfold to_dict in Hp.
  rewrite (to_dict_get _ (combine_keys_NoDup _ (proj1 (proj2 WF)) r)) in Hp.
  cbn [dict_get] in Hp.
  destruct (dict_get String.eqb (combine (columns raw) r) t) as [p'|] eqn:G;
    [|discriminate].
  injection Hp as ->.
  destruct (combine_get _ _ _ _ G) as (j & Hj & Hn).
  assert (E : rows raw = rev tl ++ [(dl, r)]).
  { rewrite <- (rev_involutive (rows raw)), Er. reflexivity. }
  exists (rev tl), dl, r, p. split; [exact E|]. split; [|auto].
  apply (raw_cell raw WF). exists r, j. split; [|auto].
  rewrite E. apply in_or_app. right. left. reflexivity.
Qed.

Lemma stale_raw_well_formed : well_formed stale_raw.
Proof.
  unfold well_formed, stale_raw, index; simpl.
  split; [nodup_dates|]. split; [nodup_dates|].
  repeat constructor.
Defined.

Lemma held_tickers_quoted_on_last_row_witness :
  exists earlier dl r p,
    rows stale_raw = earlier ++ [(dl, r)] /\
    cell stale_raw dl "A"%string = Some p /\ notna p = true /\ truthy p = true.
Proof.
  refine (held_tickers_quoted_on_last_row sample_sqrt sample_std sample_pow stale_raw
            (Fin 8) (Fin 2) 5 [] _ 5 Monthly (Fin 4) (mkDate 2020 2 3) "A"%string
            stale_raw_well_formed eq_refl _).
  vm_compute. auto.
Defined.

(** ** When the scoring call fails *)





(** * Tables of positive quotes *)






(** *** Daily returns *)





(** *** Means and running products *)






(** *** The portfolio and the benchmark *)








(** * Building the table twice *)

Lemma insert_row_head (r : Date * list fl) (rs : list (Date * list fl)) :
  Forall (row_le r) rs -> insert_row r rs = r :: rs.
Proof.
  intros H. destruct rs as [|r' rs]; [reflexivity|].
  cbn [insert_row]. apply Forall_inv in H.
  assert (E : date_ltb (fst r') (fst r) = false) by (apply date_ltb_false; exact H).
  rewrite E. reflexivity.
Qed.

Lemma sort_rows_sorted_id (rs : list (Date * list fl)) :
  StronglySorted row_le rs -> sort_rows rs = rs.
Proof.
  induction 1 as [|r rs S IH F]; [reflexivity|].
  unfold sort_rows in *. cbn [fold_right]. rewrite IH. apply insert_row_head, F.
Qed.

Lemma dates_sorted_rows (rs : list (Date * list fl)) :
  StronglySorted date_le (map fst rs) -> StronglySorted row_le rs.
Proof.
  induction rs as [|r rs IH]; intros H; [constructor|].
  cbn [map] in H. apply StronglySorted_inv in H. destruct H as [H1 H2].
  constructor; [apply IH, H1|]. rewrite Forall_map in H2. exact H2.
Qed.

Lemma isna_true (x : fl) : isna x = true -> x = NaN.
Proof. destruct x; simpl; congruence. Qed.

Lemma fill_row_nil (r : list fl) : fill_row [] r = r.
Proof.
  induction r as [|x r IH]; [reflexivity|].
  cbn [fill_row tl hd]. rewrite IH.
  destruct (isna x) eqn:E; [apply isna_true in E; rewrite E|]; reflexivity.
Qed.

Lemma fill_row_idem (r : list fl) :
  forall prev, fill_row prev (fill_row prev r) = fill_row prev r.
Proof.
  induction r as [|x r IH]; intros prev; [reflexivity|].
  cbn [fill_row]. rewrite IH. f_equal.
  destruct (isna x) eqn:E; [|rewrite E; reflexivity].
  destruct (isna (hd NaN prev)); reflexivity.
Qed.

Lemma ffill_rows_idem (rs : list (Date * list fl)) :
  forall prev, ffill_rows prev (ffill_rows prev rs) = ffill_rows prev rs.
Proof.
  induction rs as [|[d r] rs IH]; intros prev; [reflexivity|].
  cbn [ffill_rows]. rewrite fill_row_idem, IH. reflexivity.
Qed.

Lemma select_nil (A : Type) (m : list bool) : select m (@nil A) = [].
Proof. destruct m; reflexivity. Qed.

Lemma fill_row_select (m : list bool) :
  forall prev r,
    length prev = length r ->
    fill_row (select m prev) (select m r) = select m (fill_row prev r).
Proof.
  induction m as [|b m IH]; intros prev r L; [reflexivity|].
  destruct r as [|x r]; [rewrite select_nil; reflexivity|].
  destruct prev as [|y prev]; [discriminate|].
  injection L as L. cbn [select fill_row hd tl].
  destruct b; cbn [fill_row hd tl]; rewrite (IH prev r L); reflexivity.
Qed.

Lemma ffill_rows_select (m : list bool) (n : nat) (rs : list (Date * list fl)) :
  Forall (fun r => length (snd r) = n) rs ->
  forall prev,
    prev = [] \/ length prev = n ->
    ffill_rows (select m prev) (map (fun r => (fst r, select m (snd r))) rs) =
    map (fun r => (fst r, select m (snd r))) (ffill_rows prev rs).
Proof.
  induction 1 as [|[d r] rs Hr H IH]; intros prev Hp; [reflexivity|].
  cbn [snd] in Hr. cbn [map ffill_rows fst snd].
  assert (E : fill_row (select m prev) (select m r) = select m (fill_row prev r)).
  { destruct Hp as [-> | Hp].
    - rewrite select_nil, !fill_row_nil. reflexivity.
    - apply fill_row_select. congruence. }
  rewrite E. f_equal. apply IH. right. rewrite fill_row_length. exact Hr.
Qed.

Lemma select_all (A : Type) (m : list bool) :
  forall l : list A,
    Forall (fun b => b = true) m -> length m = length l -> select m l = l.
Proof.
  induction m as [|b m IH]; intros l H L.
  - destruct l; [reflexivity | discriminate].
  - destruct l as [|x l]; [discriminate|]. injection L as L.
    pose proof (Forall_inv H) as ->. apply Forall_inv_tail in H.
    cbn [select]. rewrite (IH l H L). reflexivity.
Qed.

(** Every column kept by [dropna] has a value in the table. *)
Lemma kept_columns_have_values (raw : DataFrame) :
  well_formed raw ->
  Forall (fun b => b = true) (keep_mask (prices (init raw))).
Proof.
  intros WF. set (P := prices (init raw)).
  pose proof (init_well_formed raw WF) as WP. fold P in WP.
  apply Forall_forall. intros b Hb. unfold keep_mask in Hb.
  apply in_map_iff in Hb. destruct Hb as (k & <- & Hk). apply in_seq in Hk.
  destruct (nth_error (columns P) k) as [t|] eqn:Et;
    [|apply nth_error_None in Et; lia].
  assert (Hin : In t (columns P)) by (eapply nth_error_In, Et).
  apply (proj1 (table_columns raw WF t)) in Hin. destruct Hin as (j0 & Hj0 & Hm0).
  pose proof (proj1 (keep_mask_nth _ _) Hm0) as [_ Hcol].
  unfold col_has_value in Hcol. apply existsb_exists in Hcol.
  destruct Hcol as ([d r0] & Hr0 & Hv). cbn [rows ffill sort_index snd] in Hr0, Hv.
  pose proof (table_cell raw WF d r0 t j0 Hr0 Hj0 Hm0) as Hc. fold P in Hc.
  apply (raw_cell P WP) in Hc. destruct Hc as (r & j & Hr & Hj & Hn).
  rewrite (nth_error_index_of t (columns P) k (proj1 (proj2 WP)) Et) in Hj.
  injection Hj as <-.
  unfold col_has_value. apply existsb_exists. exists (d, r). split; [exact Hr|].
  cbn [snd]. rewrite (nth_error_nth _ _ NaN Hn). exact Hv.
Qed.

(** X20. Building a backtester from the table of a backtester changes
    nothing: the table is already sorted and filled and has no empty
    column, so sorting, filling and dropping leave it as it is. *)
Theorem init_idempotent (raw : DataFrame) :
  well_formed raw -> init (prices (init raw)) = init raw.
Proof.
  intros WF. set (P := prices (init raw)).
  pose proof (init_well_formed raw WF) as WP. fold P in WP.
  assert (ES : sort_rows (rows P) = rows P).
  { apply sort_rows_sorted_id, dates_sorted_rows. apply init_index_sorted. }
  set (m := keep_mask (ffill (sort_index raw))).
  set (sel := fun r : Date * list fl => (fst r, select m (snd r))).
  assert (EP : rows P = map sel (ffill_rows [] (sort_rows (rows raw)))) by reflexivity.
  assert (EF : ffill_rows [] (rows P) = rows P).
  { rewrite EP. rewrite <- (select_nil fl m) at 1.
    unfold sel. rewrite (ffill_rows_select m (length (columns raw))).
    - rewrite ffill_rows_idem. reflexivity.
    - apply ffill_rows_length.
      eapply Permutation_Forall; [symmetry; apply sort_rows_perm|].
      exact (proj2 (proj2 WF)).
    - left. reflexivity. }
  assert (E1 : ffill (sort_index P) = P).
  { unfold ffill, sort_index. cbn [columns rows]. rewrite ES, EF.
    destruct P; reflexivity. }
  assert (E2 : dropna_cols P = P).
  { pose proof (kept_columns_have_values raw WF) as Hm. fold P in Hm.
    assert (Lm : length (keep_mask P) = length (columns P))
      by (unfold keep_mask; rewrite length_map, length_seq; reflexivity).
    unfold dropna_cols. rewrite (select_all _ _ _ Hm Lm).
    assert (Er : map (fun r => (fst r, select (keep_mask P) (snd r))) (rows P) = rows P).
    { rewrite <- (map_id (rows P)) at 2. apply map_ext_in. intros [d r] Hr.
      cbn [fst snd]. f_equal. apply select_all; [exact Hm|].
      destruct WP as (_ & _ & HL). rewrite Forall_forall in HL.
      rewrite Lm. symmetry. apply (HL _ Hr). }
    rewrite Er. destruct P; reflexivity. }
  unfold init at 1. fold P. rewrite E1, E2. reflexivity.
Qed.

Lemma init_idempotent_witness : init (prices (init sample_raw)) = init sample_raw.
Proof. exact (init_idempotent sample_raw sample_raw_well_formed). Defined.
